(** * corporate-fb: the asset pipeline of the flipbook site

    A shallow embedding of the two build scripts of the repository,
    [build-images.js] (the local image optimizer) and [build-cloudflare.js]
    (the Cloudflare Pages packaging pipeline), together with the facts the
    specification states about them.

    JavaScript strings are modelled as [string] (a sequence of 8-bit
    characters: the UTF-8 encoding of the text, on which every pattern of the
    scripts, all of them ASCII, matches exactly as on UTF-16 code units);
    reading a file as text decodes its bytes, which replaces what is not
    well-formed UTF-8.  The file system is a finite map from resolved paths
    to nodes, console output and the commands handed to the shell are kept
    in the state, and the scripts run in a small state-and-exception
    monad. *)

From Stdlib Require Import Ascii.
From Stdlib Require PrimFloat FloatOps SpecFloat Uint63.
From stdpp Require Import base strings list gmap pretty.

(** ** Strings *)

Module Str.

(** The double quote and the line feed, spelled by their codes. *)
Definition dq : string := String "034"%char "".
Definition nl : string := String "010"%char "".

(** [q s] is [s] between double quotes. *)
Definition q (s : string) : string := dq +:+ s +:+ dq.

(** [strip_prefix p s] is [Some r] when [s = p +:+ r]. *)
Fixpoint strip_prefix (p s : string) : option string :=
  match p with
  | EmptyString => Some s
  | String a p' =>
      match s with
      | EmptyString => None
      | String b s' => if Ascii.eqb a b then strip_prefix p' s' else None
      end
  end.

Definition starts_with (p s : string) : bool :=
  match strip_prefix p s with Some _ => true | None => false end.

Fixpoint rev_acc (s acc : string) : string :=
  match s with
  | EmptyString => acc
  | String c s' => rev_acc s' (String c acc)
  end.

Definition rev (s : string) : string := rev_acc s "".

Definition ends_with (p s : string) : bool := starts_with (rev p) (rev s).

Fixpoint contains_char (c : ascii) (s : string) : bool :=
  match s with
  | EmptyString => false
  | String d s' => Ascii.eqb c d || contains_char c s'
  end.

(** ASCII lower-casing: the only case folding a JavaScript regular
    expression with the [i] flag (and without [u]) performs between ASCII
    pattern characters and the input. *)
Definition lower_char (c : ascii) : ascii :=
  let n := nat_of_ascii c in
  if (65 <=? n)%nat && (n <=? 90)%nat then ascii_of_nat (n + 32) else c.

Fixpoint lower (s : string) : string :=
  match s with
  | EmptyString => EmptyString
  | String c s' => String (lower_char c) (lower s')
  end.

(** [n] times the character [c]. *)
Fixpoint copies (n : nat) (c : ascii) : string :=
  match n with
  | O => ""
  | S n' => String c (copies n' c)
  end.

(** The characters that stand for themselves wherever the scripts put a
    path: an ASCII letter or digit, a dot, an underscore, a hyphen, a
    slash.  Neither the shell, between double quotes, nor ImageMagick, nor
    the formatting of [console.error] reads anything into them. *)
Definition plain_char (c : ascii) : bool :=
  let n := nat_of_ascii c in
  ((48 <=? n)%nat && (n <=? 57)%nat) || ((65 <=? n)%nat && (n <=? 90)%nat)
  || ((97 <=? n)%nat && (n <=? 122)%nat) || contains_char c "._-/".

Fixpoint all_chars (p : ascii → bool) (s : string) : bool :=
  match s with
  | EmptyString => true
  | String c s' => p c && all_chars p s'
  end.

(** A path of plain characters that cannot be taken for an option. *)
Definition plain (s : string) : bool :=
  all_chars plain_char s && negb (starts_with "-" s) && negb (String.eqb s "").

(** [l.join(sep)]. *)
Fixpoint join_with (sep : string) (l : list string) : string :=
  match l with
  | [] => ""
  | [s] => s
  | s :: l' => s +:+ sep +:+ join_with sep l'
  end.

(** The proper suffixes of [s], longest first. *)
Fixpoint proper_suffixes (s : string) : list string :=
  match s with
  | EmptyString => []
  | String _ s' => s' :: proper_suffixes s'
  end.

(** No proper non-empty suffix of [p] is a prefix of [p]: two occurrences
    of [p] in a text never overlap. *)
Definition border_free (p : string) : bool :=
  forallb (λ m, String.eqb m "" || negb (starts_with m p)) (proper_suffixes p).

End Str.

(** ** UTF-8, as Node decodes it *)

Module Utf8.

Definition byte (a : ascii) : N := N_of_ascii a.

Definition between (lo hi : N) (a : ascii) : bool :=
  (lo <=? byte a)%N && (byte a <=? hi)%N.

(** A continuation byte, [10xxxxxx]. *)
Definition continuation (a : ascii) : bool := between 0x80 0xBF a.

(** The number of continuation bytes the lead byte [b] announces.  [C0],
    [C1] and [F5] to [FF] lead nothing, and a continuation byte is no lead
    byte. *)
Definition announced (b : ascii) : option nat :=
  if between 0xC2 0xDF b then Some 1%nat
  else if between 0xE0 0xEF b then Some 2%nat
  else if between 0xF0 0xF4 b then Some 3%nat
  else None.

(** The bounds of the byte that follows the lead byte [b]: they exclude
    the overlong forms after [E0] and [F0], the surrogates after [ED] and
    what lies beyond U+10FFFF after [F4]. *)
Definition second_low (b : ascii) : N :=
  if (byte b =? 0xE0)%N then 0xA0%N else if (byte b =? 0xF0)%N then 0x90%N else 0x80%N.

Definition second_high (b : ascii) : N :=
  if (byte b =? 0xED)%N then 0x9F%N else if (byte b =? 0xF4)%N then 0x8F%N else 0xBF%N.

(** What the decoder reads at the head of a text: the encoding of one
    scalar value, or an ill-formed sequence.  An ill-formed sequence ends
    before the first byte that cannot continue it (or after its lead byte
    when that byte leads nothing), and the decoder goes on from there. *)
Inductive parsed :=
| Scalar (bytes rest : string)
| Ill_formed (rest : string).

Definition parse (b : ascii) (rest : string) : parsed :=
  if (byte b <? 0x80)%N then Scalar (String b "") rest
  else
    match announced b with
    | None => Ill_formed rest
    | Some n =>
        match rest with
        | EmptyString => Ill_formed ""
        | String c rest1 =>
            if negb (between (second_low b) (second_high b) c) then Ill_formed rest
            else
              match n with
              | 1%nat => Scalar (String b (String c "")) rest1
              | _ =>
                  match rest1 with
                  | EmptyString => Ill_formed ""
                  | String d rest2 =>
                      if negb (continuation d) then Ill_formed rest1
                      else
                        match n with
                        | 2%nat => Scalar (String b (String c (String d ""))) rest2
                        | _ =>
                            match rest2 with
                            | EmptyString => Ill_formed ""
                            | String e rest3 =>
                                if continuation e
                                then Scalar (String b (String c (String d (String e ""))))
                                       rest3
                                else Ill_formed rest2
                            end
                        end
                  end
              end
        end
    end.

(** U+FFFD, the replacement character, in UTF-8. *)
Definition replacement : string := String "239" (String "191" (String "189" "")).

(** [Buffer.from(s).toString('utf8')], encoded again: the encoding of
    every scalar value is kept and every ill-formed sequence becomes
    U+FFFD.  Every step consumes a byte, so the length of the text is fuel
    enough. *)
Fixpoint scrub_from (fuel : nat) (s : string) : string :=
  match fuel, s with
  | S fuel', String b rest =>
      match parse b rest with
      | Scalar bytes rest' => bytes +:+ scrub_from fuel' rest'
      | Ill_formed rest' => replacement +:+ scrub_from fuel' rest'
      end
  | _, _ => ""
  end.

Definition scrub (s : string) : string := scrub_from (String.length s) s.

(** Well-formed UTF-8: a sequence of encodings of scalar values. *)
Fixpoint well_formed_from (fuel : nat) (s : string) : bool :=
  match s with
  | EmptyString => true
  | String b rest =>
      match fuel with
      | O => false
      | S fuel' =>
          match parse b rest with
          | Scalar _ rest' => well_formed_from fuel' rest'
          | Ill_formed _ => false
          end
      end
  end.

Definition well_formed (s : string) : bool := well_formed_from (String.length s) s.

End Utf8.

(** ** The part of the JavaScript runtime the scripts use *)

Module Js.

(** *** [String.prototype.replace] with a regular expression without flags

    The only regular expression [replace] is called with consists of
    pattern characters and identity escapes.  [pattern_chars] decodes the
    source of such an expression into the text it matches, and refuses
    (with [None]) a source that uses an unescaped syntax character. *)

Definition syntax_char (c : ascii) : bool :=
  Str.contains_char c "^$\.*+?()[]{}|/".

Fixpoint pattern_chars (src : string) : option string :=
  match src with
  | EmptyString => Some ""
  | String "\" (String c rest) =>
      if syntax_char c then String c <$> pattern_chars rest else None
  | String c rest =>
      if syntax_char c then None else String c <$> pattern_chars rest
  end.

(** The leftmost match of the literal [pat] in [s]: the text before it and
    the text after it. *)
Fixpoint search (pat s : string) : option (string * string) :=
  match Str.strip_prefix pat s with
  | Some rest => Some ("", rest)
  | None =>
      match s with
      | EmptyString => None
      | String c s' =>
          match search pat s' with
          | Some (before, after) => Some (String c before, after)
          | None => None
          end
      end
  end.

(** [GetSubstitution] for a match without capture groups: [$$] is a
    dollar, [$&] the match, [$`] the text before it, [$'] the text after
    it; every other dollar stands for itself. *)
Fixpoint get_substitution (matched before after replacement : string) : string :=
  match replacement with
  | EmptyString => ""
  | String "$" (String c rest) =>
      if Ascii.eqb c "$" then "$" +:+ get_substitution matched before after rest
      else if Ascii.eqb c "&" then matched +:+ get_substitution matched before after rest
      else if Ascii.eqb c "`" then before +:+ get_substitution matched before after rest
      else if Ascii.eqb c "'" then after +:+ get_substitution matched before after rest
      else String "$" (String c (get_substitution matched before after rest))
  | String c rest => String c (get_substitution matched before after rest)
  end.

(** [s.replace(/source/, replacement)]: the expression has no [g] flag,
    so only the leftmost match is replaced. *)
Definition replace (source replacement s : string) : string :=
  match pattern_chars source with
  | Some pat =>
      match search pat s with
      | None => s
      | Some (before, after) =>
          before +:+ get_substitution pat before after replacement +:+ after
      end
  | None => s
  end.

(** *** Numbers

    The numbers of the size report are binary64, and
    [Number.prototype.toFixed] prints the decimal nearest to the exact
    value of the number it is given. *)

(** A byte count as a number; exact below [2^53]. *)
Definition of_N (n : N) : PrimFloat.float := PrimFloat.of_uint63 (Uint63.of_Z (Z.of_N n)).

(** The integer nearest to [m * 2^e], the larger one of two that are
    equally near. *)
Definition nearest (m e : Z) : Z :=
  if (0 <=? e)%Z then (m * 2 ^ e)%Z
  else ((2 * m + 2 ^ (- e)) `div` 2 ^ (1 - e))%Z.

(** The digits of [n] with a point before the last [f] of them. *)
Definition fixed_digits (f : nat) (n : N) : string :=
  let m := pretty n in
  if (f =? 0)%nat then m
  else
    let m := Str.copies (f + 1 - String.length m) "0" +:+ m in
    let k := String.length m in
    String.substring 0 (k - f) m +:+ "." +:+ String.substring (k - f) f m.

(** [x.toFixed(f)], for [x] below [10^21] in magnitude ([None] beyond,
    where [toFixed] switches to the exponential notation). *)
Definition to_fixed (f : nat) (x : PrimFloat.float) : option string :=
  match FloatOps.Prim2SF x with
  | SpecFloat.S754_nan => Some "NaN"
  | SpecFloat.S754_infinity negative =>
      Some (if negative then "-Infinity" else "Infinity")
  | SpecFloat.S754_zero _ => Some (fixed_digits f 0)
  | SpecFloat.S754_finite negative m e =>
      if (10 ^ 21 <=? nearest (Z.pos m) e)%Z then None
      else Some ((if negative then "-" else "")
                 +:+ fixed_digits f (Z.to_N (nearest (Z.pos m * 10 ^ Z.of_nat f) e)))
  end.

(** The largest byte count the additions of the size report keep exact. *)
Definition exact_below : N := 2 ^ 53.

(** [(bytes / 1024 / 1024).toFixed(2)]. *)
Definition megabytes (bytes : N) : option string :=
  if (bytes <? exact_below)%N
  then to_fixed 2 (PrimFloat.div (PrimFloat.div (of_N bytes) (of_N 1024)) (of_N 1024))
  else None.

(** [((original - optimized) / original * 100).toFixed(1)]. *)
Definition reduction (original optimized : N) : option string :=
  if (original <? exact_below)%N && (optimized <? exact_below)%N
  then to_fixed 1 (PrimFloat.mul
                     (PrimFloat.div (PrimFloat.sub (of_N original) (of_N optimized))
                        (of_N original))
                     (of_N 100))
  else None.

End Js.

(** ** Node's [path] module (POSIX flavour) *)

Module Path.

(** The segments of a path between its slashes; [split_slash "a//b"] is
    [["a"; ""; "b"]]. *)
Fixpoint split_slash (s : string) : list string :=
  match s with
  | EmptyString => [""]
  | String c r =>
      if Ascii.eqb c "/" then "" :: split_slash r
      else match split_slash r with
           | h :: t => String c h :: t
           | [] => [String c ""]
           end
  end.

Fixpoint join_slash (l : list string) : string :=
  match l with
  | [] => ""
  | [s] => s
  | s :: l' => s +:+ "/" +:+ join_slash l'
  end.

(** One step of [normalizeString]: empty and [.] segments are dropped, a
    [..] removes the segment before it, or is kept when there is none to
    remove and the path is relative.  The stack holds the segments kept so
    far, the last one first. *)
Definition push_segment (allow_above : bool) (stack : list string) (seg : string)
  : list string :=
  if String.eqb seg "" || String.eqb seg "." then stack
  else if String.eqb seg ".." then
    match stack with
    | top :: below =>
        if String.eqb top ".." then (if allow_above then ".." :: stack else stack)
        else below
    | [] => if allow_above then [".."] else []
    end
  else seg :: stack.

Definition normalize_segments (allow_above : bool) (segs : list string) : list string :=
  reverse (foldl (push_segment allow_above) [] segs).

Definition is_absolute (p : string) : bool := Str.starts_with "/" p.

(** [path.normalize]. *)
Definition normalize (p : string) : string :=
  if String.eqb p "" then "."
  else
    let body := join_slash (normalize_segments (negb (is_absolute p)) (split_slash p)) in
    let trailing := Str.ends_with "/" p in
    if String.eqb body "" then
      (if is_absolute p then "/" else if trailing then "./" else ".")
    else
      (if is_absolute p then "/" else "") +:+ body +:+ (if trailing then "/" else "").

(** [path.join] of two arguments: empty arguments are skipped, the others
    are glued with a slash and the result is normalized. *)
Definition join (a b : string) : string :=
  if String.eqb a "" then (if String.eqb b "" then "." else normalize b)
  else if String.eqb b "" then normalize a
  else normalize (a +:+ "/" +:+ b).

(** The part of a file name before its last dot, when it has one. *)
Fixpoint before_last_dot (s : string) : option string :=
  match s with
  | EmptyString => None
  | String c r =>
      match before_last_dot r with
      | Some p => Some (String c p)
      | None => if Ascii.eqb c "." then Some "" else None
      end
  end.

(** The last non-empty segment of a path. *)
Definition basename (p : string) : string :=
  default "" (last (filter (λ s, s ≠ "") (split_slash p))).

(** [path.parse(p).name]: the base name without its extension.  A base
    name whose only dot is its first character, and the name [..], have no
    extension. *)
Definition parse_name (p : string) : string :=
  let base := basename p in
  match before_last_dot base with
  | None => base
  | Some stem =>
      if String.eqb stem "" || String.eqb base ".." then base else stem
  end.

(** A name a directory can hold: not empty, no slash, neither [.] nor
    [..]. *)
Definition valid_name (n : string) : bool :=
  negb (String.eqb n "") && negb (String.eqb n ".") && negb (String.eqb n "..")
  && negb (Str.contains_char "/" n).

Definition slash_free (s : string) : Prop := Str.contains_char "/" s = false.

(** A path that names its target outright: names, after a [.] or the root
    if any, with no [..], no empty segment and no slash at the end.  The
    file system walks such a path as it is normalized. *)
Definition direct (p : string) : bool :=
  match split_slash p with
  | first :: rest =>
      (String.eqb first "." || (String.eqb first "" && negb (bool_decide (rest = [])))
       || valid_name first)
      && forallb valid_name rest
  | [] => false
  end.

(** A normalized list of segments: [..] segments first (none when the path
    is absolute), then names. *)
Definition canonical (allow : bool) (segs : list string) : Prop :=
  ∃ k names, segs = replicate k ".." ++ names
             ∧ (allow = false → k = 0)
             ∧ Forall (λ n, valid_name n = true) names.

End Path.

(** ** JSON values and [JSON.stringify] *)

Module Json.

(** The values the scripts build: [null], strings, and objects, whose
    properties are kept in insertion order. *)
#[warnings="-register-all"]
Inductive value :=
| Null
| Str (s : string)
| Obj (props : list (string * value)).

Definition truthy (v : value) : bool :=
  match v with
  | Null => false
  | Str s => negb (String.eqb s "")
  | Obj _ => true
  end.

Fixpoint get_prop (k : string) (props : list (string * value)) : option value :=
  match props with
  | [] => None
  | (k', v) :: rest => if String.eqb k k' then Some v else get_prop k rest
  end.

(** [o[k] = v]: an existing property keeps its place, a new one goes last.
    (No key of the scripts is an array index or [__proto__]: the file
    names end in an image extension and the preset names are fixed.) *)
Fixpoint set_prop (k : string) (v : value) (props : list (string * value))
  : list (string * value) :=
  match props with
  | [] => [(k, v)]
  | (k', v') :: rest =>
      if String.eqb k k' then (k, v) :: rest else (k', v') :: set_prop k v rest
  end.

Definition keys (props : list (string * value)) : list string := props.*1.

Definition hex_digit (n : nat) : ascii :=
  if (n <? 10)%nat then ascii_of_nat (48 + n) else ascii_of_nat (87 + n).

(** [QuoteJSONString], one character at a time. *)
Definition quote_char (c : ascii) : string :=
  let n := nat_of_ascii c in
  if Ascii.eqb c "034" then "\" +:+ Str.dq
  else if Ascii.eqb c "\" then "\\"
  else if (n =? 8)%nat then "\b"
  else if (n =? 9)%nat then "\t"
  else if (n =? 10)%nat then "\n"
  else if (n =? 12)%nat then "\f"
  else if (n =? 13)%nat then "\r"
  else if (n <? 32)%nat then
    "\u00" +:+ String (hex_digit (n / 16)) (String (hex_digit (n mod 16)) "")
  else String c "".

Fixpoint quote_body (s : string) : string :=
  match s with
  | EmptyString => ""
  | String c s' => quote_char c +:+ quote_body s'
  end.

Definition quote (s : string) : string := Str.q (quote_body s).

(** [JSON.stringify(v, null, 2)] below the indentation [indent]. *)
Fixpoint stringify_at (indent : string) (v : value) : string :=
  match v with
  | Null => "null"
  | Str s => quote s
  | Obj [] => "{}"
  | Obj props =>
      let inner := indent +:+ "  " in
      "{" +:+ Str.nl
      +:+ Str.join_with ("," +:+ Str.nl)
            (map (λ kv, inner +:+ quote kv.1 +:+ ": " +:+ stringify_at inner kv.2) props)
      +:+ Str.nl +:+ indent +:+ "}"
  end.

Definition stringify (v : value) : string := stringify_at "" v.

End Json.

(** ** The process: file system, console, shell *)

Module Sys.

(** A node of the file system: a regular file with its bytes, or a
    directory. *)
Inductive node :=
| File (content : string)
| Dir.

(** A file system maps resolved paths to nodes.  A resolved path is the
    list of its segments from the working directory (from the marker ["/"]
    when the path is absolute); the working directory itself is [[]]. *)
Abbreviation tree := (gmap (list string) node).

Definition resolve (p : string) : list string :=
  let segs := Path.normalize_segments (negb (Path.is_absolute p)) (Path.split_slash p) in
  if Path.is_absolute p then "/" :: segs else segs.

Inductive line :=
| Out (text : string)
| Err (text : string).

(** An invocation of ImageMagick's [convert] that resizes and re-encodes:
    [convert "input" -resize <width>x -quality <quality> [-format webp] "output"]. *)
Record convert_cmd := {
  cmd_input : string;
  cmd_width : N;
  cmd_quality : N;
  cmd_format_webp : bool;
  cmd_output : string
}.

Inductive command :=
| Convert_version
| Convert (c : convert_cmd).

(** What an external encoder answers: the bytes it writes to its output
    path, or the message of the error the call throws. *)
Inductive exec_result :=
| Exec_ok (written : string)
| Exec_fail (message : string).

Record world := {
  fs : tree;
  console : list line;
  shell : list command
}.

Definition set_fs (t : tree) (w : world) : world :=
  {| fs := t; console := console w; shell := shell w |}.

(** *** The monad: state, thrown errors and [process.exit] *)

Inductive outcome (A : Type) :=
| Ok (a : A)
| Throw (message : string)
| Exit (code : nat).
Arguments Ok {A} a.
Arguments Throw {A} message.
Arguments Exit {A} code.

Definition M (A : Type) : Type := world → outcome A * world.

Definition ret {A} (a : A) : M A := λ w, (Ok a, w).

Definition bind {A B} (m : M A) (k : A → M B) : M B :=
  λ w, match m w with
       | (Ok a, w') => k a w'
       | (Throw e, w') => (Throw e, w')
       | (Exit c, w') => (Exit c, w')
       end.

Definition throw {A} (message : string) : M A := λ w, (Throw message, w).

Definition process_exit {A} (code : nat) : M A := λ w, (Exit code, w).

(** [try { m } catch (error) { handler(error.message) }]. *)
Definition try_catch {A} (m : M A) (handler : string → M A) : M A :=
  λ w, match m w with
       | (Throw e, w') => handler e w'
       | r => r
       end.

Declare Scope sys_scope.
Delimit Scope sys_scope with sys.
Notation "x <- m ;; k" := (bind m (λ x, k))
  (at level 20, m at level 99, k at level 200, only parsing) : sys_scope.
Notation "m ;; k" := (bind m (λ _, k))
  (at level 100, k at level 200, only parsing, right associativity) : sys_scope.
Local Open Scope sys_scope.

(** [for (const x of l) s = await f(s, x)], and [l.forEach] with the state
    the callback updates passed along. *)
Fixpoint foldM {S A} (f : S → A → M S) (s : S) (l : list A) : M S :=
  match l with
  | [] => ret s
  | x :: l' => s' <- f s x;; foldM f s' l'
  end.

Definition forEach {A} (f : A → M unit) (l : list A) : M unit :=
  foldM (λ _ x, f x) tt l.

(** *** [console] *)

Definition console_log (text : string) : M unit :=
  λ w, (Ok tt, {| fs := fs w; console := console w ++ [Out text]; shell := shell w |}).

Definition console_error (text : string) : M unit :=
  λ w, (Ok tt, {| fs := fs w; console := console w ++ [Err text]; shell := shell w |}).

(** *** [fs]

    The calls fail as Node's do when a path is missing or of the wrong
    kind.  Permissions, quotas and missing parent directories are not
    modelled: the scripts create every directory they write into.  A path
    is looked up as [resolve] normalizes it.  That is how the file system
    walks a path that names its target outright ([Path.direct]); a [..]
    behind a directory that does not exist, or a slash behind a regular
    file, it answers with an error. *)

Definition existsSync (p : string) : M bool :=
  λ w, (Ok (bool_decide (is_Some (fs w !! resolve p))), w).

(** [fs.mkdirSync(p, { recursive: true })]: the directory and its missing
    ancestors are created; a regular file in the way is an error. *)
Fixpoint mkdir_from (above rest : list string) (t : tree) : option tree :=
  match rest with
  | [] => Some t
  | seg :: rest' =>
      let k := above ++ [seg] in
      match t !! k with
      | Some (File _) => None
      | _ => mkdir_from k rest' (<[k := Dir]> t)
      end
  end.

Definition mkdirSync (p : string) : M unit :=
  λ w, match mkdir_from [] (resolve p) (fs w) with
       | Some t => (Ok tt, set_fs t w)
       | None => (Throw ("EEXIST: file already exists, mkdir '" +:+ p +:+ "'"), w)
       end.

(** [key] lies at or below [dir]. *)
Definition below (dir key : list string) : Prop := dir `prefix_of` key.

(** [fs.rmSync(p, { recursive: true })]. *)
Definition rmSync (p : string) : M unit :=
  λ w, match fs w !! resolve p with
       | Some _ => (Ok tt, set_fs (filter (λ kv, ¬ below (resolve p) kv.1) (fs w)) w)
       | None => (Throw ("ENOENT: no such file or directory, rm '" +:+ p +:+ "'"), w)
       end.

(** The names a directory holds, in the order the file system lists them. *)
Definition entries (dir : list string) (t : tree) : list string :=
  omap (λ kv : list string * node,
          match last kv.1 with
          | Some name =>
              if bool_decide (kv.1 = dir ++ [name]) && Path.valid_name name
              then Some name else None
          | None => None
          end) (map_to_list t).

Definition readdirSync (p : string) : M (list string) :=
  λ w, match fs w !! resolve p with
       | Some Dir => (Ok (entries (resolve p) (fs w)), w)
       | Some (File _) => (Throw ("ENOTDIR: not a directory, scandir '" +:+ p +:+ "'"), w)
       | None => (Throw ("ENOENT: no such file or directory, scandir '" +:+ p +:+ "'"), w)
       end.

(** [fs.readFileSync(p, 'utf8')]: the text the bytes of the file decode
    to. *)
Definition readFileSync (p : string) : M string :=
  λ w, match fs w !! resolve p with
       | Some (File c) => (Ok (Utf8.scrub c), w)
       | Some Dir => (Throw "EISDIR: illegal operation on a directory, read", w)
       | None => (Throw ("ENOENT: no such file or directory, open '" +:+ p +:+ "'"), w)
       end.

Definition writeFileSync (p content : string) : M unit :=
  λ w, match fs w !! resolve p with
       | Some Dir => (Throw ("EISDIR: illegal operation on a directory, open '" +:+ p +:+ "'"), w)
       | _ => (Ok tt, set_fs (<[resolve p := File content]> (fs w)) w)
       end.

Definition copyFileSync (src dst : string) : M unit :=
  λ w, match fs w !! resolve src with
       | Some (File c) =>
           match fs w !! resolve dst with
           | Some Dir =>
               (Throw ("EISDIR: illegal operation on a directory, copyfile '"
                       +:+ src +:+ "' -> '" +:+ dst +:+ "'"), w)
           | _ => (Ok tt, set_fs (<[resolve dst := File c]> (fs w)) w)
           end
       | Some Dir =>
           (Throw ("EISDIR: illegal operation on a directory, copyfile '"
                   +:+ src +:+ "' -> '" +:+ dst +:+ "'"), w)
       | None =>
           (Throw ("ENOENT: no such file or directory, copyfile '"
                   +:+ src +:+ "' -> '" +:+ dst +:+ "'"), w)
       end.

(** [fs.statSync(p).size]; [dir_size] is what the file system reports for
    a directory. *)
Definition statSync_size (dir_size : N) (p : string) : M N :=
  λ w, match fs w !! resolve p with
       | Some (File c) => (Ok (N.of_nat (String.length c)), w)
       | Some Dir => (Ok dir_size, w)
       | None => (Throw ("ENOENT: no such file or directory, stat '" +:+ p +:+ "'"), w)
       end.

(** An external encoder answering [r] for the output path [output]: its
    bytes land there, unless it fails or the path is a directory. *)
Definition encoded (output : string) (r : exec_result) (t : tree) : string + tree :=
  match r with
  | Exec_fail message => inl message
  | Exec_ok bytes =>
      match t !! resolve output with
      | Some Dir => inl ("unable to open image '" +:+ output +:+ "': Is a directory")
      | _ => inr (<[resolve output := File bytes]> t)
      end
  end.

Definition write_encoded (output : string) (r : exec_result) : M unit :=
  λ w, match encoded output r (fs w) with
       | inl message => (Throw message, w)
       | inr t => (Ok tt, set_fs t w)
       end.

(** The image filter of both scripts: [/\.(jpg|jpeg|png)$/i.test(file)]. *)
Definition is_image (file : string) : bool :=
  let f := Str.lower file in
  Str.ends_with ".jpg" f || Str.ends_with ".jpeg" f || Str.ends_with ".png" f.

End Sys.

Export Sys(outcome(..), node(..), line(..), exec_result(..), command(..)).

(** ** [build-images.js]: the local image optimizer *)

Module BuildImages.
Import Sys.
Local Open Scope sys_scope.

Record config := {
  width : N;
  quality : N;
  suffix : string
}.

(** The presets, in declaration order (the order of [Object.keys] and
    [Object.entries]). *)
Definition configs : list (string * config) :=
  [ ("mobile",    {| width := 800;  quality := 75; suffix := "-mobile" |});
    ("tablet",    {| width := 1200; quality := 80; suffix := "-tablet" |});
    ("desktop",   {| width := 1920; quality := 85; suffix := "-desktop" |});
    ("thumbnail", {| width := 300;  quality := 70; suffix := "-thumb" |}) ].

(** What the script depends on outside itself: ImageMagick, the size the
    file system reports for a directory, and the numbers of the size report
    where [Js.megabytes] and [Js.reduction] do not say what they are (totals
    of [2^53] bytes and more). *)
Record env := {
  (** [convert -version] exits with status 0 *)
  convert_version_ok : bool;
  (** a resize-and-encode invocation, run on the current file system *)
  convert : convert_cmd → tree → exec_result;
  dir_size : N;
  (** [(bytes / 1024 / 1024).toFixed(2)], beyond [Js.megabytes] *)
  megabytes : N → string;
  (** [((original - optimized) / original * 100).toFixed(1)], beyond
      [Js.reduction] *)
  percent : N → N → string
}.

Section Script.
Context (E : env).

(** [execSync(command)].  The script hands the shell one string, with the
    paths between double quotes; the model keeps the command in its parts
    and has ImageMagick write at the output path.  The two agree for plain
    paths ([Str.plain]): in a path the shell reads a dollar, a back quote, a
    backslash and a double quote, and ImageMagick reads more. *)
Definition execSync (c : command) : M unit :=
  (λ w, (Ok tt, {| fs := fs w; console := console w; shell := shell w ++ [c] |}));;
  match c with
  | Convert_version =>
      if convert_version_ok E then ret tt else throw "Command failed: convert -version"
  | Convert cmd => λ w, write_encoded (cmd_output cmd) (convert E cmd (fs w)) w
  end.

Definition checkImageMagick : M bool :=
  try_catch
    (execSync Convert_version;;
     ret true)
    (λ _,
     console_error "ImageMagick not found. Please install it:";;
     console_error "macOS: brew install imagemagick";;
     console_error "Ubuntu: sudo apt-get install imagemagick";;
     console_error "Windows: Download from https://imagemagick.org/";;
     ret false).

(** The two commands [optimizeImage] builds. *)
Definition webp_command (inputPath outputDir filename : string) (cfg : config)
  : convert_cmd :=
  {| cmd_input := inputPath; cmd_width := width cfg; cmd_quality := quality cfg;
     cmd_format_webp := true;
     cmd_output :=
       Path.join outputDir (Path.parse_name filename +:+ suffix cfg +:+ ".webp") |}.

Definition jpeg_command (inputPath outputDir filename : string) (cfg : config)
  : convert_cmd :=
  {| cmd_input := inputPath; cmd_width := width cfg; cmd_quality := quality cfg;
     cmd_format_webp := false;
     cmd_output :=
       Path.join outputDir (Path.parse_name filename +:+ suffix cfg +:+ ".jpg") |}.

(** The line of the [catch] is [console.error(format, message)]: the two
    texts with a space between them, for a file name without a percent
    sign, which the format would lend a meaning to. *)
Definition optimizeImage (inputPath outputDir filename : string) (cfg : config)
  : M Json.value :=
  let nameWithoutExt := Path.parse_name filename in
  let outputPath := Path.join outputDir (nameWithoutExt +:+ suffix cfg +:+ ".webp") in
  try_catch
    (execSync (Convert (webp_command inputPath outputDir filename cfg));;
     let jpegOutputPath :=
       Path.join outputDir (nameWithoutExt +:+ suffix cfg +:+ ".jpg") in
     execSync (Convert (jpeg_command inputPath outputDir filename cfg));;
     ret (Json.Obj [("webp", Json.Str outputPath); ("jpeg", Json.Str jpegOutputPath)]))
    (λ message,
     console_error ("Error processing " +:+ filename +:+ ": " +:+ message);;
     ret Json.Null).

(** [results[filename][configName] = result]. *)
Definition set_result (filename configName : string) (result : Json.value)
    (results : list (string * Json.value)) : list (string * Json.value) :=
  match Json.get_prop filename results with
  | Some (Json.Obj entry) =>
      Json.set_prop filename (Json.Obj (Json.set_prop configName result entry)) results
  | _ => results
  end.

(** The body of [Object.entries(configs).forEach] for one preset. *)
Definition optimizePreset (outputBaseDir inputPath filename : string)
    (results : list (string * Json.value)) (entry : string * config)
  : M (list (string * Json.value)) :=
  let outputDir := Path.join outputBaseDir entry.1 in
  result <- optimizeImage inputPath outputDir filename entry.2;;
  if Json.truthy result then ret (set_result filename entry.1 result results)
  else ret results.

(** The body of [imageFiles.forEach] for one file; the state is
    [processedCount] and [results]. *)
Definition optimizeFile (sourceDir outputBaseDir : string) (total : nat)
    (state : nat * list (string * Json.value)) (filename : string)
  : M (nat * list (string * Json.value)) :=
  let inputPath := Path.join sourceDir filename in
  console_log ("Processing " +:+ filename +:+ "...");;
  let results := Json.set_prop filename (Json.Obj []) state.2 in
  results <- foldM (optimizePreset outputBaseDir inputPath filename) results configs;;
  let processedCount := S state.1 in
  console_log ("Processed " +:+ pretty processedCount +:+ "/" +:+ pretty total
               +:+ ": " +:+ filename);;
  ret (processedCount, results).

(** [(bytes / 1024 / 1024).toFixed(2)]. *)
Definition megabytes_text (bytes : N) : string :=
  match Js.megabytes bytes with
  | Some text => text
  | None => megabytes E bytes
  end.

(** [((original - optimized) / original * 100).toFixed(1)]. *)
Definition reduction_text (original optimized : N) : string :=
  match Js.reduction original optimized with
  | Some text => text
  | None => percent E original optimized
  end.

Definition showSizeComparison (sourceDir outputBaseDir : string) : M unit :=
  console_log (Str.nl +:+ "Size comparison:");;
  files <- readdirSync sourceDir;;
  let originalFiles := filter (λ file, is_image file = true) files in
  originalTotalSize <-
    foldM (λ total file, size <- statSync_size (dir_size E) (Path.join sourceDir file);;
                         ret (total + size)%N) 0%N originalFiles;;
  optimizedTotalSize <-
    foldM (λ total configName,
             let configDir := Path.join outputBaseDir configName in
             present <- existsSync configDir;;
             if present then
               files <- readdirSync configDir;;
               foldM (λ total file,
                        size <- statSync_size (dir_size E) (Path.join configDir file);;
                        ret (total + size)%N) total files
             else ret total)
          0%N configs.*1;;
  let reduction := reduction_text originalTotalSize optimizedTotalSize in
  console_log ("Original total: " +:+ megabytes_text originalTotalSize +:+ " MB");;
  console_log ("Optimized total: " +:+ megabytes_text optimizedTotalSize +:+ " MB");;
  console_log ("Size reduction: " +:+ reduction +:+ "%").

(** [createOptimizedImages] up to the list of images: the ImageMagick
    check, the output directories, the listing of [sourceDir]. *)
Definition prepare (sourceDir outputBaseDir : string) : M (list string) :=
  available <- checkImageMagick;;
  (if available then ret tt else process_exit 1);;
  console_log "Starting image optimization...";;
  forEach (λ configName,
             let outputDir := Path.join outputBaseDir configName in
             present <- existsSync outputDir;;
             if present then ret tt else mkdirSync outputDir)
          configs.*1;;
  files <- readdirSync sourceDir;;
  let imageFiles := filter (λ file, is_image file = true) files in
  console_log ("Found " +:+ pretty (length imageFiles) +:+ " images to process");;
  ret imageFiles.

(** [imageFiles.forEach], from [processedCount = 0] and [results = {}]. *)
Definition processImages (sourceDir outputBaseDir : string) (imageFiles : list string)
  : M (nat * list (string * Json.value)) :=
  foldM (optimizeFile sourceDir outputBaseDir (length imageFiles)) (0, []) imageFiles.

Definition createOptimizedImages (sourceDir outputBaseDir : string) : M unit :=
  imageFiles <- prepare sourceDir outputBaseDir;;
  state <- processImages sourceDir outputBaseDir imageFiles;;
  let manifestPath := Path.join outputBaseDir "image-manifest.json" in
  writeFileSync manifestPath (Json.stringify (Json.Obj state.2));;
  console_log (Str.nl +:+ "Optimization complete!");;
  console_log ("Processed " +:+ pretty state.1 +:+ " images");;
  console_log ("Manifest saved to: " +:+ manifestPath);;
  showSizeComparison sourceDir outputBaseDir.

(** The script run with the arguments [process.argv[2]] and
    [process.argv[3]], when given (an empty argument counts as absent). *)
Definition or_default (arg : option string) (dflt : string) : string :=
  match arg with
  | Some a => if String.eqb a "" then dflt else a
  | None => dflt
  end.

Definition main (argv2 argv3 : option string) : M unit :=
  let sourceDir := or_default argv2 "./pages" in
  let outputDir := or_default argv3 "./optimized-images" in
  present <- existsSync sourceDir;;
  (if present then ret tt
   else console_error ("Source directory not found: " +:+ sourceDir);;
        process_exit 1);;
  createOptimizedImages sourceDir outputDir.

End Script.

End BuildImages.

(** ** [build-cloudflare.js]: the packaging pipeline *)

Module BuildCloudflare.
Import Sys.
Local Open Scope sys_scope.

Record config := {
  width : N;
  quality : N;
  suffix : string
}.

Definition configs : list (string * config) :=
  [ ("mobile",  {| width := 800;  quality := 75; suffix := "-mobile" |});
    ("tablet",  {| width := 1200; quality := 80; suffix := "-tablet" |});
    ("desktop", {| width := 1920; quality := 85; suffix := "-desktop" |}) ].

(** What the script depends on outside itself: whether [require('sharp')]
    succeeds, what Sharp's
    [sharp(input).resize(width, null, {withoutEnlargement, fit: 'inside'})]
    followed by [.webp({quality})] or [.jpeg({quality})] and [.toFile]
    produces on the current file system, and what [console.error] prints
    for an error object: its name, message and stack, and its
    properties. *)
Record env := {
  sharp_available : bool;
  sharp : bool → string → N → N → tree → exec_result;
  (** the text of [util.inspect(error)] for the error with this message *)
  inspect : string → string
}.

(** The source of the regular expression of [updateHtmlForOptimizedImages],
    between its slashes. *)
Definition slide_regex : string :=
  "slide\.innerHTML = `<div class=" +:+ Str.q "slide-inner" +:+ "><img src="
  +:+ Str.q "pages\/page\$\{i\}\.jpg" +:+ " \/><\/div>`;".

(** The replacement, a template literal without substitutions: [\`] is a
    back quote and [\$] a dollar. *)
Definition picture_template : string :=
  Str.join_with Str.nl
    [ "slide.innerHTML = `<div class=" +:+ Str.q "slide-inner" +:+ ">";
      "        <picture>";
      "          <source media=" +:+ Str.q "(max-width: 768px)"
        +:+ " srcset=" +:+ Str.q "pages/page${i}-mobile.webp"
        +:+ " type=" +:+ Str.q "image/webp" +:+ ">";
      "          <source media=" +:+ Str.q "(max-width: 1024px)"
        +:+ " srcset=" +:+ Str.q "pages/page${i}-tablet.webp"
        +:+ " type=" +:+ Str.q "image/webp" +:+ ">";
      "          <source srcset=" +:+ Str.q "pages/page${i}-desktop.webp"
        +:+ " type=" +:+ Str.q "image/webp" +:+ ">";
      "          <source media=" +:+ Str.q "(max-width: 768px)"
        +:+ " srcset=" +:+ Str.q "pages/page${i}-mobile.jpg" +:+ ">";
      "          <source media=" +:+ Str.q "(max-width: 1024px)"
        +:+ " srcset=" +:+ Str.q "pages/page${i}-tablet.jpg" +:+ ">";
      "          <img src=" +:+ Str.q "pages/page${i}-desktop.jpg" +:+ " />";
      "        </picture>";
      "      </div>`;" ].

Definition headersContent : string :=
  Str.join_with Str.nl
    [ "# Cache images for 1 year";
      "/pages/*";
      "  Cache-Control: public, max-age=31536000, immutable";
      "";
      "# Cache HTML for 1 hour";
      "/*.html";
      "  Cache-Control: public, max-age=3600";
      "";
      "# Enable compression";
      "/*";
      "  X-Content-Type-Options: nosniff";
      "  X-Frame-Options: DENY";
      "  X-XSS-Protection: 1; mode=block";
      "" ].

Section Script.
Context (E : env).

(** [require('sharp')]. *)
Definition require_sharp : M unit :=
  if sharp_available E then ret tt else throw "Cannot find module 'sharp'".

(** [await sharp(input).resize(...).webp/jpeg({quality}).toFile(output)]. *)
Definition sharp_toFile (webp : bool) (input : string) (cfg : config) (output : string)
  : M unit :=
  λ w, write_encoded output (sharp E webp input (width cfg) (quality cfg) (fs w)) w.

(** The line of the [catch] is [console.error(format, message)], as in the
    local optimizer: the two texts with a space between them, for a file
    name without a percent sign. *)
Definition optimizeWithSharp (inputPath outputDir filename : string) (cfg : config)
  : M Json.value :=
  let nameWithoutExt := Path.parse_name filename in
  let webpOutput := Path.join outputDir (nameWithoutExt +:+ suffix cfg +:+ ".webp") in
  let jpegOutput := Path.join outputDir (nameWithoutExt +:+ suffix cfg +:+ ".jpg") in
  try_catch
    (require_sharp;;
     sharp_toFile true inputPath cfg webpOutput;;
     sharp_toFile false inputPath cfg jpegOutput;;
     ret (Json.Obj [("webp", Json.Str webpOutput); ("jpeg", Json.Str jpegOutput)]))
    (λ message,
     console_error ("Error processing " +:+ filename +:+ " with Sharp: " +:+ message);;
     let fallbackOutput := Path.join outputDir filename in
     copyFileSync inputPath fallbackOutput;;
     ret (Json.Obj [("original", Json.Str fallbackOutput)])).

Definition updateHtmlForOptimizedImages (buildDir : string) (useOptimized : bool)
  : M unit :=
  let htmlPath := Path.join buildDir "index.html" in
  html <- readFileSync htmlPath;;
  let html := if useOptimized then Js.replace slide_regex picture_template html
              else html in
  writeFileSync htmlPath html.

Definition createHeadersFile (buildDir : string) : M unit :=
  writeFileSync (Path.join buildDir "_headers") headersContent.

(** [buildForCloudflare] once the build directory has been cleaned. *)
Definition build (buildDir sourceDir : string) : M unit :=
  mkdirSync buildDir;;
  console_log "Copying static files...";;
  copyFileSync (Path.join sourceDir "index.html") (Path.join buildDir "index.html");;
  let optimizedDir := Path.join buildDir "pages" in
  mkdirSync optimizedDir;;
  useSharp <-
    try_catch
      (require_sharp;;
       console_log "Using Sharp for image optimization...";;
       ret true)
      (λ _,
       console_log "Sharp not available, copying original images...";;
       ret false);;
  let pagesDir := Path.join sourceDir "pages" in
  files <- readdirSync pagesDir;;
  let imageFiles := filter (λ file, is_image file = true) files in
  console_log ("Processing " +:+ pretty (length imageFiles) +:+ " images...");;
  (if useSharp then
     forEach (λ filename,
                let inputPath := Path.join pagesDir filename in
                console_log ("Optimizing " +:+ filename +:+ "...");;
                forEach (λ entry : string * config,
                           optimizeWithSharp inputPath optimizedDir filename entry.2;;
                           ret tt)
                        configs)
             imageFiles
   else
     forEach (λ filename,
                let inputPath := Path.join pagesDir filename in
                let outputPath := Path.join optimizedDir filename in
                copyFileSync inputPath outputPath)
             imageFiles);;
  updateHtmlForOptimizedImages buildDir useSharp;;
  createHeadersFile buildDir;;
  console_log "Build complete! Deploy the ./dist directory to Cloudflare Pages.".

Definition buildForCloudflare : M unit :=
  console_log "Building for Cloudflare Pages...";;
  let buildDir := "./dist" in
  let sourceDir := "./flipbook-v2" in
  present <- existsSync buildDir;;
  (if present then rmSync buildDir else ret tt);;
  build buildDir sourceDir.

(** The script: [buildForCloudflare().catch(console.error)].  The handler
    is given the error itself, which [console.error] inspects. *)
Definition main : M unit :=
  try_catch buildForCloudflare (λ message, console_error (inspect E message)).

End Script.

End BuildCloudflare.

(** ** What the specification says, stated for comparison *)

Module Spec.

(** The fragment of [index.html] the rewrite looks for, as the
    specification spells it. *)
Definition slide_fragment : string :=
  "slide.innerHTML = `<div class=" +:+ Str.q "slide-inner" +:+ "><img src="
  +:+ Str.q "pages/page${i}.jpg" +:+ " /></div>`;".

(** A [<source>] candidate of a [<picture>] element. *)
Record source := {
  max_width : option N;
  srcset : string;
  mime : option string
}.

Definition render_source (s : source) : string :=
  "<source "
  +:+ match max_width s with
      | Some px => "media=" +:+ Str.q ("(max-width: " +:+ pretty px +:+ "px)") +:+ " "
      | None => ""
      end
  +:+ "srcset=" +:+ Str.q (srcset s)
  +:+ match mime s with
      | Some t => " type=" +:+ Str.q t
      | None => ""
      end
  +:+ ">".

(** The slide markup with a [<picture>] element holding [sources], in
    order, and a final [<img>]. *)
Definition render_picture (sources : list source) (img : string) : string :=
  Str.join_with Str.nl
    ([ "slide.innerHTML = `<div class=" +:+ Str.q "slide-inner" +:+ ">";
       "        <picture>" ]
     ++ map (λ s, "          " +:+ render_source s) sources
     ++ [ "          <img src=" +:+ Str.q img +:+ " />";
          "        </picture>";
          "      </div>`;" ]).

(** WebP for mobile, tablet and desktop, then JPEG for mobile and tablet;
    the desktop JPEG is the [<img>]. *)
Definition responsive_sources : list source :=
  [ {| max_width := Some 768%N;  srcset := "pages/page${i}-mobile.webp";
       mime := Some "image/webp" |};
    {| max_width := Some 1024%N; srcset := "pages/page${i}-tablet.webp";
       mime := Some "image/webp" |};
    {| max_width := None;        srcset := "pages/page${i}-desktop.webp";
       mime := Some "image/webp" |};
    {| max_width := Some 768%N;  srcset := "pages/page${i}-mobile.jpg";  mime := None |};
    {| max_width := Some 1024%N; srcset := "pages/page${i}-tablet.jpg";  mime := None |} ].

Definition picture_block : string :=
  render_picture responsive_sources "pages/page${i}-desktop.jpg".

(** [(original - optimized) / original * 100] rounded to one decimal
    place, the quotient taken exactly; a value halfway between two decimals
    goes to the one further from zero. *)
Definition rounded_percent (original optimized : N) : string :=
  let tenths := ((Z.of_N original - Z.of_N optimized) * 1000)%Z in
  let n := ((2 * Z.abs tenths + Z.of_N original) `div` (2 * Z.of_N original))%Z in
  (if (tenths <? 0)%Z && negb (n =? 0)%Z then "-" else "")
  +:+ Js.fixed_digits 1 (Z.to_N n).

(** [s] contains [pat]. *)
Definition occurs (pat s : string) : Prop :=
  ∃ before after, s = before +:+ pat +:+ after.

(** [s] contains [pat] right after [before], and nowhere earlier. *)
Definition first_occurrence (pat before after s : string) : Prop :=
  s = before +:+ pat +:+ after ∧
  ∀ before' after', s = before' +:+ pat +:+ after' →
                    String.length before ≤ String.length before'.

End Spec.

(** ** Specifications of computations *)

Module Hoare.
Import Sys.

(** Total correctness: from a state satisfying [P], [m] returns normally,
    with a value and a state satisfying [Q]. *)
Definition hoare {A} (P : world → Prop) (m : M A) (Q : A → world → Prop) : Prop :=
  ∀ w, P w → ∃ a w', m w = (Ok a, w') ∧ Q a w'.

(** However [m] ends, the file system it leaves is related by [R] to the one
    it started from. *)
Definition preserves {A : Type} (R : tree → tree → Prop) (m : M A) : Prop :=
  ∀ w, R (fs w) (fs (m w).2).

(** The outcome of [m] and the file system it leaves depend on the file
    system only, not on the console or on the shell history. *)
Definition fs_only {A} (m : M A) : Prop :=
  ∀ w1 w2, fs w1 = fs w2 → (m w1).1 = (m w2).1 ∧ fs (m w1).2 = fs (m w2).2.

End Hoare.

Module Inv.
Import Sys.

(** [t'] has the directories of [t], no others, and every node of [t]. *)
Definition extends (t t' : tree) : Prop :=
  ∀ k, (t !! k = Some Dir ↔ t' !! k = Some Dir) ∧ (is_Some (t !! k) → is_Some (t' !! k)).

(** [t'] has the regular files of [t], no others, and every directory of
    [t]. *)
Definition grows (t t' : tree) : Prop :=
  ∀ k, (∀ c, t !! k = Some (File c) ↔ t' !! k = Some (File c))
       ∧ (t !! k = Some Dir → t' !! k = Some Dir).

(** A manifest value of the form [{webp: path, jpeg: path}]. *)
Definition variants (r : Json.value) : Prop :=
  ∃ p q, r = Json.Obj [("webp", Json.Str p); ("jpeg", Json.Str q)].

(** Every file of the manifest maps preset names to [{webp, jpeg}] values. *)
Definition manifest_shape (results : list (string * Json.value)) : Prop :=
  ∀ file v, (file, v) ∈ results →
            ∃ entry, v = Json.Obj entry ∧ ∀ preset r, (preset, r) ∈ entry → variants r.

(** The line [optimizeImage] prints for a failed pair. *)
Definition failure_line (filename message : string) : line :=
  Err ("Error processing " +:+ filename +:+ ": " +:+ message).

(** The two paths of a command are plain: the shell hands them to
    ImageMagick as they are, and ImageMagick takes them for file names. *)
Definition plain_command (c : convert_cmd) : bool :=
  Str.plain (cmd_input c) && Str.plain (cmd_output c).

(** The two commands of a pair have plain paths. *)
Definition plain_pair (inputPath outputDir filename : string) (cfg : BuildImages.config)
  : bool :=
  plain_command (BuildImages.webp_command inputPath outputDir filename cfg)
  && plain_command (BuildImages.jpeg_command inputPath outputDir filename cfg).

(** The commands the local optimizer builds for [file], whatever the
    preset, have plain paths. *)
Definition plain_file (sourceDir outputBaseDir file : string) : bool :=
  forallb (λ entry : string * BuildImages.config,
             plain_pair (Path.join sourceDir file) (Path.join outputBaseDir entry.1)
               file entry.2)
          BuildImages.configs.

(** [existsSync(dir) || mkdirSync(dir, { recursive: true })] on the disk
    [t], when no regular file is in the way. *)
Definition make_dir (t : tree) (dir : list string) : tree :=
  match t !! dir with
  | Some _ => t
  | None => default t (mkdir_from [] dir t)
  end.

(** The disk once the directories of the presets exist below [out]. *)
Definition with_preset_dirs (out : list string) (t : tree) : tree :=
  foldl (λ t preset, make_dir t (out ++ [preset])) t BuildImages.configs.*1.

(** The images the local optimizer lists in [src]. *)
Definition listed_images (src : list string) (t : tree) : list string :=
  filter (λ file, is_image file = true) (entries src t).

(** A run of the local optimizer from the disk [t] builds commands with
    plain paths only. *)
Definition plain_run (sourceDir outputBaseDir : string) (t : tree) : bool :=
  forallb (plain_file sourceDir outputBaseDir)
    (listed_images (resolve sourceDir) (with_preset_dirs (resolve outputBaseDir) t)).

(** The part of a file system outside the build directory [dist]: what
    [fs.rmSync('./dist', { recursive: true })] leaves. *)
Definition outside_dist (t : tree) : tree :=
  filter (λ kv, ¬ below ["dist"] kv.1) t.

(** [t'] differs from [t] inside [dist] only, and still has [dist] if [t]
    had it. *)
Definition confined (t t' : tree) : Prop :=
  outside_dist t' = outside_dist t
  ∧ (is_Some (t !! ["dist"]) → is_Some (t' !! ["dist"])).

(** Nothing lies below a [dist] that does not exist. *)
Definition dist_parented (t : tree) : Prop :=
  ∀ k, below ["dist"] k → is_Some (t !! k) → is_Some (t !! ["dist"]).

End Inv.

(** ** Sample runs *)

Module Fixtures.
Import Sys.

Definition world_of (t : tree) : world := {| fs := t; console := []; shell := [] |}.

(** A source directory with one image, for the local optimizer. *)
Definition pages : tree :=
  list_to_map [ (["pages"], Dir); (["pages"; "a.jpg"], File "JPEG-A") ].

(** ImageMagick is installed and fails on every image. *)
Definition convert_fails : BuildImages.env :=
  {| BuildImages.convert_version_ok := true;
     BuildImages.convert := λ _ _, Exec_fail "convert: no decode delegate";
     BuildImages.dir_size := 4096;
     BuildImages.megabytes := λ n, pretty n +:+ "/1048576";
     BuildImages.percent := λ a b, "(" +:+ pretty a +:+ "-" +:+ pretty b +:+ ")/"
                                     +:+ pretty a +:+ "*100" |}.

(** ImageMagick writes WebP and fails on JPEG output. *)
Definition convert_webp_only : BuildImages.env :=
  {| BuildImages.convert_version_ok := true;
     BuildImages.convert :=
       λ c _, if cmd_format_webp c then Exec_ok "WEBP"
              else Exec_fail "convert: no encode delegate";
     BuildImages.dir_size := 4096;
     BuildImages.megabytes := BuildImages.megabytes convert_fails;
     BuildImages.percent := BuildImages.percent convert_fails |}.

Definition convert_works : BuildImages.env :=
  {| BuildImages.convert_version_ok := true;
     BuildImages.convert := λ c _, Exec_ok (if cmd_format_webp c then "WEBP" else "JPEG");
     BuildImages.dir_size := 4096;
     BuildImages.megabytes := BuildImages.megabytes convert_fails;
     BuildImages.percent := BuildImages.percent convert_fails |}.

(** The mobile presets of the two scripts. *)
Definition mobile_local : BuildImages.config :=
  {| BuildImages.width := 800; BuildImages.quality := 75; BuildImages.suffix := "-mobile" |}.

Definition mobile_pipeline : BuildCloudflare.config :=
  {| BuildCloudflare.width := 800; BuildCloudflare.quality := 75;
     BuildCloudflare.suffix := "-mobile" |}.

(** A page with the slide markup once, and one with it twice. *)
Definition page_once : string :=
  "<script>" +:+ Spec.slide_fragment +:+ "</script>".

Definition page_twice : string :=
  "<script>" +:+ Spec.slide_fragment +:+ "// " +:+ Spec.slide_fragment +:+ "</script>".

(** A page saved in Latin-1: the letter after [caf] is the single byte
    [E9]. *)
Definition latin1_page : string := "caf" +:+ String "233" "".

(** The site the packaging pipeline reads. *)
Definition site : tree :=
  list_to_map [ (["flipbook-v2"], Dir);
                (["flipbook-v2"; "index.html"], File page_once);
                (["flipbook-v2"; "pages"], Dir);
                (["flipbook-v2"; "pages"; "page1.jpg"], File "JPEG-1") ].

Definition sharp_works : BuildCloudflare.env :=
  {| BuildCloudflare.sharp_available := true;
     BuildCloudflare.sharp := λ webp _ _ _ _, Exec_ok (if webp then "WEBP" else "JPEG");
     BuildCloudflare.inspect := λ message, "Error: " +:+ message |}.

Definition sharp_fails : BuildCloudflare.env :=
  {| BuildCloudflare.sharp_available := true;
     BuildCloudflare.sharp :=
       λ _ _ _ _ _, Exec_fail "Input file contains unsupported image format";
     BuildCloudflare.inspect := BuildCloudflare.inspect sharp_works |}.

(** The site with a build directory left by an earlier build. *)
Definition stale_site : tree :=
  <[["dist"; "stale.txt"] := File "old"]> (<[["dist"] := Dir]> site).

(** A build directory holding a copy of [html] as its [index.html]. *)
Definition copied (html : string) : tree :=
  list_to_map [ (["dist"], Dir); (["dist"; "index.html"], File html) ].

End Fixtures.


(** ** Further notions: what a run keeps, reports and lays out *)

Module Layout.
Import Sys.

(** Under [out] lies everything the local optimizer writes.  [t'] keeps
    [t]: every path of [t] is still there, of the same kind, and a regular
    file that is not below [out] has its bytes. *)
Definition kept (out : list string) (t t' : tree) : Prop :=
  ∀ k, (t !! k = Some Dir → t' !! k = Some Dir)
       ∧ ∀ c, t !! k = Some (File c) →
              ∃ c', t' !! k = Some (File c') ∧ (¬ below out k → c' = c).

(** The size [fs.statSync] reports for a path. *)
Definition size_at (dir_size : N) (t : tree) (k : list string) : N :=
  match t !! k with
  | Some (File c) => N.of_nat (String.length c)
  | Some Dir => dir_size
  | None => 0
  end.

(** The sizes of the entries [names] of [dir], added up. *)
Definition sum_sizes (dir_size : N) (t : tree) (dir : list string) (names : list string)
  : N :=
  foldr (λ name acc, (size_at dir_size t (dir ++ [name]) + acc)%N) 0%N names.

(** The two totals of the size report: the images of the source directory,
    and everything the preset directories that exist hold. *)
Definition original_total (dir_size : N) (t : tree) (src : list string) : N :=
  sum_sizes dir_size t src (filter (λ file, is_image file = true) (entries src t)).

Definition optimized_total (dir_size : N) (t : tree) (out : list string) : N :=
  foldr (λ preset acc,
           ((match t !! (out ++ [preset]) with
             | Some Dir => sum_sizes dir_size t (out ++ [preset])
                             (entries (out ++ [preset]) t)
             | _ => 0
             end) + acc)%N)
        0%N BuildImages.configs.*1.

(** The lines of the size report for two totals. *)
Definition size_report (E : BuildImages.env) (original optimized : N) : list line :=
  [ Out (Str.nl +:+ "Size comparison:");
    Out ("Original total: " +:+ BuildImages.megabytes_text E original +:+ " MB");
    Out ("Optimized total: " +:+ BuildImages.megabytes_text E optimized +:+ " MB");
    Out ("Size reduction: " +:+ BuildImages.reduction_text E original optimized
         +:+ "%") ].

(** The value [optimizeImage] returns for a pair that succeeded. *)
Definition pair_paths (outputBaseDir file : string) (entry : string * BuildImages.config)
  : Json.value :=
  let dir := Path.join outputBaseDir entry.1 in
  let stem := Path.parse_name file in
  Json.Obj [ ("webp", Json.Str (Path.join dir
                                  (stem +:+ BuildImages.suffix entry.2 +:+ ".webp")));
             ("jpeg", Json.Str (Path.join dir
                                  (stem +:+ BuildImages.suffix entry.2 +:+ ".jpg"))) ].

(** The manifest of a run in which every conversion succeeded: every file,
    in order, with every preset, in order, and its two paths. *)
Definition full_entry (outputBaseDir file : string) : list (string * Json.value) :=
  map (λ entry : string * BuildImages.config,
         (entry.1, pair_paths outputBaseDir file entry))
      BuildImages.configs.

Definition full_manifest (outputBaseDir : string) (files : list string)
  : list (string * Json.value) :=
  map (λ file, (file, Json.Obj (full_entry outputBaseDir file))) files.

(** No directory lies directly inside a subdirectory of [out]. *)
Definition flat (out : list string) (t : tree) : Prop :=
  ∀ preset name, t !! (out ++ [preset; name]) ≠ Some Dir.

(** The images of the site, as the pipeline lists them. *)
Definition site_image (t : tree) (file : string) : Prop :=
  is_image file = true ∧ Path.valid_name file = true
  ∧ is_Some (t !! ["flipbook-v2"; "pages"; file]).

(** [t'] is the site [t] with a build in [dist] that copied the images:
    [dist] holds the page [html], the headers and a copy of every image of
    the site, and nothing else; outside [dist] nothing differs. *)
Definition copied_build (html : string) (t t' : tree) : Prop :=
  t' !! ["dist"] = Some Dir
  ∧ t' !! ["dist"; "pages"] = Some Dir
  ∧ t' !! ["dist"; "index.html"] = Some (File html)
  ∧ t' !! ["dist"; "_headers"] = Some (File BuildCloudflare.headersContent)
  ∧ (∀ file, site_image t file →
             t' !! ["dist"; "pages"; file] = t !! ["flipbook-v2"; "pages"; file])
  ∧ (∀ k, below ["dist"] k → is_Some (t' !! k) →
          k ∈ [["dist"]; ["dist"; "pages"]; ["dist"; "index.html"]; ["dist"; "_headers"]]
          ∨ ∃ file, site_image t file ∧ k = ["dist"; "pages"; file])
  ∧ ∀ k, ¬ below ["dist"] k → t' !! k = t !! k.

(** The name of a variant of [file]: [<stem><suffix><ext>]. *)
Definition variant_name (file : string) (cfg : BuildCloudflare.config) (ext : string)
  : string :=
  Path.parse_name file +:+ BuildCloudflare.suffix cfg +:+ ext.

(** [t'] is the site [t] with a build in [dist] that Sharp optimized:
    [dist] holds the page [html], the headers and, for every image of the
    site and every preset, a WebP and a JPEG variant, and nothing else;
    outside [dist] nothing differs. *)
Definition optimized_build (html : string) (t t' : tree) : Prop :=
  t' !! ["dist"] = Some Dir
  ∧ t' !! ["dist"; "pages"] = Some Dir
  ∧ t' !! ["dist"; "index.html"] = Some (File html)
  ∧ t' !! ["dist"; "_headers"] = Some (File BuildCloudflare.headersContent)
  ∧ (∀ file preset cfg ext,
       site_image t file → (preset, cfg) ∈ BuildCloudflare.configs →
       ext = ".webp" ∨ ext = ".jpg" →
       ∃ bytes, t' !! ["dist"; "pages"; variant_name file cfg ext] = Some (File bytes))
  ∧ (∀ k, below ["dist"] k → is_Some (t' !! k) →
          k ∈ [["dist"]; ["dist"; "pages"]; ["dist"; "index.html"]; ["dist"; "_headers"]]
          ∨ ∃ file preset cfg ext,
              site_image t file ∧ (preset, cfg) ∈ BuildCloudflare.configs
              ∧ (ext = ".webp" ∨ ext = ".jpg")
              ∧ k = ["dist"; "pages"; variant_name file cfg ext])
  ∧ ∀ k, ¬ below ["dist"] k → t' !! k = t !! k.

(** The node at [k] is the same in [t'] as in [t]. *)
Definition same_at (k : list string) (t t' : tree) : Prop := t' !! k = t !! k.

(** When [m] throws, the file system it leaves is related by [R] to the one
    it started from. *)
Definition on_throw {A : Type} (R : tree → tree → Prop) (m : M A) : Prop :=
  ∀ w message w', m w = (Throw message, w') → R (fs w) (fs w').

(** When [m] returns, the file system it leaves satisfies [Q]. *)
Definition on_return {A : Type} (Q : tree → Prop) (m : M A) : Prop :=
  ∀ w a w', m w = (Ok a, w') → Q (fs w').

(** A computation that never ends in [process.exit]. *)
Definition never_exits {A} (m : M A) : Prop :=
  ∀ w code, (m w).1 ≠ Exit code.

End Layout.

(** ** A run of the local optimizer, pair by pair *)

Module Trace.
Import Sys.

(** How the pair of a file and a preset goes: the WebP command fails and
    the disk stays as it is; or the WebP file is written and the JPEG
    command fails; or both files are written. *)
Inductive result :=
| Webp_failed (message : string)
| Jpeg_failed (t1 : tree) (message : string)
| Converted (t2 : tree).

Definition converted (r : result) : bool :=
  match r with
  | Converted _ => true
  | _ => false
  end.

(** The disk a pair leaves. *)
Definition disk_after (t : tree) (r : result) : tree :=
  match r with
  | Webp_failed _ => t
  | Jpeg_failed t1 _ => t1
  | Converted t2 => t2
  end.

Section Run.
Context (E : BuildImages.env) (sourceDir outputBaseDir : string).

(** The two commands of the pair of [file] and the preset [entry]. *)
Definition webp_of (file : string) (entry : string * BuildImages.config) : convert_cmd :=
  BuildImages.webp_command (Path.join sourceDir file) (Path.join outputBaseDir entry.1)
    file entry.2.

Definition jpeg_of (file : string) (entry : string * BuildImages.config) : convert_cmd :=
  BuildImages.jpeg_command (Path.join sourceDir file) (Path.join outputBaseDir entry.1)
    file entry.2.

(** The pair of [file] and [entry] on the disk [t]: what ImageMagick
    answers to the WebP command on [t] and, if it wrote its file, to the
    JPEG command on the disk with that file. *)
Definition attempt (file : string) (entry : string * BuildImages.config) (t : tree)
  : result :=
  match encoded (cmd_output (webp_of file entry))
          (BuildImages.convert E (webp_of file entry) t) t with
  | inl message => Webp_failed message
  | inr t1 =>
      match encoded (cmd_output (jpeg_of file entry))
              (BuildImages.convert E (jpeg_of file entry) t1) t1 with
      | inl message => Jpeg_failed t1 message
      | inr t2 => Converted t2
      end
  end.

(** The pairs of [file], preset by preset, each on the disk the one before
    it left, and the disk the last one leaves. *)
Fixpoint attempts (file : string) (presets : list (string * BuildImages.config))
    (t : tree) : list ((string * BuildImages.config) * result) * tree :=
  match presets with
  | [] => ([], t)
  | entry :: rest =>
      let r := attempt file entry t in
      let later := attempts file rest (disk_after t r) in
      ((entry, r) :: later.1, later.2)
  end.

(** A run over [files] from the disk [t]: every file, in order, with its
    pairs, and the disk at the end. *)
Fixpoint replay (files : list string) (t : tree)
  : list (string * list ((string * BuildImages.config) * result)) * tree :=
  match files with
  | [] => ([], t)
  | file :: rest =>
      let pairs := attempts file BuildImages.configs t in
      let later := replay rest pairs.2 in
      ((file, pairs.1) :: later.1, later.2)
  end.

(** The commands of a pair: the WebP command, and the JPEG command when the
    WebP command went through. *)
Definition commands_of (file : string) (pair : (string * BuildImages.config) * result)
  : list command :=
  match pair.2 with
  | Webp_failed _ => [Convert (webp_of file pair.1)]
  | _ => [Convert (webp_of file pair.1); Convert (jpeg_of file pair.1)]
  end.

(** The line a pair leaves on the error stream: one if it failed. *)
Definition errors_of (file : string) (pair : (string * BuildImages.config) * result)
  : list line :=
  match pair.2 with
  | Webp_failed message | Jpeg_failed _ message => [Inv.failure_line file message]
  | Converted _ => []
  end.

(** The manifest entry of a file: its converted pairs, each with its two
    paths. *)
Definition entry_of (file : string)
    (pairs : list ((string * BuildImages.config) * result))
  : list (string * Json.value) :=
  omap (λ pair : (string * BuildImages.config) * result,
          if converted pair.2
          then Some (pair.1.1, Layout.pair_paths outputBaseDir file pair.1)
          else None) pairs.

Definition manifest_of
    (run : list (string * list ((string * BuildImages.config) * result)))
  : list (string * Json.value) :=
  map (λ fr, (fr.1, Json.Obj (entry_of fr.1 fr.2))) run.

Definition commands (run : list (string * list ((string * BuildImages.config) * result)))
  : list command :=
  flat_map (λ fr, flat_map (commands_of fr.1) fr.2) run.

Definition errors (run : list (string * list ((string * BuildImages.config) * result)))
  : list line :=
  flat_map (λ fr, flat_map (errors_of fr.1) fr.2) run.

End Run.

(** The lines of a console that went to the error stream. *)
Definition is_error (l : line) : bool :=
  match l with
  | Err _ => true
  | Out _ => false
  end.

Definition error_lines (l : list line) : list line :=
  filter (λ l, is_error l = true) l.

End Trace.

(** ** The build of the packaging pipeline, stage by stage *)

Module Stages.
Import Sys.
Local Open Scope sys_scope.

Section Script.
Context (E : BuildCloudflare.env).

(** The loop over the images of [buildForCloudflare]: Sharp's variants, or
    plain copies. *)
Definition optimizeOrCopy (useSharp : bool) (imageFiles : list string) : M unit :=
  let pagesDir := Path.join "./flipbook-v2" "pages" in
  let optimizedDir := Path.join "./dist" "pages" in
  if useSharp then
    forEach (λ filename,
               let inputPath := Path.join pagesDir filename in
               console_log ("Optimizing " +:+ filename +:+ "...");;
               forEach (λ entry : string * BuildCloudflare.config,
                          BuildCloudflare.optimizeWithSharp E inputPath optimizedDir
                            filename entry.2;;
                          ret tt)
                       BuildCloudflare.configs)
            imageFiles
  else
    forEach (λ filename,
               let inputPath := Path.join pagesDir filename in
               let outputPath := Path.join optimizedDir filename in
               copyFileSync inputPath outputPath)
            imageFiles.

(** What [buildForCloudflare] does after the loop. *)
Definition finish (useSharp : bool) : M unit :=
  BuildCloudflare.updateHtmlForOptimizedImages "./dist" useSharp;;
  BuildCloudflare.createHeadersFile "./dist";;
  console_log "Build complete! Deploy the ./dist directory to Cloudflare Pages.".

End Script.

(** The build directory once the page is copied and [dist/pages] created. *)
Definition staged (html : string) (t : tree) : tree :=
  <[["dist"; "pages"] := Dir]>
    (<[["dist"; "index.html"] := File html]> (<[["dist"] := Dir]> t)).

(** [t] is [t3] with the images [seen] copied to [dist/pages]. *)
Definition copies_of (seen : list string) (t3 t : tree) : Prop :=
  (∀ k, (∀ file, file ∈ seen → k ≠ ["dist"; "pages"; file]) → t !! k = t3 !! k)
  ∧ ∀ file, file ∈ seen →
            t !! ["dist"; "pages"; file] = t3 !! ["flipbook-v2"; "pages"; file].

(** [t] is [t3] with, in [dist/pages], the two variants of every pair of an
    image and a preset that is [finished], and nothing else. *)
Definition variants_of (finished : string → BuildCloudflare.config → Prop)
    (t3 t : tree) : Prop :=
  (∀ k, (∀ name, k ≠ ["dist"; "pages"; name]) → t !! k = t3 !! k)
  ∧ (∀ file cfg ext,
       finished file cfg → ext = ".webp" ∨ ext = ".jpg" →
       ∃ bytes,
         t !! ["dist"; "pages"; Layout.variant_name file cfg ext] = Some (File bytes))
  ∧ ∀ name, is_Some (t !! ["dist"; "pages"; name]) →
            (∃ bytes, t !! ["dist"; "pages"; name] = Some (File bytes))
            ∧ ∃ file cfg ext,
                finished file cfg ∧ (ext = ".webp" ∨ ext = ".jpg")
                ∧ name = Layout.variant_name file cfg ext.

End Stages.

(** ** Further sample states *)

Module Cases.
Import Sys.

(** A source directory with no image in it. *)
Definition notes_only : tree :=
  list_to_map [ (["pages"], Dir); (["pages"; "notes.txt"], File "notes") ].

(** Two images with the same stem. *)
Definition same_stem : tree :=
  list_to_map [ (["pages"], Dir);
                (["pages"; "a.jpg"], File "JPEG-A");
                (["pages"; "a.png"], File "PNG-A");
                (["out"], Dir) ].

(** ImageMagick writes the bytes of its input, tagged with the format. *)
Definition convert_tags : BuildImages.env :=
  {| BuildImages.convert_version_ok := true;
     BuildImages.convert :=
       λ c t, match t !! resolve (cmd_input c) with
              | Some (File bytes) =>
                  Exec_ok ((if cmd_format_webp c then "WEBP:" else "JPEG:") +:+ bytes)
              | _ => Exec_fail "convert: unable to open image"
              end;
     BuildImages.dir_size := 4096;
     BuildImages.megabytes := λ n, pretty n +:+ "/1048576";
     BuildImages.percent := λ a b, "(" +:+ pretty a +:+ "-" +:+ pretty b +:+ ")/"
                                     +:+ pretty a +:+ "*100" |}.

(** Output directories of an earlier run: a variant and a file that no run
    of the script wrote. *)
Definition with_outputs : tree :=
  list_to_map [ (["pages"], Dir);
                (["pages"; "a.jpg"], File "JPEG-A");
                (["pages"; "notes.txt"], File "notes");
                (["optimized-images"], Dir);
                (["optimized-images"; "mobile"], Dir);
                (["optimized-images"; "mobile"; "a-mobile.webp"], File "WEBP");
                (["optimized-images"; "mobile"; "old.bin"], File "123") ].

(** A regular file where the source directory is expected. *)
Definition pages_is_file : tree :=
  list_to_map [ (["pages"], File "not a directory") ].

(** ImageMagick is not installed. *)
Definition no_convert : BuildImages.env :=
  {| BuildImages.convert_version_ok := false;
     BuildImages.convert := λ _ _, Exec_fail "convert: command not found";
     BuildImages.dir_size := 4096;
     BuildImages.megabytes := BuildImages.megabytes convert_tags;
     BuildImages.percent := BuildImages.percent convert_tags |}.

(** A source directory with one image of 2000 bytes. *)
Definition one_large_image : tree :=
  list_to_map [ (["pages"], Dir); (["pages"; "a.jpg"], File (Str.copies 2000 "x")) ].

(** ImageMagick writes 1990 bytes for the mobile WebP file and one byte for
    every other file, 1997 bytes in all for an image. *)
Definition convert_sized : BuildImages.env :=
  {| BuildImages.convert_version_ok := true;
     BuildImages.convert :=
       λ c _, Exec_ok (Str.copies (if cmd_format_webp c && (cmd_width c =? 800)%N
                                   then 1990 else 1) "w");
     BuildImages.dir_size := 4096;
     BuildImages.megabytes := BuildImages.megabytes convert_tags;
     BuildImages.percent := BuildImages.percent convert_tags |}.

(** Sharp is not installed. *)
Definition no_sharp : BuildCloudflare.env :=
  {| BuildCloudflare.sharp_available := false;
     BuildCloudflare.sharp := λ _ _ _ _ _, Exec_fail "unreachable";
     BuildCloudflare.inspect := BuildCloudflare.inspect Fixtures.sharp_works |}.

(** Sharp writes WebP and fails on JPEG output. *)
Definition sharp_webp_only : BuildCloudflare.env :=
  {| BuildCloudflare.sharp_available := true;
     BuildCloudflare.sharp :=
       λ webp _ _ _ _, if webp then Exec_ok "WEBP"
                       else Exec_fail "jpeg: unsupported";
     BuildCloudflare.inspect := BuildCloudflare.inspect Fixtures.sharp_works |}.

(** A site without its page. *)
Definition pageless_site : tree :=
  list_to_map [ (["flipbook-v2"], Dir);
                (["flipbook-v2"; "pages"], Dir);
                (["flipbook-v2"; "pages"; "page1.jpg"], File "JPEG-1");
                (["dist"], Dir);
                (["dist"; "index.html"], File "previous build") ].

End Cases.
(** * Facts *)

(** ** Strings *)

Section Strings.

Lemma append_nil_l (s : string) : "" +:+ s = s.
Proof. reflexivity. Qed.

Lemma append_cons (c : ascii) (a b : string) : String c a +:+ b = String c (a +:+ b).
Proof. reflexivity. Qed.

Lemma append_nil_r (s : string) : s +:+ "" = s.
Proof. induction s as [|c s IH]; [done | by rewrite append_cons, IH]. Qed.

Lemma append_assoc (a b c : string) : (a +:+ b) +:+ c = a +:+ b +:+ c.
Proof. induction a as [|x a IH]; [done | by rewrite !append_cons, IH]. Qed.

Lemma length_append (a b : string) :
  String.length (a +:+ b) = String.length a + String.length b.
Proof. induction a as [|x a IH]; [done | by rewrite append_cons; simpl; rewrite IH]. Qed.

Lemma append_inv_head (a b c : string) : a +:+ b = a +:+ c → b = c.
Proof.
  induction a as [|x a IH]; [done |]. rewrite !append_cons. intros [= H]. auto.
Qed.

(** Two ways of cutting one string: the shorter head is a prefix of the
    longer one. *)
Lemma append_eq_append (a b c d : string) :
  a +:+ b = c +:+ d → String.length a ≤ String.length c →
  ∃ m, c = a +:+ m ∧ b = m +:+ d.
Proof.
  revert c. induction a as [|x a IH]; intros c H Hlen.
  - by exists c.
  - destruct c as [|y c]; simpl in Hlen; [lia |].
    rewrite !append_cons in H. injection H as -> H.
    destruct (IH c H) as (m & -> & ->); [lia |]. by exists m.
Qed.

Lemma strip_prefix_Some (p s r : string) :
  Str.strip_prefix p s = Some r ↔ s = p +:+ r.
Proof.
  revert s. induction p as [|a p IH]; intros s; simpl.
  - split; [by intros [= ->] | by intros ->].
  - rewrite append_cons. destruct s as [|b s]; [split; discriminate |].
    destruct (Ascii.eqb_spec a b) as [->|Hne].
    + rewrite IH. split; [by intros -> | by intros [= ->]].
    + split; [discriminate | intros [= -> _]; done].
Qed.

Lemma strip_prefix_None (p s : string) :
  Str.strip_prefix p s = None ↔ ∀ r, s ≠ p +:+ r.
Proof.
  split.
  - intros H r Hr. apply strip_prefix_Some in Hr. congruence.
  - intros H. destruct (Str.strip_prefix p s) as [r|] eqn:Hr; [|done].
    apply strip_prefix_Some in Hr. by destruct (H r).
Qed.

(** [Js.search] finds the first occurrence. *)
Lemma search_Some (pat s before after : string) :
  Js.search pat s = Some (before, after) →
  Spec.first_occurrence pat before after s.
Proof.
  revert before. induction s as [|c s IH]; intros before; simpl.
  - destruct (Str.strip_prefix pat "") as [r|] eqn:Hp; [|discriminate].
    intros [= <- <-]. apply strip_prefix_Some in Hp.
    split; [done | intros; simpl; lia].
  - destruct (Str.strip_prefix pat (String c s)) as [r|] eqn:Hp.
    + intros [= <- <-]. apply strip_prefix_Some in Hp.
      split; [done | intros; simpl; lia].
    + destruct (Js.search pat s) as [[b a]|] eqn:Hs; [|discriminate].
      intros [= <- <-]. destruct (IH b eq_refl) as [-> Hmin].
      split; [done |].
      intros [|c' b'] a' Heq.
      * rewrite strip_prefix_None in Hp. by destruct (Hp a').
      * rewrite append_cons in Heq. injection Heq as _ Heq.
        specialize (Hmin b' a' Heq). simpl. lia.
Qed.

Lemma search_None (pat s : string) :
  Js.search pat s = None → ¬ Spec.occurs pat s.
Proof.
  induction s as [|c s IH]; simpl.
  - destruct (Str.strip_prefix pat "") as [r|] eqn:Hp; [discriminate |].
    intros _ ([|c b] & a & Heq); [|discriminate].
    rewrite strip_prefix_None in Hp. by destruct (Hp a).
  - destruct (Str.strip_prefix pat (String c s)) as [r|] eqn:Hp; [discriminate |].
    destruct (Js.search pat s) as [[b a]|] eqn:Hs; [discriminate |].
    intros _ ([|c' b'] & a' & Heq).
    + rewrite strip_prefix_None in Hp. by destruct (Hp a').
    + rewrite append_cons in Heq. injection Heq as _ Heq.
      apply IH; [done |]. by exists b', a'.
Qed.

(** The first occurrence is unique. *)
Lemma first_occurrence_unique (pat b1 a1 b2 a2 s : string) :
  Spec.first_occurrence pat b1 a1 s → Spec.first_occurrence pat b2 a2 s →
  b1 = b2 ∧ a1 = a2.
Proof.
  intros [H1 M1] [H2 M2].
  pose proof (M1 _ _ H2). pose proof (M2 _ _ H1).
  rewrite H1 in H2.
  destruct (append_eq_append _ _ _ _ H2) as (m & -> & Hm); [lia |].
  rewrite length_append in *.
  destruct m; simpl in *; [|lia].
  rewrite append_nil_r. split; [done |]. by eapply append_inv_head.
Qed.

Lemma occurs_first (pat html : string) :
  Spec.occurs pat html → ∃ before after, Spec.first_occurrence pat before after html.
Proof.
  intros Hocc. destruct (Js.search pat html) as [[b a]|] eqn:Hs.
  - exists b, a. by apply search_Some.
  - by apply search_None in Hs.
Qed.

Lemma suffix_of_append (u m : string) :
  u ≠ "" → m ∈ Str.proper_suffixes (u +:+ m).
Proof.
  induction u as [|c u IH]; [done |]. intros _. rewrite append_cons. simpl.
  destruct u as [|c' u]; [left |]. right. by apply IH.
Qed.

(** Two occurrences of a border-free pattern do not overlap. *)
Lemma border_free_no_overlap (p u x y : string) :
  Str.border_free p = true →
  p +:+ x = u +:+ p +:+ y →
  u = "" ∨ String.length p ≤ String.length u.
Proof.
  intros Hfree Heq.
  destruct (decide (u = "")) as [|Hu]; [by left | right].
  destruct (decide (String.length p ≤ String.length u)) as [|Hlt]; [done | exfalso].
  symmetry in Heq.
  destruct (append_eq_append _ _ _ _ Heq) as (m & Hp & Hm); [lia |].
  symmetry in Hm.
  assert (String.length m ≤ String.length p) as Hlen.
  { rewrite Hp, length_append. lia. }
  destruct (append_eq_append _ _ _ _ Hm Hlen) as (m' & Hp' & _).
  unfold Str.border_free in Hfree. rewrite forallb_forall in Hfree.
  assert (m ∈ Str.proper_suffixes p) as Hin.
  { rewrite Hp at 1. by apply suffix_of_append. }
  apply list_elem_of_In, Hfree in Hin.
  apply orb_true_iff in Hin as [Hempty | Hstart].
  - apply String.eqb_eq in Hempty. subst m.
    rewrite append_nil_r in Hp. rewrite Hp in Hlt at 1. lia.
  - unfold Str.starts_with in Hstart.
    destruct (Str.strip_prefix m p) eqn:Hs; [done |].
    rewrite strip_prefix_None in Hs. by destruct (Hs m').
Qed.

End Strings.

(** ** Paths *)

Section Paths.
Import Path.

Lemma valid_name_spec (n : string) :
  valid_name n = true ↔ n ≠ "" ∧ n ≠ "." ∧ n ≠ ".." ∧ slash_free n.
Proof.
  unfold valid_name, slash_free.
  rewrite !andb_true_iff, !negb_true_iff, !String.eqb_neq. tauto.
Qed.

Lemma split_slash_nonempty (s : string) : split_slash s ≠ [].
Proof.
  induction s as [|c s IH]; simpl; [done |].
  destruct (Ascii.eqb c "/"); [done |]. by destruct (split_slash s).
Qed.

Lemma split_slash_append (a b : string) :
  split_slash (a +:+ "/" +:+ b) = split_slash a ++ split_slash b.
Proof.
  induction a as [|c a IH]; [reflexivity |].
  rewrite append_cons. simpl. rewrite IH.
  destruct (Ascii.eqb c "/"); [done |].
  pose proof (split_slash_nonempty a). by destruct (split_slash a).
Qed.

Lemma split_slash_free (s : string) : slash_free s → split_slash s = [s].
Proof.
  unfold slash_free. induction s as [|c s IH]; simpl; [done |].
  destruct (Ascii.eqb_spec c "/") as [->|Hne]; simpl; [done |].
  intros H. apply orb_false_iff in H as [_ H]. by rewrite IH.
Qed.

Lemma split_slash_all_free (s : string) : Forall slash_free (split_slash s).
Proof.
  induction s as [|c s IH]; simpl; [by repeat constructor |].
  destruct (Ascii.eqb c "/") eqn:Hc; [by constructor |].
  pose proof (split_slash_nonempty s).
  destruct (split_slash s) as [|h t]; [done |].
  apply Forall_cons in IH as [Hh Ht]. constructor; [|done].
  unfold slash_free in *. cbn [Str.contains_char]. by rewrite Ascii.eqb_sym, Hc.
Qed.

Lemma push_valid (allow : bool) (stack : list string) (n : string) :
  valid_name n = true → push_segment allow stack n = n :: stack.
Proof.
  rewrite valid_name_spec. intros (H1 & H2 & H3 & _). unfold push_segment.
  apply String.eqb_neq in H1, H2, H3. by rewrite H1, H2, H3.
Qed.

Lemma canonical_nil (allow : bool) : canonical allow [].
Proof. exists 0, []. split; [reflexivity |]. split; [done | constructor]. Qed.

Lemma replicate_snoc (k : nat) (x : string) :
  replicate k x ++ [x] = x :: replicate k x.
Proof. induction k as [|k IH]; simpl; [done | by rewrite IH]. Qed.

Lemma push_canonical (allow : bool) (stack : list string) (seg : string) :
  slash_free seg →
  canonical allow (reverse stack) →
  canonical allow (reverse (push_segment allow stack seg)).
Proof.
  intros Hfree (k & names & Hst & Hk & Hnames). unfold push_segment.
  destruct (String.eqb_spec seg "") as [|H1]; [by exists k, names |].
  destruct (String.eqb_spec seg ".") as [|H2]; [by exists k, names |]. simpl.
  destruct (String.eqb_spec seg "..") as [->|H3].
  - destruct stack as [|top below].
    + destruct allow; [|apply canonical_nil].
      exists 1, []. split; [reflexivity |]. split; [done | constructor].
    + destruct (String.eqb_spec top "..") as [->|Htop].
      * destruct allow; [|by exists k, names].
        rewrite reverse_cons, Hst. rewrite reverse_cons in Hst.
        destruct names as [|n names _] using rev_ind.
        -- exists (S k), []. rewrite !app_nil_r.
           split; [by rewrite replicate_snoc |]. split; [done | constructor].
        -- rewrite app_assoc in Hst. apply app_inj_tail in Hst as [_ <-].
           apply Forall_app in Hnames as [_ Hn]. apply Forall_inv in Hn.
           vm_compute in Hn. discriminate Hn.
      * rewrite reverse_cons in Hst.
        destruct names as [|n names _] using rev_ind.
        -- rewrite app_nil_r in Hst. destruct k as [|k].
           ++ by destruct (reverse below).
           ++ change (replicate (S k) "..") with (".." :: replicate k "..") in Hst.
              rewrite <- replicate_snoc in Hst.
              by apply app_inj_tail in Hst as [_ ->].
        -- rewrite app_assoc in Hst. apply app_inj_tail in Hst as [-> _].
           apply Forall_app in Hnames as [Hnames _]. by exists k, names.
  - exists k, (names ++ [seg]). rewrite reverse_cons, Hst, app_assoc.
    split; [done |]. split; [done |].
    apply Forall_app. split; [done |]. apply Forall_singleton.
    by apply valid_name_spec.
Qed.

Lemma foldl_push_canonical (allow : bool) (segs stack : list string) :
  Forall slash_free segs →
  canonical allow (reverse stack) →
  canonical allow (reverse (foldl (push_segment allow) stack segs)).
Proof.
  revert stack. induction segs as [|seg segs IH]; intros stack Hfree Hst; [done |].
  apply Forall_cons in Hfree as [Hseg Hfree]. simpl.
  apply IH; [done |]. by apply push_canonical.
Qed.

Lemma normalize_segments_canonical (allow : bool) (s : string) :
  canonical allow (normalize_segments allow (split_slash s)).
Proof.
  apply foldl_push_canonical; [apply split_slash_all_free | apply canonical_nil].
Qed.

Lemma foldl_push_dots (j k : nat) :
  foldl (push_segment true) (replicate j "..") (replicate k "..")
  = replicate (j + k) "..".
Proof.
  revert j. induction k as [|k IH]; intros j; simpl.
  - by rewrite Nat.add_0_r.
  - replace (push_segment true (replicate j "..") "..") with (replicate (S j) "..").
    + rewrite IH. f_equal. lia.
    + by destruct j.
Qed.

Lemma foldl_push_names (allow : bool) (names stack : list string) :
  Forall (λ n, valid_name n = true) names →
  foldl (push_segment allow) stack names = reverse names ++ stack.
Proof.
  revert stack. induction names as [|n names IH]; intros stack Hn; [done |].
  apply Forall_cons in Hn as [Hn Hnames]. simpl.
  rewrite push_valid, IH, reverse_cons by done. by rewrite <- app_assoc.
Qed.

(** Normalization leaves a normalized list as it is. *)
Lemma normalize_segments_stable (allow : bool) (segs : list string) :
  canonical allow segs → normalize_segments allow segs = segs.
Proof.
  intros (k & names & -> & Hk & Hnames). unfold normalize_segments.
  rewrite foldl_app.
  assert (foldl (push_segment allow) [] (replicate k "..") = replicate k "..") as ->.
  { destruct allow; [apply (foldl_push_dots 0) | by rewrite Hk]. }
  rewrite foldl_push_names by done.
  by rewrite reverse_app, reverse_involutive, reverse_replicate.
Qed.

Lemma canonical_segments (allow : bool) (segs : list string) :
  canonical allow segs → Forall (λ s, s ≠ "" ∧ slash_free s) segs.
Proof.
  intros (k & names & -> & _ & Hnames). apply Forall_app. split.
  - apply Forall_replicate. by split.
  - eapply Forall_impl; [done |]. intros n Hn.
    apply valid_name_spec in Hn. tauto.
Qed.

Lemma join_slash_cons (x : string) (rest : list string) :
  join_slash (x :: rest)
  = match rest with [] => x | _ => x +:+ "/" +:+ join_slash rest end.
Proof. by destruct rest. Qed.

Lemma split_join_slash (segs : list string) :
  Forall slash_free segs → segs ≠ [] → split_slash (join_slash segs) = segs.
Proof.
  induction segs as [|x rest IH]; [done |]. intros Hfree _.
  apply Forall_cons in Hfree as [Hx Hrest]. rewrite join_slash_cons.
  destruct rest as [|y rest]; [by apply split_slash_free |].
  rewrite split_slash_append, split_slash_free, IH by done. done.
Qed.

Lemma starts_with_cons (c d : ascii) (s : string) :
  Str.starts_with (String c "") (String d s) = Ascii.eqb c d.
Proof. unfold Str.starts_with. simpl. by destruct (Ascii.eqb c d). Qed.

Lemma is_absolute_append (a b : string) :
  a ≠ "" → is_absolute (a +:+ b) = is_absolute a.
Proof.
  destruct a as [|c a]; [done |]. intros _. unfold is_absolute.
  by rewrite append_cons, !starts_with_cons.
Qed.

Lemma is_absolute_slash_free (s : string) : slash_free s → is_absolute s = false.
Proof.
  destruct s as [|c s]; [done |]. unfold slash_free, is_absolute.
  rewrite starts_with_cons. cbn [Str.contains_char]. by intros [? _]%orb_false_iff.
Qed.

Lemma join_slash_nonempty (x : string) (rest : list string) :
  x ≠ "" → join_slash (x :: rest) ≠ "".
Proof.
  intros Hx. rewrite join_slash_cons.
  destruct x as [|c x]; [done |]. destruct rest; [done |]. by rewrite append_cons.
Qed.

Lemma is_absolute_join_slash (x : string) (rest : list string) :
  x ≠ "" → slash_free x → is_absolute (join_slash (x :: rest)) = false.
Proof.
  intros Hx Hfree. rewrite join_slash_cons. destruct rest.
  - by apply is_absolute_slash_free.
  - rewrite is_absolute_append by done. by apply is_absolute_slash_free.
Qed.

End Paths.

Section Resolve.
Import Path Sys.

Lemma resolve_unfold (p : string) :
  resolve p
  = (if is_absolute p then ["/"] else [])
    ++ normalize_segments (negb (is_absolute p)) (split_slash p).
Proof. unfold resolve. by destruct (is_absolute p). Qed.

Lemma normalize_segments_skip_l (allow : bool) (segs : list string) :
  normalize_segments allow ("" :: segs) = normalize_segments allow segs.
Proof. done. Qed.

Lemma normalize_segments_skip_r (allow : bool) (segs : list string) :
  normalize_segments allow (segs ++ [""]) = normalize_segments allow segs.
Proof. unfold normalize_segments. by rewrite foldl_app. Qed.

(** A path and its normal form name the same node. *)
Lemma resolve_normalize (p : string) : resolve (normalize p) = resolve p.
Proof.
  unfold normalize.
  destruct (String.eqb_spec p "") as [->|Hp]; [done |].
  rewrite (resolve_unfold p).
  pose proof (normalize_segments_canonical (negb (is_absolute p)) p) as Hcan.
  pose proof (canonical_segments _ _ Hcan) as Hsegs.
  destruct (normalize_segments (negb (is_absolute p)) (split_slash p))
    as [|x rest] eqn:Hnorm.
  { simpl. by destruct (is_absolute p), (Str.ends_with "/" p). }
  apply Forall_cons in Hsegs as [[Hx Hxfree] Hrest].
  assert (Forall slash_free (x :: rest)) as Hfree.
  { constructor; [done |]. eapply Forall_impl; [done |]. by intros ? [_ ?]. }
  pose proof (join_slash_nonempty x rest Hx) as Hbody.
  apply String.eqb_neq in Hbody. rewrite Hbody.
  set (body := join_slash (x :: rest)) in *.
  assert (split_slash body = x :: rest) as Hsplit by by apply split_join_slash.
  assert (is_absolute body = false) as Habs by by apply is_absolute_join_slash.
  assert (body ≠ "") as Hne by by apply String.eqb_neq.
  assert (∀ post, post = "" ∨ post = "/" →
            normalize_segments (negb (is_absolute p)) (split_slash (body +:+ post))
            = x :: rest) as Hpost.
  { intros post [-> | ->].
    - by rewrite append_nil_r, Hsplit, (normalize_segments_stable _ _ Hcan).
    - change (body +:+ "/") with (body +:+ "/" +:+ "").
      rewrite (split_slash_append body ""), Hsplit. cbn [split_slash].
      by rewrite normalize_segments_skip_r, (normalize_segments_stable _ _ Hcan). }
  set (post := if Str.ends_with "/" p then "/" else "").
  assert (post = "" ∨ post = "/") as Hcases.
  { unfold post. destruct (Str.ends_with "/" p); auto. }
  rewrite resolve_unfold. destruct (is_absolute p) eqn:Hpabs.
  - rewrite append_cons, append_nil_l.
    change (is_absolute (String "/" (body +:+ post))) with true.
    change (split_slash (String "/" (body +:+ post)))
      with ("" :: split_slash (body +:+ post)).
    by rewrite normalize_segments_skip_l, Hpost.
  - rewrite append_nil_l, is_absolute_append, Habs by done. by rewrite Hpost.
Qed.

(** Joining a directory and a name gives the node of that name in that
    directory. *)
Lemma resolve_join (dir name : string) :
  valid_name name = true → resolve (join dir name) = resolve dir ++ [name].
Proof.
  intros Hvalid. pose proof Hvalid as (Hne & _ & _ & Hfree)%valid_name_spec.
  unfold join. apply String.eqb_neq in Hne as Hne'. rewrite Hne'.
  destruct (String.eqb_spec dir "") as [->|Hdir]; rewrite resolve_normalize.
  - unfold resolve. rewrite is_absolute_slash_free, split_slash_free by done.
    unfold normalize_segments. simpl. by rewrite push_valid.
  - rewrite !resolve_unfold, is_absolute_append, split_slash_append by done.
    rewrite (split_slash_free name) by done. unfold normalize_segments.
    rewrite foldl_app. simpl. rewrite push_valid, reverse_cons by done.
    by rewrite app_assoc.
Qed.

End Resolve.

(** ** The rewrite of [index.html] *)

Section Decoding.
Import Utf8.

(** What the decoder takes for a scalar value is the head of the text. *)
Lemma parse_scalar (b : ascii) (rest bytes rest' : string) :
  parse b rest = Scalar bytes rest' → String b rest = bytes +:+ rest'.
Proof.
  unfold parse. intros H.
  repeat (first [ discriminate H
                | injection H as <- <-; reflexivity
                | match type of H with
                  | context [match ?x with _ => _ end] => destruct x
                  end ]).
Qed.

Lemma scrub_from_well_formed (fuel : nat) (s : string) :
  well_formed_from fuel s = true → scrub_from fuel s = s.
Proof.
  revert s. induction fuel as [|fuel IH]; intros [|b rest]; try done.
  cbn [well_formed_from scrub_from].
  destruct (parse b rest) as [bytes rest'|rest'] eqn:Hparse; [|done].
  intros Hrest. by rewrite (IH _ Hrest), (parse_scalar _ _ _ _ Hparse).
Qed.

(** Decoding well-formed UTF-8 and encoding it again gives the same
    bytes. *)
Lemma scrub_well_formed (s : string) : well_formed s = true → scrub s = s.
Proof. apply scrub_from_well_formed. Qed.

End Decoding.

Section HtmlRewrite.
Import Sys.

Lemma slide_regex_literal :
  Js.pattern_chars BuildCloudflare.slide_regex = Some Spec.slide_fragment.
Proof. reflexivity. Qed.

(** The replacement text holds no [$$], [$&], [$`] or [$']: it is inserted
    as it stands. *)
Lemma picture_template_verbatim (matched before after : string) :
  Js.get_substitution matched before after BuildCloudflare.picture_template
  = BuildCloudflare.picture_template.
Proof. reflexivity. Qed.

Lemma picture_template_block : BuildCloudflare.picture_template = Spec.picture_block.
Proof. reflexivity. Qed.

Lemma replace_first (html before after : string) :
  Spec.first_occurrence Spec.slide_fragment before after html →
  Js.replace BuildCloudflare.slide_regex BuildCloudflare.picture_template html
  = before +:+ Spec.picture_block +:+ after.
Proof.
  intros Hfirst. unfold Js.replace. rewrite slide_regex_literal.
  destruct (Js.search Spec.slide_fragment html) as [[b a]|] eqn:Hs.
  - apply search_Some in Hs.
    destruct (first_occurrence_unique _ _ _ _ _ _ Hs Hfirst) as [-> ->].
    by rewrite picture_template_verbatim, picture_template_block.
  - apply search_None in Hs. destruct Hs, Hfirst as [-> _]. by exists before, after.
Qed.

Lemma replace_absent (html : string) :
  ¬ Spec.occurs Spec.slide_fragment html →
  Js.replace BuildCloudflare.slide_regex BuildCloudflare.picture_template html = html.
Proof.
  intros Habsent. unfold Js.replace. rewrite slide_regex_literal.
  destruct (Js.search Spec.slide_fragment html) as [[b a]|] eqn:Hs; [|done].
  apply search_Some in Hs as [-> _]. destruct Habsent. by exists b, a.
Qed.

Lemma slide_fragment_border_free : Str.border_free Spec.slide_fragment = true.
Proof. reflexivity. Qed.

Lemma resolve_dist_index :
  resolve (Path.join "./dist" "index.html") = ["dist"; "index.html"].
Proof. reflexivity. Qed.

Lemma updateHtml_run (w : world) (html : string) (useOptimized : bool) :
  fs w !! ["dist"; "index.html"] = Some (File html) →
  BuildCloudflare.updateHtmlForOptimizedImages "./dist" useOptimized w
  = (Ok tt,
     set_fs (<[["dist"; "index.html"] :=
                 File (if useOptimized
                       then Js.replace BuildCloudflare.slide_regex
                              BuildCloudflare.picture_template (Utf8.scrub html)
                       else Utf8.scrub html)]> (fs w)) w).
Proof.
  intros Hfile.
  unfold BuildCloudflare.updateHtmlForOptimizedImages, bind, readFileSync, writeFileSync.
  rewrite resolve_dist_index, Hfile. simpl. by rewrite Hfile.
Qed.

End HtmlRewrite.

(** A page in Latin-1: [caf] and the byte [E9], which is no UTF-8. *)
Lemma latin1_page_ill_formed :
  Utf8.well_formed Fixtures.latin1_page = false
  ∧ ¬ Spec.occurs Spec.slide_fragment Fixtures.latin1_page.
Proof. split; [reflexivity |]. apply search_None. reflexivity. Qed.



(** C10.  The rewrite of a page of well-formed UTF-8 replaces the first
    occurrence of the fragment only: every later occurrence lies in the text
    after the first one, which is written back as it was. *)
Theorem html_rewrite_first_only (w : Sys.world) (html before after : string) :
  Sys.fs w !! ["dist"; "index.html"] = Some (File html) →
  Utf8.well_formed html = true →
  Spec.first_occurrence Spec.slide_fragment before after html →
  BuildCloudflare.updateHtmlForOptimizedImages "./dist" true w
  = (Ok tt,
     Sys.set_fs (<[["dist"; "index.html"] :=
                     File (before +:+ Spec.picture_block +:+ after)]> (Sys.fs w)) w)
  ∧ ∀ before2 after2,
      html = before2 +:+ Spec.slide_fragment +:+ after2 →
      String.length before < String.length before2 →
      ∃ between,
        before2 = before +:+ Spec.slide_fragment +:+ between
        ∧ after = between +:+ Spec.slide_fragment +:+ after2
        ∧ before +:+ Spec.picture_block +:+ after
          = (before +:+ Spec.picture_block +:+ between)
            +:+ Spec.slide_fragment +:+ after2.
Proof.
  intros Hfile Htext Hfirst. split.
  - rewrite (updateHtml_run _ _ _ Hfile), (scrub_well_formed _ Htext).
    by rewrite (replace_first _ _ _ Hfirst).
  - intros before2 after2 Heq Hlt. destruct Hfirst as [Hhtml _].
    rewrite Hhtml in Heq.
    destruct (append_eq_append _ _ _ _ Heq) as (u & -> & Hu); [lia |].
    destruct (border_free_no_overlap _ _ _ _ slide_fragment_border_free Hu)
      as [-> | Hlen].
    { rewrite length_append in Hlt. simpl in Hlt. lia. }
    destruct (append_eq_append _ _ _ _ Hu Hlen) as (between & -> & ->).
    exists between. split; [done |]. split; [done |].
    by rewrite !append_assoc.
Qed.


Lemma html_rewrite_first_only_witness :
  Utf8.well_formed Fixtures.page_twice = true
  ∧ Spec.first_occurrence Spec.slide_fragment "<script>"
      ("// " +:+ Spec.slide_fragment +:+ "</script>") Fixtures.page_twice
  ∧ BuildCloudflare.updateHtmlForOptimizedImages "./dist" true
      (Fixtures.world_of (Fixtures.copied Fixtures.page_twice))
    = (Ok tt,
       Sys.set_fs
         (<[["dist"; "index.html"] :=
              File ("<script>" +:+ Spec.picture_block
                    +:+ "// " +:+ Spec.slide_fragment +:+ "</script>")]>
            (Fixtures.copied Fixtures.page_twice))
         (Fixtures.world_of (Fixtures.copied Fixtures.page_twice))).
Proof.
  assert (Spec.first_occurrence Spec.slide_fragment "<script>"
            ("// " +:+ Spec.slide_fragment +:+ "</script>") Fixtures.page_twice) as Hfirst.
  { apply search_Some. vm_compute. reflexivity. }
  split; [reflexivity |]. split; [exact Hfirst |].
  apply (html_rewrite_first_only
           (Fixtures.world_of (Fixtures.copied Fixtures.page_twice))
           Fixtures.page_twice "<script>"
           ("// " +:+ Spec.slide_fragment +:+ "</script>"));
    [reflexivity | reflexivity | exact Hfirst].
Defined.

(** ** The preset catalogs *)

(** C7.  The preset catalogs are fixed: the local optimizer has mobile
    (800, 75), tablet (1200, 80), desktop (1920, 85) and thumbnail (300, 70)
    with the suffixes -mobile, -tablet, -desktop and -thumb; the packaging
    pipeline has mobile, tablet and desktop with the same numbers, and no
    thumbnail. *)
Theorem preset_catalogs :
  map (λ e, (e.1, BuildImages.width e.2, BuildImages.quality e.2, BuildImages.suffix e.2))
      BuildImages.configs
  = [ ("mobile", 800%N, 75%N, "-mobile"); ("tablet", 1200%N, 80%N, "-tablet");
      ("desktop", 1920%N, 85%N, "-desktop"); ("thumbnail", 300%N, 70%N, "-thumb") ]
  ∧ map (λ e, (e.1, BuildCloudflare.width e.2, BuildCloudflare.quality e.2))
        BuildCloudflare.configs
    = [ ("mobile", 800%N, 75%N); ("tablet", 1200%N, 80%N); ("desktop", 1920%N, 85%N) ]
  ∧ "thumbnail" ∉ BuildCloudflare.configs.*1.
Proof.
  split; [reflexivity |]. split; [reflexivity |].
  intros Hin. by repeat (apply elem_of_cons in Hin as [Hin | Hin]; [discriminate Hin |]);
    apply elem_of_nil in Hin.
Qed.

(** ** Sample runs of the scripts *)


(** The packaging pipeline writes the variants of every preset side by side
    in [dist/pages]; it makes no directory per preset. *)
Lemma pipeline_outputs_not_in_preset_directory :
  let w' := (BuildCloudflare.main Fixtures.sharp_works
               (Fixtures.world_of Fixtures.site)).2 in
  (BuildCloudflare.main Fixtures.sharp_works (Fixtures.world_of Fixtures.site)).1 = Ok tt
  ∧ Sys.fs w' !! Sys.resolve "dist/pages/page1-mobile.webp" = Some (File "WEBP")
  ∧ Sys.fs w' !! Sys.resolve "dist/pages/page1-mobile.jpg" = Some (File "JPEG")
  ∧ Sys.fs w' !! Sys.resolve "dist/pages/mobile" = None
  ∧ Sys.fs w' !! Sys.resolve "dist/pages/mobile/page1-mobile.webp" = None
  ∧ Sys.fs w' !! Sys.resolve "dist/pages/mobile/page1-mobile.jpg" = None.
Proof.
  repeat split; vm_compute; reflexivity.
Qed.

(** ** Reasoning about computations *)

Section Monad.
Import Sys Hoare.
Local Open Scope sys_scope.

Lemma bind_ok {A B} (m : M A) (k : A → M B) (w w1 : world) (a : A) :
  m w = (Ok a, w1) → bind m k w = k a w1.
Proof. unfold bind. by intros ->. Qed.

Lemma bind_inv {A B} (m : M A) (k : A → M B) (w w' : world) (b : B) :
  bind m k w = (Ok b, w') → ∃ a w1, m w = (Ok a, w1) ∧ k a w1 = (Ok b, w').
Proof.
  unfold bind. destruct (m w) as [[a | e | c] w1]; [|done..].
  intros H. by exists a, w1.
Qed.

Lemma hoare_ret {A} (P : world → Prop) (a : A) (Q : A → world → Prop) :
  (∀ w, P w → Q a w) → hoare P (ret a) Q.
Proof. intros H w Hw. exists a, w. auto. Qed.

Lemma hoare_bind {A B} (P : world → Prop) (m : M A) (Q : A → world → Prop)
    (k : A → M B) (R : B → world → Prop) :
  hoare P m Q → (∀ a, hoare (Q a) (k a) R) → hoare P (bind m k) R.
Proof.
  intros Hm Hk w Hw. destruct (Hm w Hw) as (a & w1 & Hrun & Ha).
  destruct (Hk a w1 Ha) as (b & w2 & Hrun' & Hb).
  exists b, w2. by rewrite (bind_ok _ _ _ _ _ Hrun).
Qed.

Lemma hoare_weaken {A} (P P' : world → Prop) (m : M A) (Q Q' : A → world → Prop) :
  hoare P' m Q' → (∀ w, P w → P' w) → (∀ a w, Q' a w → Q a w) → hoare P m Q.
Proof.
  intros Hm HP HQ w Hw. destruct (Hm w (HP w Hw)) as (a & w' & Hrun & Ha).
  exists a, w'. auto.
Qed.

Lemma hoare_conj {A} (P : world → Prop) (m : M A) (Q1 Q2 : A → world → Prop) :
  hoare P m Q1 → hoare P m Q2 → hoare P m (λ a w, Q1 a w ∧ Q2 a w).
Proof.
  intros H1 H2 w Hw. destruct (H1 w Hw) as (a & w' & Hrun & Ha).
  destruct (H2 w Hw) as (a' & w'' & Hrun' & Ha').
  rewrite Hrun in Hrun'. injection Hrun' as <- <-. by exists a, w'.
Qed.

(** What a computation known to return normally returned. *)
Lemma hoare_run {A} (P : world → Prop) (m : M A) (Q : A → world → Prop)
    (w w' : world) (r : outcome A) :
  hoare P m Q → P w → m w = (r, w') → ∃ a, r = Ok a ∧ Q a w'.
Proof.
  intros Hm Hw Hrun. destruct (Hm w Hw) as (a & w1 & Hrun' & Ha).
  rewrite Hrun in Hrun'. injection Hrun' as -> ->. by exists a.
Qed.

Lemma hoare_foldM_from {S A} (f : S → A → M S) (I : list A → S → world → Prop)
    (seen l : list A) (s0 : S) :
  (∀ pre x post s, l = pre ++ x :: post →
                   hoare (I (seen ++ pre) s) (f s x) (I (seen ++ pre ++ [x]))) →
  hoare (I seen s0) (foldM f s0 l) (I (seen ++ l)).
Proof.
  revert seen s0. induction l as [|x l IH]; intros seen s0 Hstep.
  - rewrite app_nil_r. by apply hoare_ret.
  - simpl. eapply hoare_bind.
    + specialize (Hstep [] x l s0 eq_refl). by rewrite app_nil_r in Hstep.
    + intros s1. replace (seen ++ x :: l) with ((seen ++ [x]) ++ l)
        by by rewrite <- app_assoc.
      apply IH. intros pre y post s ->.
      specialize (Hstep (x :: pre) y post s eq_refl).
      by rewrite <- !app_assoc.
Qed.

(** The loop rule: an invariant over the elements seen so far. *)
Lemma hoare_foldM {S A} (f : S → A → M S) (I : list A → S → world → Prop)
    (l : list A) (s0 : S) :
  (∀ pre x post s, l = pre ++ x :: post → hoare (I pre s) (f s x) (I (pre ++ [x]))) →
  hoare (I [] s0) (foldM f s0 l) (I l).
Proof. intros Hstep. by apply (hoare_foldM_from f I [] l s0). Qed.

Lemma hoare_console_log (P : world → Prop) (text : string) (Q : unit → world → Prop) :
  (∀ w, P w → Q tt {| fs := fs w; console := console w ++ [Out text]; shell := shell w |}) →
  hoare P (console_log text) Q.
Proof. intros H w Hw. eexists _, _. split; [done |]. by apply H. Qed.

End Monad.

(** Splitting a run of [m ;; k] that returned normally. *)
Tactic Notation "unbind" hyp(H) "as" simple_intropattern(a) simple_intropattern(w)
    simple_intropattern(H1) :=
  let H' := fresh in
  destruct (bind_inv _ _ _ _ _ H) as (a & w & H1 & H'); clear H; rename H' into H.

(** ** Objects *)

Section Objects.
Import Json.

Lemma get_prop_set_prop_eq (k : string) (v : value) (props : list (string * value)) :
  get_prop k (set_prop k v props) = Some v.
Proof.
  induction props as [|[k' v'] props IH]; simpl.
  - by rewrite String.eqb_refl.
  - destruct (String.eqb_spec k k') as [->|Hne]; simpl.
    + by rewrite String.eqb_refl.
    + by apply String.eqb_neq in Hne as ->.
Qed.

Lemma get_prop_set_prop_ne (k k' : string) (v : value) (props : list (string * value)) :
  k ≠ k' → get_prop k' (set_prop k v props) = get_prop k' props.
Proof.
  intros Hne. induction props as [|[k0 v0] props IH]; simpl.
  - apply not_eq_sym, String.eqb_neq in Hne. by rewrite Hne.
  - destruct (String.eqb_spec k k0) as [->|Hne0]; simpl.
    + apply not_eq_sym, String.eqb_neq in Hne. by rewrite Hne.
    + by rewrite IH.
Qed.

Lemma get_prop_None (k : string) (props : list (string * value)) :
  get_prop k props = None ↔ k ∉ keys props.
Proof.
  unfold keys. induction props as [|[k' v'] props IH]; simpl.
  - split; [intros _; apply not_elem_of_nil | done].
  - rewrite not_elem_of_cons. destruct (String.eqb_spec k k') as [->|Hne].
    + split; [done | by intros [? _]].
    + rewrite IH. tauto.
Qed.

Lemma get_prop_elem (k : string) (v : value) (props : list (string * value)) :
  get_prop k props = Some v → (k, v) ∈ props.
Proof.
  induction props as [|[k' v'] props IH]; simpl; [done |].
  destruct (String.eqb_spec k k') as [->|Hne].
  - intros [= ->]. left.
  - intros H. right. auto.
Qed.

Lemma keys_set_prop (k : string) (v : value) (props : list (string * value)) :
  keys (set_prop k v props)
  = if decide (k ∈ keys props) then keys props else keys props ++ [k].
Proof.
  unfold keys. induction props as [|[k' v'] props IH].
  - destruct (decide (k ∈ ([] : list (string * value)).*1)) as [Hin|_]; [|done].
    by apply elem_of_nil in Hin.
  - cbn [set_prop]. destruct (String.eqb_spec k k') as [->|Hne].
    + destruct (decide (k' ∈ ((k', v') :: props).*1)) as [_|Hnotin]; [done |].
      destruct Hnotin. left.
    + change (((k', v') :: set_prop k v props).*1) with (k' :: (set_prop k v props).*1).
      change (((k', v') :: props).*1) with (k' :: props.*1). rewrite IH.
      destruct (decide (k ∈ props.*1)) as [Hin|Hnotin],
               (decide (k ∈ k' :: props.*1)) as [Hin'|Hnotin']; try done.
      * destruct Hnotin'. by right.
      * apply elem_of_cons in Hin' as [?|?]; done.
Qed.

Lemma elem_of_set_prop (k k' : string) (v v' : value) (props : list (string * value)) :
  (k', v') ∈ set_prop k v props → (k', v') = (k, v) ∨ (k', v') ∈ props.
Proof.
  induction props as [|[k0 v0] props IH]; simpl.
  - intros ->%list_elem_of_singleton. by left.
  - destruct (String.eqb_spec k k0) as [->|Hne].
    + intros [->|Hin]%elem_of_cons; [by left | right; by right].
    + intros [->|Hin]%elem_of_cons; [right; left |].
      destruct (IH Hin) as [->|Hin']; [by left | right; by right].
Qed.

End Objects.

(** ** The file system under the encoders *)

Section Trees.
Import Sys Inv.

Lemma extends_refl (t : tree) : extends t t.
Proof. by intros k. Qed.

Lemma extends_trans (t1 t2 t3 : tree) : extends t1 t2 → extends t2 t3 → extends t1 t3.
Proof.
  intros H12 H23 k. destruct (H12 k) as [Hd Hs], (H23 k) as [Hd' Hs'].
  split; [by rewrite Hd | auto].
Qed.

(** Writing a regular file where no directory stands. *)
Lemma extends_insert_file (t : tree) (k : list string) (c : string) :
  t !! k ≠ Some Dir → extends t (<[k := File c]> t).
Proof.
  intros Hk k'. destruct (decide (k = k')) as [<-|Hne].
  - rewrite lookup_insert_eq. split; [split; [done | discriminate] | eauto].
  - by rewrite lookup_insert_ne.
Qed.

Lemma encoded_inr (output : string) (r : exec_result) (t t' : tree) :
  encoded output r t = inr t' →
  ∃ bytes, r = Exec_ok bytes ∧ t !! resolve output ≠ Some Dir
           ∧ t' = <[resolve output := File bytes]> t.
Proof.
  unfold encoded. destruct r as [bytes | message]; [|done].
  destruct (t !! resolve output) as [[c|]|] eqn:Hk; [|done|]; intros [= <-];
    exists bytes; by rewrite ?Hk.
Qed.

Lemma encoded_extends (output : string) (r : exec_result) (t t' : tree) :
  encoded output r t = inr t' → extends t t'.
Proof. intros (bytes & _ & Hk & ->)%encoded_inr. by apply extends_insert_file. Qed.

End Trees.

(** ** The local optimizer, pair by pair *)

Section LocalOptimizer.
Import Sys Hoare Inv Json.
Context (E : BuildImages.env).

Lemma execSync_convert (cmd : convert_cmd) (w : world) :
  BuildImages.execSync E (Convert cmd) w
  = match encoded (cmd_output cmd) (BuildImages.convert E cmd (fs w)) (fs w) with
    | inl message =>
        (Throw message,
         {| fs := fs w; console := console w; shell := shell w ++ [Convert cmd] |})
    | inr t =>
        (Ok tt, {| fs := t; console := console w; shell := shell w ++ [Convert cmd] |})
    end.
Proof.
  unfold BuildImages.execSync, bind, write_encoded. cbn [fs].
  by destruct (encoded _ _ _).
Qed.

(** The three ways a pair can go: the WebP command fails, the JPEG command
    fails after the WebP file was written, or both files are written. *)
Lemma optimizeImage_run (inputPath outputDir filename : string)
    (cfg : BuildImages.config) (w : world) :
  let webp := BuildImages.webp_command inputPath outputDir filename cfg in
  let jpeg := BuildImages.jpeg_command inputPath outputDir filename cfg in
  let failed message := Err ("Error processing " +:+ filename +:+ ": " +:+ message) in
  BuildImages.optimizeImage E inputPath outputDir filename cfg w
  = match encoded (cmd_output webp) (BuildImages.convert E webp (fs w)) (fs w) with
    | inl message =>
        (Ok Null, {| fs := fs w; console := console w ++ [failed message];
                     shell := shell w ++ [Convert webp] |})
    | inr t1 =>
        match encoded (cmd_output jpeg) (BuildImages.convert E jpeg t1) t1 with
        | inl message =>
            (Ok Null, {| fs := t1; console := console w ++ [failed message];
                         shell := (shell w ++ [Convert webp]) ++ [Convert jpeg] |})
        | inr t2 =>
            (Ok (Obj [("webp", Str (cmd_output webp)); ("jpeg", Str (cmd_output jpeg))]),
             {| fs := t2; console := console w;
                shell := (shell w ++ [Convert webp]) ++ [Convert jpeg] |})
        end
    end.
Proof.
  intros webp jpeg failed.
  unfold BuildImages.optimizeImage, try_catch, bind at 1.
  fold webp. rewrite execSync_convert.
  destruct (encoded (cmd_output webp) _ _) as [message | t1]; [done |].
  unfold bind at 1. fold jpeg. rewrite execSync_convert. cbn [fs console shell].
  by destruct (encoded (cmd_output jpeg) _ _) as [message | t2].
Qed.

(** One pair: the file system only gains regular files, and the pair either
    leaves the results as they were or is recorded with its two paths. *)
Lemma optimizePreset_spec (outputBaseDir inputPath filename preset : string)
    (cfg : BuildImages.config) (results : list (string * value)) (w : world) :
  hoare (eq w)
    (BuildImages.optimizePreset E outputBaseDir inputPath filename results (preset, cfg))
    (λ results' w',
       extends (fs w) (fs w')
       ∧ (results' = results
          ∨ ∃ r, variants r
                 ∧ results' = BuildImages.set_result filename preset r results)).
Proof.
  intros ? <-. unfold BuildImages.optimizePreset, bind. cbn [fst snd].
  rewrite optimizeImage_run.
  set (webp := BuildImages.webp_command _ _ _ _).
  set (jpeg := BuildImages.jpeg_command _ _ _ _).
  destruct (encoded (cmd_output webp) _ _) as [message | t1] eqn:H1.
  { eexists _, _. split; [done |]. cbn [fs]. split; [apply extends_refl | by left]. }
  destruct (encoded (cmd_output jpeg) _ _) as [message | t2] eqn:H2.
  { eexists _, _. split; [done |]. cbn [fs]. split; [by eapply encoded_extends | by left]. }
  eexists _, _. split; [done |]. cbn [fs].
  split; [eapply extends_trans; by eapply encoded_extends |].
  right. eexists. split; [by eexists _, _ | done].
Qed.

Lemma keys_set_result (filename preset : string) (r : value)
    (results : list (string * value)) :
  keys (BuildImages.set_result filename preset r results) = keys results.
Proof.
  unfold BuildImages.set_result.
  destruct (get_prop filename results) as [[| |entry]|] eqn:Hget; try done.
  rewrite keys_set_prop, decide_True; [done |].
  apply dec_stable. rewrite <- get_prop_None. congruence.
Qed.

Lemma get_prop_set_result_ne (filename other preset : string) (r : value)
    (results : list (string * value)) :
  other ≠ filename →
  get_prop other (BuildImages.set_result filename preset r results)
  = get_prop other results.
Proof.
  intros Hne. unfold BuildImages.set_result.
  destruct (get_prop filename results) as [[| |entry]|]; try done.
  by apply get_prop_set_prop_ne.
Qed.

Lemma get_prop_set_result_eq (filename preset : string) (r : value)
    (results : list (string * value)) (entry : list (string * value)) :
  get_prop filename results = Some (Obj entry) →
  get_prop filename (BuildImages.set_result filename preset r results)
  = Some (Obj (set_prop preset r entry)).
Proof.
  intros Hget. unfold BuildImages.set_result. rewrite Hget.
  apply get_prop_set_prop_eq.
Qed.

Lemma shape_set_prop_empty (filename : string) (results : list (string * value)) :
  manifest_shape results → manifest_shape (set_prop filename (Obj []) results).
Proof.
  intros Hshape file v [[= -> ->] | Hin]%elem_of_set_prop; [|by apply (Hshape file)].
  exists []. split; [done |]. by intros preset r Hin%elem_of_nil.
Qed.

Lemma shape_set_result (filename preset : string) (r : value)
    (results : list (string * value)) :
  variants r → manifest_shape results →
  manifest_shape (BuildImages.set_result filename preset r results).
Proof.
  intros Hr Hshape. unfold BuildImages.set_result.
  destruct (get_prop filename results) as [[| |entry]|] eqn:Hget; try done.
  intros file v [[= -> ->] | Hin]%elem_of_set_prop; [|by apply (Hshape file)].
  exists (set_prop preset r entry). split; [done |].
  apply get_prop_elem, Hshape in Hget as (entry' & [= <-] & Hentry).
  intros preset' r' [[= -> ->] | Hin]%elem_of_set_prop; [done | by eapply Hentry].
Qed.

(** One file: it is counted, and becomes a key of the results. *)
Lemma optimizeFile_spec (sourceDir outputBaseDir filename : string) (total : nat)
    (state : nat * list (string * value)) (w : world) :
  hoare (eq w)
    (BuildImages.optimizeFile E sourceDir outputBaseDir total state filename)
    (λ state' w',
       state'.1 = S state.1
       ∧ extends (fs w) (fs w')
       ∧ keys state'.2
         = (if decide (filename ∈ keys state.2) then keys state.2
            else keys state.2 ++ [filename])
       ∧ (manifest_shape state.2 → manifest_shape state'.2)).
Proof.
  intros ? <-. unfold BuildImages.optimizeFile.
  set (input := Path.join sourceDir filename).
  set (r0 := set_prop filename (Obj []) state.2).
  set (w1 := {| fs := fs w;
                console := console w ++ [Out ("Processing " +:+ filename +:+ "...")];
                shell := shell w |}).
  pose (I := λ (seen : list (string * BuildImages.config))
               (results : list (string * value)) (w2 : world),
          extends (fs w1) (fs w2)
          ∧ keys results = keys r0
          ∧ (manifest_shape r0 → manifest_shape results)).
  assert (hoare (I [] r0)
            (foldM (BuildImages.optimizePreset E outputBaseDir input filename) r0
               BuildImages.configs)
            (I BuildImages.configs)) as Hloop.
  { apply hoare_foldM. intros seen [preset cfg] post results _ w2 (Hext & Hkeys & Hshape).
    destruct (optimizePreset_spec outputBaseDir input filename preset cfg results w2 w2
                eq_refl)
      as (results' & w3 & Hrun & Hext' & Hcases).
    exists results', w3. split; [done |].
    split; [by eapply extends_trans |].
    destruct Hcases as [-> | (r & Hr & ->)]; [done |].
    split; [by rewrite keys_set_result |].
    intros; by apply shape_set_result; auto. }
  destruct (Hloop w1) as (results' & w2 & Hrun & Hext & Hkeys & Hshape).
  { split; [apply extends_refl | done]. }
  eexists _, _. split.
  { unfold bind at 1. cbn [console_log]. fold w1. fold r0. fold input.
    unfold bind at 1. rewrite Hrun. reflexivity. }
  cbn [fst snd fs shell console].
  split; [done |]. split; [done |].
  split; [by rewrite Hkeys; apply keys_set_prop |].
  intros; by apply Hshape, shape_set_prop_empty.
Qed.

(** The whole loop: it always returns, every file is counted and is a key
    of the results, and every recorded value is a [{webp, jpeg}] pair. *)
Lemma processImages_spec (sourceDir outputBaseDir : string) (files : list string)
    (w : world) :
  hoare (eq w)
    (BuildImages.processImages E sourceDir outputBaseDir files)
    (λ state w',
       state.1 = length files
       ∧ extends (fs w) (fs w')
       ∧ (NoDup files → keys state.2 = files)
       ∧ manifest_shape state.2).
Proof.
  intros ? <-. unfold BuildImages.processImages.
  pose (I := λ (seen : list string) (state : nat * list (string * value)) (w' : world),
          state.1 = length seen
          ∧ extends (fs w) (fs w')
          ∧ (NoDup files → keys state.2 = seen)
          ∧ manifest_shape state.2).
  apply (hoare_foldM _ I); [|unfold I; cbn [fst snd length]].
  - intros seen file post state Hfiles w1 (Hcount & Hext & Hkeys & Hshape).
    destruct (optimizeFile_spec sourceDir outputBaseDir file (length files) state w1 w1
                eq_refl)
      as (state' & w2 & Hrun & Hcount' & Hext' & Hkeys' & Hshape').
    exists state', w2. split; [done |].
    split; [rewrite Hcount', Hcount, length_app; simpl; lia |].
    split; [by eapply extends_trans |].
    split; [|auto].
    intros Hnodup. rewrite Hkeys', (Hkeys Hnodup). rewrite decide_False; [done |].
    rewrite Hfiles in Hnodup. apply NoDup_app in Hnodup as (_ & Hnotin & _).
    intros Hin. apply (Hnotin _ Hin). left.
  - split; [done |]. split; [apply extends_refl |].
    split; [done |]. by intros file v Hin%elem_of_nil.
Qed.

End LocalOptimizer.

(** ** Computations that leave the file system alone, or nearly *)

Section Preserves.
Import Sys Hoare.
Context (R : tree → tree → Prop) `{!PreOrder R}.

Lemma preserves_ret {A} (a : A) : preserves R (ret a).
Proof. by intros w. Qed.

Lemma preserves_throw {A} (message : string) : preserves R (throw (A := A) message).
Proof. by intros w. Qed.

Lemma preserves_exit {A} (code : nat) : preserves R (process_exit (A := A) code).
Proof. by intros w. Qed.

Lemma preserves_bind {A B} (m : M A) (k : A → M B) :
  preserves R m → (∀ a, preserves R (k a)) → preserves R (bind m k).
Proof.
  intros Hm Hk w. unfold bind. specialize (Hm w).
  destruct (m w) as [[a | e | c] w1]; [|done..].
  etrans; [done | apply Hk].
Qed.

Lemma preserves_try_catch {A} (m : M A) (handler : string → M A) :
  preserves R m → (∀ e, preserves R (handler e)) → preserves R (try_catch m handler).
Proof.
  intros Hm Hh w. unfold try_catch. specialize (Hm w).
  destruct (m w) as [[a | e | c] w1]; [done | | done].
  etrans; [done | apply Hh].
Qed.

Lemma preserves_foldM {S A} (f : S → A → M S) (l : list A) (s : S) :
  (∀ s x, x ∈ l → preserves R (f s x)) → preserves R (foldM f s l).
Proof.
  revert s. induction l as [|x l IH]; intros s Hf; [apply preserves_ret |].
  simpl. apply preserves_bind; [apply Hf; left |].
  intros s'. apply IH. intros s'' y Hy. apply Hf. by right.
Qed.

Lemma preserves_forEach {A} (f : A → M unit) (l : list A) :
  (∀ x, x ∈ l → preserves R (f x)) → preserves R (forEach f l).
Proof. intros Hf. apply preserves_foldM. auto. Qed.

(** Calls that only read the file system or write to the console. *)
Lemma preserves_same_fs {A} (m : M A) :
  (∀ w, fs (m w).2 = fs w) → preserves R m.
Proof. intros Hm w. by rewrite Hm. Qed.

Lemma preserves_console_log (text : string) : preserves R (console_log text).
Proof. by apply preserves_same_fs. Qed.

Lemma preserves_console_error (text : string) : preserves R (console_error text).
Proof. by apply preserves_same_fs. Qed.

Lemma preserves_existsSync (p : string) : preserves R (existsSync p).
Proof. by apply preserves_same_fs. Qed.

Lemma preserves_readdirSync (p : string) : preserves R (readdirSync p).
Proof.
  apply preserves_same_fs. intros w. unfold readdirSync.
  by destruct (fs w !! resolve p) as [[]|].
Qed.

Lemma preserves_readFileSync (p : string) : preserves R (readFileSync p).
Proof.
  apply preserves_same_fs. intros w. unfold readFileSync.
  by destruct (fs w !! resolve p) as [[]|].
Qed.

Lemma preserves_statSync_size (dir_size : N) (p : string) :
  preserves R (statSync_size dir_size p).
Proof.
  apply preserves_same_fs. intros w. unfold statSync_size.
  by destruct (fs w !! resolve p) as [[]|].
Qed.

End Preserves.

(** One step through a computation built from the calls above. *)
Ltac preserves_step :=
  lazymatch goal with
  | |- Hoare.preserves _ (Sys.bind _ _) =>
      apply preserves_bind; try exact _; [|intros ?]
  | |- Hoare.preserves _ (Sys.foldM _ _ _) =>
      apply preserves_foldM; try exact _; intros ? ? ?
  | |- Hoare.preserves _ (Sys.forEach _ _) =>
      apply preserves_forEach; try exact _; intros ? ?
  | |- Hoare.preserves _ (Sys.try_catch _ _) =>
      apply preserves_try_catch; try exact _; [|intros ?]
  | |- Hoare.preserves _ (if ?b then _ else _) => destruct b
  | |- Hoare.preserves _ (Sys.ret _) => apply preserves_ret; exact _
  | |- Hoare.preserves _ (Sys.throw _) => apply preserves_throw; exact _
  | |- Hoare.preserves _ (Sys.process_exit _) => apply preserves_exit; exact _
  | |- Hoare.preserves _ (Sys.console_log _) => apply preserves_console_log; exact _
  | |- Hoare.preserves _ (Sys.console_error _) => apply preserves_console_error; exact _
  | |- Hoare.preserves _ (Sys.existsSync _) => apply preserves_existsSync; exact _
  | |- Hoare.preserves _ (Sys.readdirSync _) => apply preserves_readdirSync; exact _
  | |- Hoare.preserves _ (Sys.readFileSync _) => apply preserves_readFileSync; exact _
  | |- Hoare.preserves _ (Sys.statSync_size _ _) =>
      apply preserves_statSync_size; exact _
  end.

Section SizeComparison.
Import Sys Hoare.

(** The size report reads the file system and prints; it changes no file. *)
Lemma showSizeComparison_same_fs (E : BuildImages.env) (sourceDir outputBaseDir : string)
    (w : world) :
  fs (BuildImages.showSizeComparison E sourceDir outputBaseDir w).2 = fs w.
Proof.
  assert (PreOrder (λ t t' : tree, t' = t)) as Hpre.
  { split; [by intros t | by intros t1 t2 t3 -> ->]. }
  enough (preserves (λ t t' : tree, t' = t)
            (BuildImages.showSizeComparison E sourceDir outputBaseDir)) as Hp
    by exact (Hp w).
  unfold BuildImages.showSizeComparison. repeat preserves_step.
Qed.

End SizeComparison.

(** ** Directory listings *)

Section Listings.
Import Sys.

Lemma entries_spec (name : string) (dir : list string) (t : tree) :
  name ∈ entries dir t ↔ Path.valid_name name = true ∧ is_Some (t !! (dir ++ [name])).
Proof.
  unfold entries. rewrite list_elem_of_omap. split.
  - intros ([k n] & Hin & Hname). apply elem_of_map_to_list in Hin. cbn [fst] in Hname.
    destruct (last k) as [name'|]; [|done].
    destruct (bool_decide (k = dir ++ [name'])) eqn:Hk; [|done].
    destruct (Path.valid_name name') eqn:Hvalid; [|done].
    injection Hname as <-. apply bool_decide_eq_true in Hk as ->. eauto.
  - intros [Hvalid [n Hn]]. exists (dir ++ [name], n).
    split; [by apply elem_of_map_to_list |]. cbn [fst].
    by rewrite last_snoc, bool_decide_eq_true_2, Hvalid.
Qed.

Lemma entries_NoDup (dir : list string) (t : tree) : NoDup (entries dir t).
Proof.
  unfold entries. pose proof (NoDup_fst_map_to_list t) as Hnodup.
  induction (map_to_list t) as [|[k n] l IH]; [constructor |].
  apply NoDup_cons in Hnodup as [Hk Hnodup]. cbn [omap list_omap fst].
  destruct (last k) as [name|] eqn:Hlast; [|by apply IH].
  destruct (bool_decide (k = dir ++ [name])) eqn:Hdir; [|by apply IH].
  destruct (Path.valid_name name); [|by apply IH]. cbn [andb].
  apply NoDup_cons. split; [|by apply IH].
  intros ([k' n'] & Hin & Hname)%list_elem_of_omap. cbn [fst] in Hname.
  destruct (last k') as [name'|]; [|done].
  destruct (bool_decide (k' = dir ++ [name'])) eqn:Hdir'; [|done].
  destruct (Path.valid_name name'); [|done]. injection Hname as ->.
  apply bool_decide_eq_true in Hdir as ->. apply bool_decide_eq_true in Hdir' as ->.
  apply Hk. apply list_elem_of_fmap. by exists (dir ++ [name], n').
Qed.

End Listings.

(** ** The local optimizer, as a whole *)

Section LocalScript.
Import Sys Hoare Inv Json.
Context (E : BuildImages.env).

(** The images [prepare] hands on are distinct names of the directory. *)
Lemma prepare_files (sourceDir outputBaseDir : string) (w w1 : world)
    (imageFiles : list string) :
  BuildImages.prepare E sourceDir outputBaseDir w = (Ok imageFiles, w1) →
  NoDup imageFiles
  ∧ ∀ file, file ∈ imageFiles → Path.valid_name file = true ∧ is_image file = true.
Proof.
  unfold BuildImages.prepare. intros H.
  unbind H as available wa _.
  unbind H as ? wb _.
  unbind H as ? wc _.
  unbind H as ? wd _.
  unbind H as files we Hread.
  unbind H as ? wf _. injection H as <- _.
  unfold readdirSync in Hread.
  destruct (fs wd !! resolve sourceDir) as [[c|]|]; try done.
  injection Hread as <- _. split.
  - apply NoDup_filter, entries_NoDup.
  - intros file [Himage Hin]%list_elem_of_filter. split; [|done].
    by apply entries_spec in Hin as [? _].
Qed.

(** A run that completes went through the listing and through the loop, and
    its last change to the file system is the manifest. *)
Lemma createOptimizedImages_inv (sourceDir outputBaseDir : string) (w w' : world) :
  BuildImages.createOptimizedImages E sourceDir outputBaseDir w = (Ok tt, w') →
  ∃ imageFiles w1 state w2,
    BuildImages.prepare E sourceDir outputBaseDir w = (Ok imageFiles, w1)
    ∧ BuildImages.processImages E sourceDir outputBaseDir imageFiles w1 = (Ok state, w2)
    ∧ fs w' = <[resolve (Path.join outputBaseDir "image-manifest.json") :=
                  File (stringify (Obj state.2))]> (fs w2).
Proof.
  unfold BuildImages.createOptimizedImages. intros H.
  unbind H as imageFiles w1 Hprepare.
  unbind H as state w2 Hprocess.
  unbind H as ? w3 Hwrite.
  unbind H as ? w4 H4. unbind H as ? w5 H5. unbind H as ? w6 H6.
  exists imageFiles, w1, state, w2. split; [done |]. split; [done |].
  pose proof (showSizeComparison_same_fs E sourceDir outputBaseDir w6) as Hsame.
  rewrite H in Hsame. cbn [snd] in Hsame.
  unfold console_log in H4, H5, H6.
  injection H4 as _ <-. injection H5 as _ <-. injection H6 as _ <-.
  cbn [fs] in Hsame. rewrite Hsame.
  unfold writeFileSync in Hwrite.
  destruct (fs w2 !! _) as [[c|]|]; try done; by injection Hwrite as _ <-.
Qed.

End LocalScript.

(** ** The names of the output files *)

Section OutputNames.
Import Path Sys.

Lemma contains_char_append (c : ascii) (a b : string) :
  Str.contains_char c (a +:+ b) = Str.contains_char c a || Str.contains_char c b.
Proof.
  induction a as [|x a IH]; [done |].
  rewrite append_cons. cbn [Str.contains_char]. by rewrite IH, orb_assoc.
Qed.

Lemma before_last_dot_free (s stem : string) :
  before_last_dot s = Some stem → slash_free s → slash_free stem.
Proof.
  unfold slash_free. revert stem. induction s as [|c s IH]; intros stem; [done |].
  cbn [before_last_dot Str.contains_char].
  destruct (before_last_dot s) as [p|].
  - intros [= <-] [Hc Hs]%orb_false_iff. cbn [Str.contains_char].
    by rewrite Hc, (IH p).
  - destruct (Ascii.eqb c "."); [|done]. by intros [= <-].
Qed.

Lemma basename_free (p : string) : slash_free (basename p).
Proof.
  unfold basename. pose proof (split_slash_all_free p) as Hfree.
  destruct (last (filter (λ s, s ≠ "") (split_slash p))) as [base|] eqn:Hlast; [|done].
  apply last_Some_elem_of, list_elem_of_filter in Hlast as [_ Hin].
  by eapply Forall_forall in Hfree.
Qed.

Lemma parse_name_free (p : string) : slash_free (parse_name p).
Proof.
  unfold parse_name. pose proof (basename_free p) as Hbase.
  destruct (before_last_dot (basename p)) as [stem|] eqn:Hstem; [|done].
  destruct (_ || _); [done |]. by eapply before_last_dot_free.
Qed.

(** A name with a hyphen and no slash is a name a directory can hold. *)
Lemma hyphenated_valid (name rest : string) :
  slash_free name → slash_free rest → valid_name (name +:+ String "-" rest) = true.
Proof.
  intros Hname Hrest. apply valid_name_spec.
  assert (Str.contains_char "-" (name +:+ String "-" rest) = true) as Hhyphen.
  { rewrite contains_char_append. cbn [Str.contains_char].
    by rewrite Ascii.eqb_refl, orb_true_r. }
  repeat split; try (intros Heq; by rewrite Heq in Hhyphen).
  unfold slash_free in *. rewrite contains_char_append. cbn [Str.contains_char].
  by rewrite Hname, Hrest.
Qed.

(** The output names of the local optimizer and where they resolve. *)
Lemma local_output_key (outputBaseDir preset filename ext : string)
    (cfg : BuildImages.config) :
  (preset, cfg) ∈ BuildImages.configs → ext = ".webp" ∨ ext = ".jpg" →
  resolve (join (join outputBaseDir preset)
             (parse_name filename +:+ BuildImages.suffix cfg +:+ ext))
  = resolve outputBaseDir
    ++ [preset; parse_name filename +:+ BuildImages.suffix cfg +:+ ext].
Proof.
  intros Hcfg Hext. pose proof (parse_name_free filename) as Hfree.
  unfold BuildImages.configs in Hcfg.
  repeat (apply elem_of_cons in Hcfg as [[= -> ->] | Hcfg]);
    [..|by apply elem_of_nil in Hcfg];
    cbn [BuildImages.suffix]; rewrite !append_cons, append_nil_l;
    (rewrite resolve_join; [rewrite resolve_join; [by rewrite <- app_assoc | done] |]);
    apply hyphenated_valid; [done | by destruct Hext as [-> | ->]
                            | done | by destruct Hext as [-> | ->]
                            | done | by destruct Hext as [-> | ->]
                            | done | by destruct Hext as [-> | ->]].
Qed.

(** The output names of the packaging pipeline and where they resolve. *)
Lemma pipeline_output_key (preset filename ext : string) (cfg : BuildCloudflare.config) :
  (preset, cfg) ∈ BuildCloudflare.configs → ext = ".webp" ∨ ext = ".jpg" →
  resolve (join (join "./dist" "pages")
             (parse_name filename +:+ BuildCloudflare.suffix cfg +:+ ext))
  = ["dist"; "pages"; parse_name filename +:+ BuildCloudflare.suffix cfg +:+ ext].
Proof.
  intros Hcfg Hext. pose proof (parse_name_free filename) as Hfree.
  unfold BuildCloudflare.configs in Hcfg.
  repeat (apply elem_of_cons in Hcfg as [[= -> ->] | Hcfg]);
    [..|by apply elem_of_nil in Hcfg];
    cbn [BuildCloudflare.suffix]; rewrite !append_cons, append_nil_l;
    (rewrite resolve_join; [done |]);
    apply hyphenated_valid; [done | by destruct Hext as [-> | ->]
                            | done | by destruct Hext as [-> | ->]
                            | done | by destruct Hext as [-> | ->]].
Qed.

End OutputNames.

(** ** The packaging pipeline, pair by pair *)

Section SharpPairs.
Import Sys Hoare Inv Json.
Context (E : BuildCloudflare.env).

(** The ways a pair can go in the pipeline: both files are written, or an
    error is caught at some point and the original is copied instead. *)
Lemma optimizeWithSharp_run (inputPath outputDir filename : string)
    (cfg : BuildCloudflare.config) (w : world) :
  let name := Path.parse_name filename in
  let webp := Path.join outputDir (name +:+ BuildCloudflare.suffix cfg +:+ ".webp") in
  let jpeg := Path.join outputDir (name +:+ BuildCloudflare.suffix cfg +:+ ".jpg") in
  let fallback message :=
    bind (console_error ("Error processing " +:+ filename +:+ " with Sharp: " +:+ message))
      (λ _, bind (copyFileSync inputPath (Path.join outputDir filename))
              (λ _, ret (Obj [("original", Str (Path.join outputDir filename))]))) in
  BuildCloudflare.optimizeWithSharp E inputPath outputDir filename cfg w
  = if BuildCloudflare.sharp_available E then
      match encoded webp (BuildCloudflare.sharp E true inputPath (BuildCloudflare.width cfg)
                            (BuildCloudflare.quality cfg) (fs w)) (fs w) with
      | inl message => fallback message w
      | inr t1 =>
          match encoded jpeg (BuildCloudflare.sharp E false inputPath
                                (BuildCloudflare.width cfg) (BuildCloudflare.quality cfg) t1)
                  t1 with
          | inl message => fallback message (set_fs t1 w)
          | inr t2 => (Ok (Obj [("webp", Str webp); ("jpeg", Str jpeg)]), set_fs t2 w)
          end
      end
    else fallback "Cannot find module 'sharp'" w.
Proof.
  intros name webp jpeg fallback. subst name webp jpeg fallback. cbv beta.
  unfold BuildCloudflare.optimizeWithSharp, try_catch, BuildCloudflare.require_sharp.
  destruct (BuildCloudflare.sharp_available E); [|done].
  unfold bind at 1. cbn [ret]. unfold bind at 1.
  unfold BuildCloudflare.sharp_toFile at 1, write_encoded at 1.
  destruct (encoded _ _ (fs w)) as [message | t1]; [done |].
  unfold bind at 1.
  unfold BuildCloudflare.sharp_toFile at 1, write_encoded at 1. cbn [fs set_fs].
  by destruct (encoded _ _ t1) as [message | t2].
Qed.

(** The fallback never returns a [{webp, jpeg}] value. *)
Lemma fallback_not_variants (inputPath fallbackOutput text : string) (w w' : world)
    (v : value) :
  bind (console_error text)
    (λ _, bind (copyFileSync inputPath fallbackOutput)
            (λ _, ret (Obj [("original", Str fallbackOutput)]))) w = (Ok v, w') →
  v = Obj [("original", Str fallbackOutput)].
Proof.
  intros H. unbind H as ? w1 _. unbind H as ? w2 _. by injection H as <- _.
Qed.

End SharpPairs.

Lemma run_eq {A} (p : outcome A * Sys.world) (a : A) : p.1 = Ok a → p = (Ok a, p.2).
Proof. destruct p as [o w]. simpl. by intros ->. Qed.

(** C3, as the scripts have it.  A pair whose conversion succeeds produces
    exactly two files, a WebP and a JPEG named after the base name of the
    source and the suffix of the preset: the local optimizer writes them in
    the directory of the preset under its output root, the packaging
    pipeline writes them straight into [dist/pages], whatever the preset.
    The local optimizer hands its paths to the shell between double quotes:
    the statement is for paths of plain characters, which the shell and
    ImageMagick leave as they are. *)
Theorem two_outputs_per_pair
    (E : BuildImages.env) (outputBaseDir inputPath filename preset : string)
    (cfg : BuildImages.config) (w w' : Sys.world) (v : Json.value)
    (E2 : BuildCloudflare.env) (inputPath2 filename2 preset2 : string)
    (cfg2 : BuildCloudflare.config) (w2 w2' : Sys.world) (v2 : Json.value) :
  (preset, cfg) ∈ BuildImages.configs →
  Inv.plain_command
    (BuildImages.webp_command inputPath (Path.join outputBaseDir preset) filename cfg)
  = true →
  Inv.plain_command
    (BuildImages.jpeg_command inputPath (Path.join outputBaseDir preset) filename cfg)
  = true →
  BuildImages.optimizeImage E inputPath (Path.join outputBaseDir preset) filename cfg w
  = (Ok v, w') →
  Json.truthy v = true →
  (preset2, cfg2) ∈ BuildCloudflare.configs →
  BuildCloudflare.optimizeWithSharp E2 inputPath2 (Path.join "./dist" "pages") filename2
    cfg2 w2 = (Ok v2, w2') →
  Inv.variants v2 →
  (∃ webp jpeg,
     Sys.fs w'
     = <[Sys.resolve outputBaseDir
         ++ [preset; Path.parse_name filename +:+ BuildImages.suffix cfg +:+ ".jpg"]
         := File jpeg]>
         (<[Sys.resolve outputBaseDir
            ++ [preset; Path.parse_name filename +:+ BuildImages.suffix cfg +:+ ".webp"]
            := File webp]> (Sys.fs w)))
  ∧ (∃ webp jpeg,
       Sys.fs w2'
       = <[["dist"; "pages";
            Path.parse_name filename2 +:+ BuildCloudflare.suffix cfg2 +:+ ".jpg"]
           := File jpeg]>
           (<[["dist"; "pages";
               Path.parse_name filename2 +:+ BuildCloudflare.suffix cfg2 +:+ ".webp"]
              := File webp]> (Sys.fs w2))).
Proof.
  intros Hcfg _ _ Hrun Hv Hcfg2 Hrun2 Hv2. split.
  - rewrite optimizeImage_run in Hrun.
    destruct (Sys.encoded _ _ _) as [message | t1] eqn:H1 in Hrun;
      [by injection Hrun as <- _ |].
    destruct (Sys.encoded _ _ _) as [message | t2] eqn:H2 in Hrun;
      [by injection Hrun as <- _ |].
    injection Hrun as _ <-. cbn [Sys.fs].
    apply encoded_inr in H1 as (webp & _ & _ & ->).
    apply encoded_inr in H2 as (jpeg & _ & _ & ->).
    exists webp, jpeg. cbn [Sys.cmd_output BuildImages.webp_command BuildImages.jpeg_command].
    by rewrite !local_output_key by auto.
  - rewrite optimizeWithSharp_run in Hrun2.
    destruct Hv2 as (p & q & ->).
    destruct (BuildCloudflare.sharp_available E2);
      [|by apply fallback_not_variants in Hrun2].
    destruct (Sys.encoded _ _ _) as [message | t1] eqn:H1 in Hrun2;
      [by apply fallback_not_variants in Hrun2 |].
    destruct (Sys.encoded _ _ _) as [message | t2] eqn:H2 in Hrun2;
      [by apply fallback_not_variants in Hrun2 |].
    injection Hrun2 as _ _ <-. cbn [Sys.fs Sys.set_fs].
    apply encoded_inr in H1 as (webp & _ & _ & ->).
    apply encoded_inr in H2 as (jpeg & _ & _ & ->).
    exists webp, jpeg. by rewrite !(pipeline_output_key preset2) by auto.
Qed.

Lemma two_outputs_per_pair_witness :
  (∃ webp jpeg,
     Sys.fs (BuildImages.optimizeImage Fixtures.convert_works "pages/a.jpg"
               (Path.join "./optimized-images" "mobile") "a.jpg" Fixtures.mobile_local
               (Fixtures.world_of Fixtures.pages)).2
     = <[Sys.resolve "./optimized-images" ++ ["mobile"; "a" +:+ "-mobile" +:+ ".jpg"]
         := File jpeg]>
         (<[Sys.resolve "./optimized-images" ++ ["mobile"; "a" +:+ "-mobile" +:+ ".webp"]
            := File webp]> Fixtures.pages))
  ∧ (∃ webp jpeg,
       Sys.fs (BuildCloudflare.optimizeWithSharp Fixtures.sharp_works
                 "flipbook-v2/pages/page1.jpg" (Path.join "./dist" "pages") "page1.jpg"
                 Fixtures.mobile_pipeline (Fixtures.world_of Fixtures.site)).2
       = <[["dist"; "pages"; "page1" +:+ "-mobile" +:+ ".jpg"] := File jpeg]>
           (<[["dist"; "pages"; "page1" +:+ "-mobile" +:+ ".webp"] := File webp]>
              Fixtures.site)).
Proof.
  apply (two_outputs_per_pair
           Fixtures.convert_works "./optimized-images" "pages/a.jpg" "a.jpg" "mobile"
           Fixtures.mobile_local (Fixtures.world_of Fixtures.pages) _
           (Json.Obj [("webp", Json.Str "optimized-images/mobile/a-mobile.webp");
                      ("jpeg", Json.Str "optimized-images/mobile/a-mobile.jpg")])
           Fixtures.sharp_works "flipbook-v2/pages/page1.jpg" "page1.jpg" "mobile"
           Fixtures.mobile_pipeline (Fixtures.world_of Fixtures.site) _
           (Json.Obj [("webp", Json.Str "dist/pages/page1-mobile.webp");
                      ("jpeg", Json.Str "dist/pages/page1-mobile.jpg")])).
  - left.
  - reflexivity.
  - reflexivity.
  - apply run_eq. vm_compute. reflexivity.
  - reflexivity.
  - left.
  - apply run_eq. vm_compute. reflexivity.
  - by eexists _, _.
Defined.

(** ** Creating directories *)

Section Directories.
Import Sys Inv.

Lemma grows_refl (t : tree) : grows t t.
Proof. by intros k. Qed.

Lemma grows_trans (t1 t2 t3 : tree) : grows t1 t2 → grows t2 t3 → grows t1 t3.
Proof.
  intros H12 H23 k. destruct (H12 k) as [Hf Hd], (H23 k) as [Hf' Hd'].
  split; [intros c; by rewrite Hf | auto].
Qed.

Lemma grows_insert_dir (t : tree) (k : list string) :
  (∀ c, t !! k ≠ Some (File c)) → grows t (<[k := Dir]> t).
Proof.
  intros Hk k'. destruct (decide (k = k')) as [<-|Hne].
  - rewrite lookup_insert_eq. split; [|done]. intros c. split; [by intros ?%Hk | done].
  - by rewrite lookup_insert_ne.
Qed.

(** [mkdir -p] succeeds when no regular file is in the way; it only adds
    directories, on the way to its target. *)
Lemma mkdir_from_ok (above rest : list string) (t : tree) :
  (∀ k c, k `prefix_of` above ++ rest → t !! k ≠ Some (File c)) →
  ∃ t', mkdir_from above rest t = Some t'
        ∧ grows t t'
        ∧ (∀ k, t' !! k = Some Dir → t !! k = Some Dir ∨ k `prefix_of` above ++ rest)
        ∧ (rest ≠ [] → t' !! (above ++ rest) = Some Dir).
Proof.
  revert above t. induction rest as [|seg rest IH]; intros above t Hfree.
  - exists t. split; [done |]. split; [apply grows_refl |]. split; [auto | done].
  - assert (above ++ seg :: rest = (above ++ [seg]) ++ rest) as Heq
      by by rewrite <- app_assoc.
    assert (∀ c, t !! (above ++ [seg]) ≠ Some (File c)) as Hseg.
    { intros c. apply Hfree. rewrite Heq. by apply prefix_app_r. }
    destruct (IH (above ++ [seg]) (<[above ++ [seg] := Dir]> t))
      as (t' & Hrun & Hgrows & Hdirs & Htarget).
    { intros k c Hk. destruct (decide (above ++ [seg] = k)) as [<-|Hne].
      - by rewrite lookup_insert_eq.
      - rewrite lookup_insert_ne by done. apply Hfree. by rewrite Heq. }
    exists t'. split.
    { cbn [mkdir_from]. destruct (t !! (above ++ [seg])) as [[c|]|] eqn:Hk; [|done..].
      by destruct (Hseg c). }
    split; [eapply grows_trans; [by apply grows_insert_dir | done] |].
    split.
    + intros k Hk. rewrite Heq. destruct (Hdirs k Hk) as [Hin | Hpre]; [|by right].
      destruct (decide (above ++ [seg] = k)) as [<-|Hne].
      * right. by apply prefix_app_r.
      * rewrite lookup_insert_ne in Hin by done. by left.
    + intros _. rewrite Heq. destruct rest as [|seg' rest]; [|by apply Htarget].
      rewrite app_nil_r. injection Hrun as <-. by rewrite lookup_insert_eq.
Qed.

End Directories.

(** ** The local optimizer runs to completion *)

Section Completion.
Import Sys Hoare Inv Json.
Context (E : BuildImages.env).

Lemma checkImageMagick_ok (w : world) :
  BuildImages.convert_version_ok E = true →
  BuildImages.checkImageMagick E w
  = (Ok true, {| fs := fs w; console := console w;
                 shell := shell w ++ [Convert_version] |}).
Proof.
  intros Hok. unfold BuildImages.checkImageMagick, try_catch, bind, BuildImages.execSync.
  unfold bind. by rewrite Hok.
Qed.

Lemma preset_name_valid (preset : string) :
  preset ∈ BuildImages.configs.*1 → Path.valid_name preset = true.
Proof.
  cbn. intros H. repeat (apply elem_of_cons in H as [-> | H]); try done.
  by apply elem_of_nil in H.
Qed.

Lemma manifest_not_preset : "image-manifest.json" ∉ BuildImages.configs.*1.
Proof.
  cbn. intros H. repeat (apply elem_of_cons in H as [[=] | H]).
  by apply elem_of_nil in H.
Qed.

Lemma resolve_manifest (outputBaseDir : string) :
  resolve (Path.join outputBaseDir "image-manifest.json")
  = resolve outputBaseDir ++ ["image-manifest.json"].
Proof. by apply resolve_join. Qed.

Lemma prefix_snoc_same (k : list string) (a b : string) :
  k ++ [a] `prefix_of` k ++ [b] → a = b.
Proof. intros H%prefix_app_inv. by apply prefix_cons_inv_1 in H. Qed.

(** The set-up of a run up to the listing: the version check and the
    output directories. *)
Lemma prepare_dirs (sourceDir outputBaseDir : string) (w : world) :
  BuildImages.convert_version_ok E = true →
  (∀ preset k c, preset ∈ BuildImages.configs.*1 →
                 k `prefix_of` resolve outputBaseDir ++ [preset] →
                 fs w !! k ≠ Some (File c)) →
  ∃ wb,
    grows (fs w) (fs wb)
    ∧ (∀ k, fs wb !! k = Some Dir →
            fs w !! k = Some Dir
            ∨ ∃ preset, preset ∈ BuildImages.configs.*1
                        ∧ k `prefix_of` resolve outputBaseDir ++ [preset])
    ∧ (∀ preset, preset ∈ BuildImages.configs.*1 →
                 fs wb !! (resolve outputBaseDir ++ [preset]) = Some Dir)
    ∧ shell wb = shell w ++ [Convert_version]
    ∧ console wb = console w ++ [Out "Starting image optimization..."]
    ∧ BuildImages.prepare E sourceDir outputBaseDir w
      = bind (readdirSync sourceDir)
          (λ files,
             let imageFiles := filter (λ file, is_image file = true) files in
             bind (console_log ("Found " +:+ pretty (length imageFiles)
                                +:+ " images to process"))
               (λ _, ret imageFiles)) wb.
Proof.
  intros Hok Hfree. unfold BuildImages.prepare.
  rewrite (bind_ok _ _ _ _ _ (checkImageMagick_ok w Hok)).
  unfold bind at 1. cbn [ret]. unfold bind at 1. cbn [console_log].
  set (wa := {| fs := fs w;
                console := console w ++ [Out "Starting image optimization..."];
                shell := shell w ++ [Convert_version] |}).
  pose (I := λ (seen : list string) (_ : unit) (w' : world),
          grows (fs w) (fs w')
          ∧ (∀ k, fs w' !! k = Some Dir →
                  fs w !! k = Some Dir
                  ∨ ∃ preset, preset ∈ BuildImages.configs.*1
                              ∧ k `prefix_of` resolve outputBaseDir ++ [preset])
          ∧ (∀ preset, preset ∈ seen →
                       fs w' !! (resolve outputBaseDir ++ [preset]) = Some Dir)
          ∧ shell w' = shell wa ∧ console w' = console wa).
  assert (hoare (I [] tt)
            (forEach (λ configName,
                        bind (existsSync (Path.join outputBaseDir configName))
                          (λ present, if present then ret tt
                                      else mkdirSync (Path.join outputBaseDir configName)))
               BuildImages.configs.*1)
            (I BuildImages.configs.*1)) as Hloop.
  { apply hoare_foldM. intros seen preset post [] Hnames w' (Hgrows & Hdirs & Hseen & Hshell).
    assert (preset ∈ BuildImages.configs.*1) as Hpreset.
    { rewrite Hnames. apply elem_of_app. right. left. }
    assert (∀ k c, k `prefix_of` resolve outputBaseDir ++ [preset] →
                   fs w' !! k ≠ Some (File c)) as Hfree'.
    { intros k c Hk Hfile. apply (Hgrows k) in Hfile. by eapply Hfree. }
    unfold bind, existsSync.
    rewrite (resolve_join _ _ (preset_name_valid _ Hpreset)).
    destruct (fs w' !! (resolve outputBaseDir ++ [preset])) as [n|] eqn:Hkey.
    - rewrite bool_decide_eq_true_2 by eauto. exists tt, w'. split; [done |].
      split; [done |]. split; [done |]. split; [|done].
      intros preset' [Hin | ->%list_elem_of_singleton]%elem_of_app; [auto |].
      destruct n as [c|]; [|done]. by destruct (Hfree' _ c (reflexivity _)).
    - rewrite bool_decide_eq_false_2 by by intros [? ?].
      unfold mkdirSync. rewrite (resolve_join _ _ (preset_name_valid _ Hpreset)).
      destruct (mkdir_from_ok [] (resolve outputBaseDir ++ [preset]) (fs w') Hfree')
        as (t' & -> & Hgrows' & Hdirs' & Htarget).
      exists tt, (set_fs t' w'). split; [done |]. cbn [fs shell set_fs].
      split; [by eapply grows_trans |]. split; [|split; [|done]].
      + intros k Hk. destruct (Hdirs' k Hk) as [Hold | Hnew]; [auto |]. right. eauto.
      + intros preset' [Hin | ->%list_elem_of_singleton]%elem_of_app.
        * by apply Hgrows', Hseen.
        * apply Htarget. by destruct (resolve outputBaseDir). }
  destruct (Hloop wa) as ([] & wb & Hrun & Hgrows & Hdirs & Hseen & Hshell & Hconsole).
  { split; [apply grows_refl |]. split; [auto |]. split; [|done].
    by intros preset Hin%elem_of_nil. }
  rewrite (bind_ok _ _ _ _ _ Hrun).
  exists wb. split; [done |]. split; [done |]. split; [done |].
  split; [by rewrite Hshell |]. split; [by rewrite Hconsole |]. reflexivity.
Qed.

(** The set-up of a run: the version check, the output directories, the
    listing. *)
Lemma prepare_run (sourceDir outputBaseDir : string) (w : world) :
  BuildImages.convert_version_ok E = true →
  fs w !! resolve sourceDir = Some Dir →
  (∀ preset k c, preset ∈ BuildImages.configs.*1 →
                 k `prefix_of` resolve outputBaseDir ++ [preset] →
                 fs w !! k ≠ Some (File c)) →
  ∃ w1,
    BuildImages.prepare E sourceDir outputBaseDir w
    = (Ok (filter (λ file, is_image file = true) (entries (resolve sourceDir) (fs w1))), w1)
    ∧ grows (fs w) (fs w1)
    ∧ (∀ k, fs w1 !! k = Some Dir →
            fs w !! k = Some Dir
            ∨ ∃ preset, preset ∈ BuildImages.configs.*1
                        ∧ k `prefix_of` resolve outputBaseDir ++ [preset])
    ∧ (∀ preset, preset ∈ BuildImages.configs.*1 →
                 fs w1 !! (resolve outputBaseDir ++ [preset]) = Some Dir)
    ∧ shell w1 = shell w ++ [Convert_version]
    ∧ console w1
      = console w
        ++ [ Out "Starting image optimization...";
             Out ("Found "
                  +:+ pretty (length (filter (λ file, is_image file = true)
                                        (entries (resolve sourceDir) (fs w1))))
                  +:+ " images to process") ].
Proof.
  intros Hok Hsrc Hfree.
  destruct (prepare_dirs sourceDir outputBaseDir w Hok Hfree)
    as (wb & Hgrows & Hdirs & Hseen & Hshell & Hconsole & ->).
  assert (fs wb !! resolve sourceDir = Some Dir) as Hsrc' by by apply Hgrows.
  unfold bind at 1, readdirSync. rewrite Hsrc'. cbv zeta.
  unfold bind, console_log, ret.
  lazymatch goal with |- ∃ w1, (_, ?final) = _ ∧ _ => exists final end.
  split; [reflexivity |]. cbn [fs shell console].
  split; [done |]. split; [done |]. split; [done |].
  split; [done |]. by rewrite Hconsole, <- app_assoc.
Qed.

End Completion.

(** ** Computations that depend on the file system only *)

Section FsOnly.
Import Sys Hoare.

Lemma fs_only_ret {A} (a : A) : fs_only (ret a).
Proof. by intros w1 w2 Heq. Qed.

Lemma fs_only_throw {A} (message : string) : fs_only (throw (A := A) message).
Proof. by intros w1 w2 Heq. Qed.

Lemma fs_only_bind {A B} (m : M A) (k : A → M B) :
  fs_only m → (∀ a, fs_only (k a)) → fs_only (bind m k).
Proof.
  intros Hm Hk w1 w2 Heq. unfold bind. destruct (Hm w1 w2 Heq) as [Ho Hf].
  destruct (m w1) as [o1 w1'], (m w2) as [o2 w2']. simpl in Ho, Hf. subst o2.
  destruct o1 as [a | e | c]; [by apply Hk | done..].
Qed.

Lemma fs_only_try_catch {A} (m : M A) (handler : string → M A) :
  fs_only m → (∀ e, fs_only (handler e)) → fs_only (try_catch m handler).
Proof.
  intros Hm Hh w1 w2 Heq. unfold try_catch. destruct (Hm w1 w2 Heq) as [Ho Hf].
  destruct (m w1) as [o1 w1'], (m w2) as [o2 w2']. simpl in Ho, Hf. subst o2.
  destruct o1 as [a | e | c]; [done | by apply Hh | done].
Qed.

Lemma fs_only_foldM {S A} (f : S → A → M S) (l : list A) (s : S) :
  (∀ s x, fs_only (f s x)) → fs_only (foldM f s l).
Proof.
  intros Hf. revert s. induction l as [|x l IH]; intros s; [apply fs_only_ret |].
  simpl. apply fs_only_bind; auto.
Qed.

Lemma fs_only_forEach {A} (f : A → M unit) (l : list A) :
  (∀ x, fs_only (f x)) → fs_only (forEach f l).
Proof. intros Hf. apply fs_only_foldM. auto. Qed.

Lemma fs_only_console_log (text : string) : fs_only (console_log text).
Proof. by intros w1 w2 Heq. Qed.

Lemma fs_only_console_error (text : string) : fs_only (console_error text).
Proof. by intros w1 w2 Heq. Qed.

Lemma fs_only_existsSync (p : string) : fs_only (existsSync p).
Proof. intros w1 w2 Heq. unfold existsSync. simpl. by rewrite Heq. Qed.

Lemma fs_only_mkdirSync (p : string) : fs_only (mkdirSync p).
Proof.
  intros w1 w2 Heq. unfold mkdirSync. rewrite Heq.
  by destruct (mkdir_from [] (resolve p) (fs w2)).
Qed.

Lemma fs_only_rmSync (p : string) : fs_only (rmSync p).
Proof.
  intros w1 w2 Heq. unfold rmSync. rewrite Heq.
  by destruct (fs w2 !! resolve p).
Qed.

Lemma fs_only_readdirSync (p : string) : fs_only (readdirSync p).
Proof.
  intros w1 w2 Heq. unfold readdirSync. rewrite Heq.
  by destruct (fs w2 !! resolve p) as [[c|]|].
Qed.

Lemma fs_only_readFileSync (p : string) : fs_only (readFileSync p).
Proof.
  intros w1 w2 Heq. unfold readFileSync. rewrite Heq.
  by destruct (fs w2 !! resolve p) as [[c|]|].
Qed.

Lemma fs_only_writeFileSync (p content : string) : fs_only (writeFileSync p content).
Proof.
  intros w1 w2 Heq. unfold writeFileSync. rewrite Heq.
  by destruct (fs w2 !! resolve p) as [[c|]|].
Qed.

Lemma fs_only_copyFileSync (src dst : string) : fs_only (copyFileSync src dst).
Proof.
  intros w1 w2 Heq. unfold copyFileSync. rewrite Heq.
  destruct (fs w2 !! resolve src) as [[c|]|]; [|done..].
  by destruct (fs w2 !! resolve dst) as [[c'|]|].
Qed.

Lemma fs_only_write_encoded (output : string) (r : tree → exec_result) :
  fs_only (λ w, write_encoded output (r (fs w)) w).
Proof.
  intros w1 w2 Heq. unfold write_encoded. rewrite Heq.
  by destruct (encoded output (r (fs w2)) (fs w2)).
Qed.

End FsOnly.

Ltac fs_only_step :=
  lazymatch goal with
  | |- Hoare.fs_only (Sys.bind _ _) => apply fs_only_bind; [|intros ?]
  | |- Hoare.fs_only (Sys.foldM _ _ _) => apply fs_only_foldM; intros ? ?
  | |- Hoare.fs_only (Sys.forEach _ _) => apply fs_only_forEach; intros ?
  | |- Hoare.fs_only (Sys.try_catch _ _) => apply fs_only_try_catch; [|intros ?]
  | |- Hoare.fs_only (if ?b then _ else _) => destruct b
  | |- Hoare.fs_only (Sys.ret _) => apply fs_only_ret
  | |- Hoare.fs_only (Sys.throw _) => apply fs_only_throw
  | |- Hoare.fs_only (Sys.console_log _) => apply fs_only_console_log
  | |- Hoare.fs_only (Sys.console_error _) => apply fs_only_console_error
  | |- Hoare.fs_only (Sys.existsSync _) => apply fs_only_existsSync
  | |- Hoare.fs_only (Sys.mkdirSync _) => apply fs_only_mkdirSync
  | |- Hoare.fs_only (Sys.rmSync _) => apply fs_only_rmSync
  | |- Hoare.fs_only (Sys.readdirSync _) => apply fs_only_readdirSync
  | |- Hoare.fs_only (Sys.readFileSync _) => apply fs_only_readFileSync
  | |- Hoare.fs_only (Sys.writeFileSync _ _) => apply fs_only_writeFileSync
  | |- Hoare.fs_only (Sys.copyFileSync _ _) => apply fs_only_copyFileSync
  | |- Hoare.fs_only (BuildCloudflare.sharp_toFile _ _ _ _ _) =>
      apply fs_only_write_encoded
  | |- Hoare.fs_only (BuildCloudflare.require_sharp _) =>
      unfold BuildCloudflare.require_sharp
  | |- Hoare.fs_only (BuildCloudflare.optimizeWithSharp _ _ _ _ _) =>
      unfold BuildCloudflare.optimizeWithSharp
  | |- Hoare.fs_only (BuildCloudflare.updateHtmlForOptimizedImages _ _) =>
      unfold BuildCloudflare.updateHtmlForOptimizedImages
  | |- Hoare.fs_only (BuildCloudflare.createHeadersFile _) =>
      unfold BuildCloudflare.createHeadersFile
  end.

Section PipelineDeterminism.
Import Sys Hoare.
Context (E : BuildCloudflare.env).

Lemma build_fs_only (buildDir sourceDir : string) :
  fs_only (BuildCloudflare.build E buildDir sourceDir).
Proof. unfold BuildCloudflare.build. repeat fs_only_step. Qed.

End PipelineDeterminism.

(** ** The packaging pipeline writes inside [dist] only *)

Section Confined.
Import Sys Hoare Inv.

#[export] Instance confined_preorder : PreOrder confined.
Proof.
  split.
  - by intros t.
  - intros t1 t2 t3 [H1 H1'] [H2 H2']. split; [by rewrite H2, H1 | auto].
Qed.

Lemma outside_dist_insert (k : list string) (v : node) (t : tree) :
  below ["dist"] k → outside_dist (<[k := v]> t) = outside_dist t.
Proof. intros Hk. unfold outside_dist. apply map_filter_insert_not. intros y Hn. by apply Hn. Qed.

Lemma confined_insert (k : list string) (v : node) (t : tree) :
  below ["dist"] k → confined t (<[k := v]> t).
Proof.
  intros Hk. split; [by apply outside_dist_insert |].
  intros Hdist. destruct (decide (k = ["dist"])) as [-> | Hne].
  - rewrite lookup_insert_eq. eauto.
  - by rewrite lookup_insert_ne.
Qed.

Lemma outside_dist_lookup_dist (t : tree) : outside_dist t !! ["dist"] = None.
Proof. unfold outside_dist. apply map_lookup_filter_None. right. intros x _ Hn. by apply Hn. Qed.

Lemma outside_dist_fixed (t : tree) :
  (∀ k, below ["dist"] k → t !! k = None) → outside_dist t = t.
Proof.
  intros Hfree. unfold outside_dist. apply map_filter_id. intros k x Hk Hbelow.
  cbn in Hbelow. by rewrite (Hfree k Hbelow) in Hk.
Qed.

Lemma outside_dist_idemp (t : tree) : outside_dist (outside_dist t) = outside_dist t.
Proof.
  apply outside_dist_fixed. intros k Hk. unfold outside_dist.
  apply map_lookup_filter_None. right. intros x _ Hn. by apply Hn.
Qed.

Lemma confined_mkdir_from (above rest : list string) (t t' : tree) :
  (∀ seg, below ["dist"] (above ++ [seg])) →
  mkdir_from above rest t = Some t' → confined t t'.
Proof.
  revert above t. induction rest as [|seg rest IH]; intros above t Habove Hmk.
  - injection Hmk as <-. reflexivity.
  - cbn [mkdir_from] in Hmk.
    assert (confined (<[above ++ [seg] := Dir]> t) t') as Hrest.
    { destruct (t !! (above ++ [seg])) as [[c|]|]; [done | ..];
        (apply (IH (above ++ [seg])); [|done]);
        intros seg'; (etrans; [apply (Habove seg) | by apply prefix_app_r]). }
    etrans; [|exact Hrest]. apply confined_insert, Habove.
Qed.

Lemma confined_mkdirSync (p : string) (rest : list string) :
  resolve p = "dist" :: rest → preserves confined (mkdirSync p).
Proof.
  intros Hp w. unfold mkdirSync. rewrite Hp.
  destruct (mkdir_from [] ("dist" :: rest) (fs w)) as [t'|] eqn:Hmk; [|reflexivity].
  cbn [mkdir_from] in Hmk. cbn [snd fs set_fs].
  assert (confined (<[["dist"] := Dir]> (fs w)) t') as Hrest.
  { destruct (fs w !! ([] ++ ["dist"])) as [[c|]|]; [done | ..];
      (apply (confined_mkdir_from ["dist"] rest); [|done]);
      intros seg; by exists [seg]. }
  etrans; [|exact Hrest]. by apply confined_insert.
Qed.

Lemma confined_writeFileSync (p content : string) :
  below ["dist"] (resolve p) → preserves confined (writeFileSync p content).
Proof.
  intros Hp w. unfold writeFileSync.
  destruct (fs w !! resolve p) as [[c|]|]; cbn [snd fs set_fs];
    [| reflexivity |]; by apply confined_insert.
Qed.

Lemma confined_copyFileSync (src dst : string) :
  below ["dist"] (resolve dst) → preserves confined (copyFileSync src dst).
Proof.
  intros Hp w. unfold copyFileSync.
  destruct (fs w !! resolve src) as [[c|]|]; [|reflexivity..].
  destruct (fs w !! resolve dst) as [[c'|]|]; cbn [snd fs set_fs];
    [| reflexivity |]; by apply confined_insert.
Qed.

Lemma confined_sharp_toFile (E : BuildCloudflare.env) (webp : bool) (input output : string)
    (cfg : BuildCloudflare.config) :
  below ["dist"] (resolve output) →
  preserves confined (BuildCloudflare.sharp_toFile E webp input cfg output).
Proof.
  intros Hp w. unfold BuildCloudflare.sharp_toFile, write_encoded, encoded.
  destruct (BuildCloudflare.sharp E webp input _ _ (fs w)) as [bytes | message];
    [|reflexivity].
  destruct (fs w !! resolve output) as [[c|]|]; cbn [snd fs set_fs];
    [| reflexivity |]; by apply confined_insert.
Qed.

(** The names [readdirSync] returns are single path segments. *)
Lemma preserves_readdirSync_bind {B : Type} (R : gmap (list string) node → gmap (list string) node → Prop) `{!PreOrder R}
    (p : string) (k : list string → M B) :
  (∀ files, (∀ file, file ∈ files → Path.valid_name file = true) → preserves R (k files)) →
  preserves R (bind (readdirSync p) k).
Proof.
  intros Hk w. unfold bind, readdirSync.
  destruct (fs w !! resolve p) as [[c|]|]; [reflexivity | | reflexivity].
  apply Hk. intros file Hfile. by apply entries_spec in Hfile as [Hvalid _].
Qed.

Lemma confined_optimizeWithSharp (E : BuildCloudflare.env) (inputPath filename preset : string)
    (cfg : BuildCloudflare.config) :
  Path.valid_name filename = true → (preset, cfg) ∈ BuildCloudflare.configs →
  preserves confined
    (BuildCloudflare.optimizeWithSharp E inputPath (Path.join "./dist" "pages") filename cfg).
Proof.
  intros Hvalid Hcfg. unfold BuildCloudflare.optimizeWithSharp. cbv zeta.
  assert (∀ ext, ext = ".webp" ∨ ext = ".jpg" →
            below ["dist"] (resolve (Path.join (Path.join "./dist" "pages")
                               (Path.parse_name filename +:+ BuildCloudflare.suffix cfg
                                +:+ ext)))) as Hout.
  { intros ext Hext. rewrite (pipeline_output_key preset) by done. by eexists. }
  apply preserves_try_catch; [exact _ | |intros message].
  - unfold BuildCloudflare.require_sharp.
    preserves_step; [by repeat preserves_step |].
    preserves_step; [apply confined_sharp_toFile, Hout; by left |].
    preserves_step; [apply confined_sharp_toFile, Hout; by right |].
    preserves_step.
  - preserves_step; [preserves_step |].
    preserves_step; [|preserves_step].
    apply confined_copyFileSync. rewrite resolve_join by done. by eexists.
Qed.

Lemma confined_build (E : BuildCloudflare.env) :
  preserves confined (BuildCloudflare.build E "./dist" "./flipbook-v2").
Proof.
  unfold BuildCloudflare.build. cbv zeta.
  preserves_step; [by apply (confined_mkdirSync _ []) |].
  preserves_step; [preserves_step |].
  preserves_step; [apply confined_copyFileSync; by eexists |].
  preserves_step; [by apply (confined_mkdirSync _ ["pages"]) |].
  apply preserves_bind; [exact _ | |intros useSharp].
  { unfold BuildCloudflare.require_sharp. repeat preserves_step. }
  apply preserves_readdirSync_bind; [exact _ |]. intros files Hfiles.
  preserves_step; [preserves_step |].
  preserves_step.
  - destruct useSharp.
    + apply preserves_forEach; [exact _ |]. intros filename [_ Hfile]%list_elem_of_filter.
      preserves_step; [preserves_step |].
      apply preserves_forEach; [exact _ |]. intros [preset cfg] Hcfg.
      preserves_step; [|preserves_step].
      apply (confined_optimizeWithSharp E _ _ preset); [by apply Hfiles | done].
    + apply preserves_forEach; [exact _ |]. intros filename [_ Hfile]%list_elem_of_filter.
      apply confined_copyFileSync. rewrite resolve_join by by apply Hfiles. by eexists.
  - preserves_step.
    + unfold BuildCloudflare.updateHtmlForOptimizedImages. cbv zeta.
      preserves_step; [preserves_step |].
      apply confined_writeFileSync. by eexists.
    + preserves_step; [|preserves_step].
      unfold BuildCloudflare.createHeadersFile.
      apply confined_writeFileSync. by eexists.
Qed.

End Confined.

(** ** Running the packaging pipeline again *)

Section Rerun.
Import Sys Hoare Inv.
Context (E : BuildCloudflare.env).

(** The build proper, with the [catch] of the script around it. *)
Local Abbreviation packaged :=
  (try_catch (BuildCloudflare.build E "./dist" "./flipbook-v2")
             (λ message, console_error (BuildCloudflare.inspect E message))).

Lemma packaged_fs_only : fs_only packaged.
Proof.
  apply fs_only_try_catch; [apply build_fs_only | intros e; apply fs_only_console_error].
Qed.

Lemma packaged_confined : preserves confined packaged.
Proof.
  apply preserves_try_catch; [exact _ | apply confined_build |].
  intros e. apply preserves_console_error. exact _.
Qed.

(** Creating [dist] first makes no difference to a build that starts
    without it. *)
Lemma mkdirSync_dist_absorb {B : Type} (k : unit → M B) (w : world) :
  fs w !! ["dist"] = None →
  bind (mkdirSync "./dist") k w
  = bind (mkdirSync "./dist") k (set_fs (<[["dist"] := Dir]> (fs w)) w).
Proof.
  intros Hnone. unfold bind, mkdirSync.
  change (resolve "./dist") with ["dist"]. cbn [mkdir_from app fs set_fs].
  rewrite Hnone, lookup_insert_eq, insert_insert_eq. reflexivity.
Qed.

Lemma packaged_creates_dist (w : world) :
  fs w !! ["dist"] = None → is_Some (fs (packaged w).2 !! ["dist"]).
Proof.
  intros Hnone.
  assert (packaged w = packaged (set_fs (<[["dist"] := Dir]> (fs w)) w)) as ->.
  { unfold try_catch, BuildCloudflare.build.
    by rewrite (mkdirSync_dist_absorb _ w Hnone). }
  apply packaged_confined. cbn [fs set_fs]. rewrite lookup_insert_eq. eauto.
Qed.

Lemma try_catch_bind_ok {A B : Type} (m : M A) (k : A → M B) (handler : string → M B)
    (w w' : world) (a : A) :
  m w = (Ok a, w') → try_catch (bind m k) handler w = try_catch (k a) handler w'.
Proof. intros Hm. unfold try_catch, bind. by rewrite Hm. Qed.

(** The script cleans [dist] away, then builds. *)
Lemma main_cleans (w : world) :
  dist_parented (fs w) →
  ∃ w', fs w' = outside_dist (fs w) ∧ BuildCloudflare.main E w = packaged w'.
Proof.
  intros Hparented.
  unfold BuildCloudflare.main, BuildCloudflare.buildForCloudflare. cbv zeta.
  erewrite try_catch_bind_ok by reflexivity.
  erewrite try_catch_bind_ok by reflexivity.
  cbn [fs]. change (resolve "./dist") with ["dist"].
  destruct (decide (is_Some (fs w !! ["dist"]))) as [Hdist | Hdist].
  - rewrite bool_decide_eq_true_2 by done.
    erewrite try_catch_bind_ok; last first.
    { unfold rmSync. change (resolve "./dist") with ["dist"]. cbn [fs].
      destruct Hdist as [v ->]. reflexivity. }
    eexists. split; [|reflexivity]. reflexivity.
  - rewrite bool_decide_eq_false_2 by done.
    erewrite try_catch_bind_ok by reflexivity.
    eexists. split; [|reflexivity]. cbn [fs]. symmetry. apply outside_dist_fixed.
    intros k Hk. apply eq_None_not_Some. intros Hsome. by apply Hdist, (Hparented k).
Qed.

End Rerun.

(** C5.  Running the packaging pipeline a second time, on what the first
    run left, ends the same way and leaves the same file system, hence the
    same [dist], file for file and byte for byte; neither run changes
    anything outside [dist].  The file system is one where nothing lies
    below a missing [dist]; Sharp is a function of its arguments and of the
    disk. *)
Theorem rerun_same_dist (E : BuildCloudflare.env) (w : Sys.world) :
  Inv.dist_parented (Sys.fs w) →
  let once := BuildCloudflare.main E w in
  let twice := BuildCloudflare.main E once.2 in
  twice.1 = once.1
  ∧ Sys.fs twice.2 = Sys.fs once.2
  ∧ Inv.outside_dist (Sys.fs once.2) = Inv.outside_dist (Sys.fs w).
Proof.
  intros Hparented once twice. subst twice once.
  destruct (main_cleans E w Hparented) as (w0 & Hw0 & ->).
  set (packaged := Sys.try_catch _ _) in *.
  set (w1 := (packaged w0).2).
  assert (Sys.fs w0 !! ["dist"] = None) as Hnone.
  { rewrite Hw0. apply outside_dist_lookup_dist. }
  assert (Inv.outside_dist (Sys.fs w1) = Sys.fs w0) as Hsame.
  { destruct (packaged_confined E w0) as [Hc _]. unfold w1, packaged.
    rewrite Hc, Hw0. apply outside_dist_idemp. }
  assert (Inv.dist_parented (Sys.fs w1)) as Hparented1.
  { intros k _ _. by apply packaged_creates_dist. }
  destruct (main_cleans E w1 Hparented1) as (w2 & Hw2 & ->).
  fold packaged. rewrite Hsame in Hw2.
  destruct (packaged_fs_only E w2 w0 Hw2) as [Hout Hfs].
  split; [done |]. split; [done |]. by rewrite Hsame.
Qed.

(** A run of the pipeline over a site with a stale [dist]: it completes,
    the stale file is gone, and [dist] holds the rewritten page, the headers
    and the variants of the image. *)
Lemma pipeline_sample_run :
  let run := BuildCloudflare.main Fixtures.sharp_works (Fixtures.world_of Fixtures.stale_site) in
  run.1 = Ok tt
  ∧ Sys.fs run.2 !! ["dist"; "stale.txt"] = None
  ∧ Sys.fs run.2 !! ["dist"; "index.html"]
    = Some (File ("<script>" +:+ BuildCloudflare.picture_template +:+ "</script>"))
  ∧ Sys.fs run.2 !! ["dist"; "_headers"] = Some (File BuildCloudflare.headersContent)
  ∧ Sys.fs run.2 !! ["dist"; "pages"; "page1-tablet.webp"] = Some (File "WEBP")
  ∧ Sys.fs run.2 !! ["flipbook-v2"; "pages"; "page1.jpg"] = Some (File "JPEG-1").
Proof. vm_compute. repeat split; reflexivity. Qed.

Lemma rerun_same_dist_witness :
  let once := BuildCloudflare.main Fixtures.sharp_works (Fixtures.world_of Fixtures.stale_site) in
  let twice := BuildCloudflare.main Fixtures.sharp_works once.2 in
  twice.1 = once.1
  ∧ Sys.fs twice.2 = Sys.fs once.2
  ∧ Inv.outside_dist (Sys.fs once.2)
    = Inv.outside_dist (Sys.fs (Fixtures.world_of Fixtures.stale_site)).
Proof.
  apply (rerun_same_dist Fixtures.sharp_works (Fixtures.world_of Fixtures.stale_site)).
  intros k _ _. exists Dir. reflexivity.
Defined.

(** * Further properties of the two scripts *)

(** ** The local optimizer gives up early *)

(** X1.  When the source directory (the first argument, [./pages] when it is
    absent or empty) does not exist, the local optimizer prints
    [Source directory not found: <dir>] on the error stream and exits with
    status 1; it has not looked for ImageMagick, created no directory and
    written no file. *)
Theorem missing_source_exits (E : BuildImages.env) (argv2 argv3 : option string)
    (w : Sys.world) :
  let sourceDir := BuildImages.or_default argv2 "./pages" in
  Sys.fs w !! Sys.resolve sourceDir = None →
  BuildImages.main E argv2 argv3 w
  = (Exit 1,
     {| Sys.fs := Sys.fs w;
        Sys.console := Sys.console w ++ [Err ("Source directory not found: " +:+ sourceDir)];
        Sys.shell := Sys.shell w |}).
Proof.
  intros sourceDir Hmissing. unfold BuildImages.main. cbv zeta. fold sourceDir.
  unfold Sys.bind at 1, Sys.existsSync. rewrite Hmissing.
  rewrite bool_decide_eq_false_2 by by intros [? ?].
  reflexivity.
Qed.

Lemma missing_source_exits_witness :
  BuildImages.main Fixtures.convert_works None (Some "") (Fixtures.world_of Fixtures.site)
  = (Exit 1,
     {| Sys.fs := Fixtures.site;
        Sys.console := [Err "Source directory not found: ./pages"];
        Sys.shell := [] |}).
Proof.
  apply (missing_source_exits Fixtures.convert_works None (Some "")
           (Fixtures.world_of Fixtures.site)).
  reflexivity.
Defined.

(** X2.  When [convert -version] fails, [createOptimizedImages] prints the
    four lines of installation advice on the error stream and exits with
    status 1: the version check is the only command run, no output
    directory is created and no manifest is written. *)
Theorem no_imagemagick_exits (E : BuildImages.env) (sourceDir outputBaseDir : string)
    (w : Sys.world) :
  BuildImages.convert_version_ok E = false →
  BuildImages.createOptimizedImages E sourceDir outputBaseDir w
  = (Exit 1,
     {| Sys.fs := Sys.fs w;
        Sys.console :=
          Sys.console w
          ++ [ Err "ImageMagick not found. Please install it:";
               Err "macOS: brew install imagemagick";
               Err "Ubuntu: sudo apt-get install imagemagick";
               Err "Windows: Download from https://imagemagick.org/" ];
        Sys.shell := Sys.shell w ++ [Convert_version] |}).
Proof.
  intros Hmissing.
  unfold BuildImages.createOptimizedImages, BuildImages.prepare,
    BuildImages.checkImageMagick, BuildImages.execSync.
  unfold Sys.bind, Sys.try_catch. rewrite Hmissing. cbn.
  by rewrite <- !app_assoc.
Qed.

Lemma no_imagemagick_exits_witness :
  BuildImages.createOptimizedImages Cases.no_convert "./pages" "./optimized-images"
    (Fixtures.world_of Fixtures.pages)
  = (Exit 1,
     {| Sys.fs := Fixtures.pages;
        Sys.console :=
          [ Err "ImageMagick not found. Please install it:";
            Err "macOS: brew install imagemagick";
            Err "Ubuntu: sudo apt-get install imagemagick";
            Err "Windows: Download from https://imagemagick.org/" ];
        Sys.shell := [Convert_version] |}).
Proof.
  apply (no_imagemagick_exits Cases.no_convert "./pages" "./optimized-images"
           (Fixtures.world_of Fixtures.pages)).
  reflexivity.
Defined.

(** X14.  The check of the source directory is one of existence: when the
    path names a regular file the local optimizer goes on, finds
    ImageMagick, creates the four preset directories and only then fails,
    with the [ENOTDIR] error of the listing, which nothing catches.  No file
    is written or changed.  The path names the file outright
    ([Path.direct]): with a [..] or a slash at its end the file system may
    answer otherwise than the normalized path suggests. *)
Theorem source_file_crashes (E : BuildImages.env) (argv2 argv3 : option string)
    (w : Sys.world) (c : string) :
  let sourceDir := BuildImages.or_default argv2 "./pages" in
  let outputDir := BuildImages.or_default argv3 "./optimized-images" in
  BuildImages.convert_version_ok E = true →
  Path.direct sourceDir = true →
  Sys.fs w !! Sys.resolve sourceDir = Some (File c) →
  (∀ preset k c, preset ∈ BuildImages.configs.*1 →
                 k `prefix_of` Sys.resolve outputDir ++ [preset] →
                 Sys.fs w !! k ≠ Some (File c)) →
  ∃ w',
    BuildImages.main E argv2 argv3 w
    = (Throw ("ENOTDIR: not a directory, scandir '" +:+ sourceDir +:+ "'"), w')
    ∧ (∀ preset, preset ∈ BuildImages.configs.*1 →
                 Sys.fs w' !! (Sys.resolve outputDir ++ [preset]) = Some Dir)
    ∧ Inv.grows (Sys.fs w) (Sys.fs w')
    ∧ Sys.console w' = Sys.console w ++ [Out "Starting image optimization..."].
Proof.
  intros sourceDir outputDir Hok _ Hsrc Hfree.
  destruct (prepare_dirs E sourceDir outputDir w Hok Hfree)
    as (wb & Hgrows & _ & Hpresets & _ & Hconsole & Hprepare).
  exists wb. split; [|by split].
  unfold BuildImages.main. cbv zeta. fold sourceDir outputDir.
  unfold Sys.bind at 1, Sys.existsSync. rewrite Hsrc.
  rewrite bool_decide_eq_true_2 by eauto.
  unfold Sys.bind at 1. cbn [Sys.ret].
  unfold BuildImages.createOptimizedImages. unfold Sys.bind at 1. rewrite Hprepare.
  unfold Sys.bind at 1, Sys.readdirSync.
  by rewrite (proj1 (proj1 (Hgrows _) c) Hsrc).
Qed.

Lemma source_file_crashes_witness :
  ∃ w',
    BuildImages.main Fixtures.convert_works None None
      (Fixtures.world_of Cases.pages_is_file)
    = (Throw ("ENOTDIR: not a directory, scandir '" +:+ "./pages" +:+ "'"), w')
    ∧ (∀ preset, preset ∈ BuildImages.configs.*1 →
                 Sys.fs w' !! (Sys.resolve "./optimized-images" ++ [preset]) = Some Dir)
    ∧ Inv.grows (Sys.fs (Fixtures.world_of Cases.pages_is_file)) (Sys.fs w')
    ∧ Sys.console w'
      = Sys.console (Fixtures.world_of Cases.pages_is_file)
        ++ [Out "Starting image optimization..."].
Proof.
  apply (source_file_crashes Fixtures.convert_works None None
           (Fixtures.world_of Cases.pages_is_file) "not a directory").
  - reflexivity.
  - reflexivity.
  - reflexivity.
  - intros preset k c _ Hprefix Hfile.
    apply elem_of_list_to_map_2 in Hfile.
    apply elem_of_cons in Hfile as [[= -> _] | Hfile]; [|by apply elem_of_nil in Hfile].
    by apply prefix_cons_inv_1 in Hprefix.
Defined.

(** ** What the local optimizer leaves alone *)

Section Kept.
Import Sys Hoare Inv Layout.
Context (out : list string).

#[export] Instance kept_preorder : PreOrder (kept out).
Proof.
  split.
  - intros t k. split; [done |]. intros c Hc. by exists c.
  - intros t1 t2 t3 H12 H23 k. destruct (H12 k) as [Hd Hf], (H23 k) as [Hd' Hf'].
    split; [auto |]. intros c Hc.
    destruct (Hf c Hc) as (c' & Hc' & Hsame). destruct (Hf' c' Hc') as (c'' & Hc'' & Hsame').
    exists c''. split; [done |]. intros Hout. by rewrite (Hsame' Hout), (Hsame Hout).
Qed.

Lemma grows_kept (t t' : tree) : grows t t' → kept out t t'.
Proof.
  intros Hgrows k. destruct (Hgrows k) as [Hf Hd]. split; [done |].
  intros c Hc. exists c. split; [by apply Hf | done].
Qed.

Lemma mkdir_from_grows (above rest : list string) (t t' : tree) :
  mkdir_from above rest t = Some t' → grows t t'.
Proof.
  revert above t. induction rest as [|seg rest IH]; intros above t Hmk.
  - injection Hmk as <-. apply grows_refl.
  - cbn [mkdir_from] in Hmk.
    destruct (t !! (above ++ [seg])) as [[c|]|] eqn:Hk; [done | ..];
      (eapply grows_trans; [|by eapply IH]); apply grows_insert_dir; intros c;
      by rewrite Hk.
Qed.

Lemma kept_mkdirSync (p : string) : preserves (kept out) (mkdirSync p).
Proof.
  intros w. unfold mkdirSync.
  destruct (mkdir_from [] (resolve p) (fs w)) as [t'|] eqn:Hmk; [|reflexivity].
  by eapply grows_kept, mkdir_from_grows.
Qed.

Lemma kept_insert_file (k : list string) (c : string) (t : tree) :
  below out k → t !! k ≠ Some Dir → kept out t (<[k := File c]> t).
Proof.
  intros Hk Hnodir k'. destruct (decide (k = k')) as [<- | Hne].
  - rewrite lookup_insert_eq. split; [done |]. intros c' _. exists c. by split.
  - rewrite lookup_insert_ne by done. split; [done |]. intros c' Hc'. by exists c'.
Qed.

Lemma kept_writeFileSync (p content : string) :
  below out (resolve p) → preserves (kept out) (writeFileSync p content).
Proof.
  intros Hp w. unfold writeFileSync.
  destruct (fs w !! resolve p) as [[c|]|] eqn:Hk; cbn [snd fs set_fs];
    [| reflexivity |]; apply kept_insert_file; try done; by rewrite Hk.
Qed.

Lemma kept_execSync (E : BuildImages.env) (cmd : convert_cmd) :
  below out (resolve (cmd_output cmd)) →
  preserves (kept out) (BuildImages.execSync E (Convert cmd)).
Proof.
  intros Hp w. rewrite execSync_convert. unfold encoded.
  destruct (BuildImages.convert E cmd (fs w)) as [bytes | message]; [|reflexivity].
  destruct (fs w !! resolve (cmd_output cmd)) as [[c|]|] eqn:Hk; cbn [snd fs];
    [| reflexivity |]; apply kept_insert_file; try done; by rewrite Hk.
Qed.

End Kept.

Section KeptScript.
Import Sys Hoare Inv Layout.
Context (E : BuildImages.env).

Lemma kept_optimizeImage (outputBaseDir inputPath filename preset : string)
    (cfg : BuildImages.config) :
  (preset, cfg) ∈ BuildImages.configs →
  preserves (kept (resolve outputBaseDir))
    (BuildImages.optimizeImage E inputPath (Path.join outputBaseDir preset) filename cfg).
Proof.
  intros Hcfg. unfold BuildImages.optimizeImage. cbv zeta.
  apply preserves_try_catch; [exact _ | |intros message; repeat preserves_step].
  preserves_step; [|preserves_step; [|preserves_step]];
    apply kept_execSync; cbn [cmd_output BuildImages.webp_command BuildImages.jpeg_command];
    rewrite (local_output_key _ preset) by auto; by apply prefix_app_r.
Qed.

Lemma kept_createOptimizedImages (sourceDir outputBaseDir : string) :
  preserves (kept (resolve outputBaseDir))
    (BuildImages.createOptimizedImages E sourceDir outputBaseDir).
Proof.
  unfold BuildImages.createOptimizedImages. cbv zeta.
  apply preserves_bind; [exact _ | |intros imageFiles].
  { unfold BuildImages.prepare. cbv zeta.
    preserves_step.
    { unfold BuildImages.checkImageMagick.
      apply preserves_try_catch; [exact _ | |intros message; repeat preserves_step].
      preserves_step; [|preserves_step].
      apply preserves_same_fs; try exact _. intros w.
      unfold BuildImages.execSync, bind. cbn.
      by destruct (BuildImages.convert_version_ok E). }
    preserves_step; [repeat preserves_step |].
    preserves_step; [preserves_step |].
    preserves_step.
    { apply preserves_forEach; [exact _ |]. intros preset _. cbv zeta.
      preserves_step; [preserves_step |]. preserves_step; [preserves_step |].
      apply kept_mkdirSync. }
    repeat preserves_step. }
  apply preserves_bind; [exact _ | |intros state].
  { unfold BuildImages.processImages. apply preserves_foldM; [exact _ |].
    intros state filename _. unfold BuildImages.optimizeFile. cbv zeta.
    preserves_step; [preserves_step |].
    preserves_step; [|repeat preserves_step].
    apply preserves_foldM; [exact _ |]. intros results [preset cfg] Hcfg.
    unfold BuildImages.optimizePreset. cbv zeta. cbn [fst snd].
    preserves_step; [by apply (kept_optimizeImage _ _ _ preset) |].
    repeat preserves_step. }
  preserves_step.
  { apply kept_writeFileSync. rewrite resolve_manifest. by apply prefix_app_r. }
  preserves_step; [preserves_step |].
  preserves_step; [preserves_step |].
  preserves_step; [preserves_step |].
  apply preserves_same_fs; try exact _. apply showSizeComparison_same_fs.
Qed.

End KeptScript.

(** X4.  However a run of the local optimizer ends, every path that was on
    disk is still there and of the same kind, and every regular file that
    is not below the output directory (the second argument,
    [./optimized-images] by default) has the bytes it had: the script
    deletes nothing and overwrites only inside its output directory.  The
    images it lists have plain names, so that the commands it hands to the
    shell do what they say. *)
Theorem optimizer_keeps_files (E : BuildImages.env) (argv2 argv3 : option string)
    (w : Sys.world) :
  Inv.plain_run (BuildImages.or_default argv2 "./pages")
    (BuildImages.or_default argv3 "./optimized-images") (Sys.fs w) = true →
  Layout.kept (Sys.resolve (BuildImages.or_default argv3 "./optimized-images"))
    (Sys.fs w) (Sys.fs (BuildImages.main E argv2 argv3 w).2).
Proof.
  intros _. revert w.
  change (Hoare.preserves
            (Layout.kept (Sys.resolve (BuildImages.or_default argv3 "./optimized-images")))
            (BuildImages.main E argv2 argv3)).
  unfold BuildImages.main. cbv zeta.
  preserves_step; [preserves_step |].
  preserves_step; [repeat preserves_step |].
  apply kept_createOptimizedImages.
Qed.

Lemma optimizer_keeps_files_witness :
  Layout.kept ["optimized-images"] Cases.with_outputs
    (Sys.fs (BuildImages.main Cases.convert_tags None None
               (Fixtures.world_of Cases.with_outputs)).2).
Proof.
  apply (optimizer_keeps_files Cases.convert_tags None None
           (Fixtures.world_of Cases.with_outputs)).
  reflexivity.
Defined.

(** ** What the size report adds up *)

Section SizeReport.
Import Sys Hoare Inv Layout.
Context (E : BuildImages.env).

Lemma stat_loop_sum (dir : string) (files : list string) (total : N) (w : world) :
  (∀ file, file ∈ files →
           Path.valid_name file = true ∧ is_Some (fs w !! (resolve dir ++ [file]))) →
  foldM (λ total file,
           bind (statSync_size (BuildImages.dir_size E) (Path.join dir file))
             (λ size, ret (total + size)%N)) total files w
  = (Ok (total + sum_sizes (BuildImages.dir_size E) (fs w) (resolve dir) files)%N, w).
Proof.
  revert total. induction files as [|file files IH]; intros total Hfiles.
  - cbn. by rewrite N.add_0_r.
  - destruct (Hfiles file) as [Hvalid [n Hn]]; [left |].
    cbn [foldM sum_sizes foldr]. unfold bind at 1. unfold bind at 1, statSync_size.
    rewrite (resolve_join _ _ Hvalid). unfold size_at at 1. rewrite Hn.
    destruct n as [c|]; cbn [ret]; (rewrite IH; [by rewrite N.add_assoc |]);
      intros file' Hin; apply Hfiles; by right.
Qed.

Lemma preset_loop_sum (outputBaseDir : string) (names : list string) (total : N)
    (w : world) :
  (∀ preset, preset ∈ names →
             Path.valid_name preset = true
             ∧ ∀ c, fs w !! (resolve outputBaseDir ++ [preset]) ≠ Some (File c)) →
  foldM (λ total configName,
           let configDir := Path.join outputBaseDir configName in
           bind (existsSync configDir)
             (λ present,
                if present then
                  bind (readdirSync configDir)
                    (λ files,
                       foldM (λ total file,
                                bind (statSync_size (BuildImages.dir_size E)
                                        (Path.join configDir file))
                                  (λ size, ret (total + size)%N)) total files)
                else ret total)) total names w
  = (Ok (total
         + foldr (λ preset acc,
                    ((match fs w !! (resolve outputBaseDir ++ [preset]) with
                      | Some Dir =>
                          sum_sizes (BuildImages.dir_size E) (fs w)
                            (resolve outputBaseDir ++ [preset])
                            (entries (resolve outputBaseDir ++ [preset]) (fs w))
                      | _ => 0
                      end) + acc)%N) 0%N names)%N, w).
Proof.
  revert total. induction names as [|preset names IH]; intros total Hnames.
  - cbn. by rewrite N.add_0_r.
  - destruct (Hnames preset) as [Hvalid Hnofile]; [left |].
    assert (∀ preset', preset' ∈ names →
              Path.valid_name preset' = true
              ∧ ∀ c, fs w !! (resolve outputBaseDir ++ [preset']) ≠ Some (File c)) as Hrest.
    { intros preset' Hin. apply Hnames. by right. }
    cbn [foldM foldr]. cbv zeta. unfold bind at 1. unfold bind at 1, existsSync.
    rewrite (resolve_join _ _ Hvalid).
    destruct (fs w !! (resolve outputBaseDir ++ [preset])) as [[c|]|] eqn:Hkey.
    + by destruct (Hnofile c).
    + rewrite bool_decide_eq_true_2 by eauto.
      unfold bind at 1, readdirSync. rewrite (resolve_join _ _ Hvalid), Hkey.
      rewrite stat_loop_sum.
      * rewrite (resolve_join _ _ Hvalid), IH by done. by rewrite N.add_assoc.
      * intros file Hin. rewrite (resolve_join _ _ Hvalid). by apply entries_spec.
    + rewrite bool_decide_eq_false_2 by by intros [? ?].
      cbn [ret]. rewrite IH by done. by rewrite N.add_0_l.
Qed.

Lemma showSizeComparison_run (sourceDir outputBaseDir : string) (w : world) :
  fs w !! resolve sourceDir = Some Dir →
  (∀ preset c, preset ∈ BuildImages.configs.*1 →
               fs w !! (resolve outputBaseDir ++ [preset]) ≠ Some (File c)) →
  BuildImages.showSizeComparison E sourceDir outputBaseDir w
  = (Ok tt,
     {| fs := fs w;
        console :=
          console w
          ++ size_report E
               (original_total (BuildImages.dir_size E) (fs w) (resolve sourceDir))
               (optimized_total (BuildImages.dir_size E) (fs w) (resolve outputBaseDir));
        shell := shell w |}).
Proof.
  intros Hsrc Hpresets. unfold BuildImages.showSizeComparison.
  unfold bind at 1. cbn [console_log].
  unfold bind at 1, readdirSync. cbn [fs]. rewrite Hsrc.
  unfold bind at 1. rewrite stat_loop_sum; cbn [fs].
  - unfold bind at 1. rewrite preset_loop_sum; cbn [fs].
    + rewrite !N.add_0_l. cbv zeta. unfold bind, console_log. cbn.
      by rewrite <- !app_assoc.
    + intros preset Hin. split; [by apply preset_name_valid | intros c; by apply Hpresets].
  - intros file [_ Hin]%list_elem_of_filter. by apply entries_spec.
Qed.

End SizeReport.



(** ** Whole runs of the local optimizer *)

Section LocalRuns.
Import Sys Hoare Inv Layout.
Context (E : BuildImages.env).

Lemma prefix_snoc_below (a b : list string) (x y : string) :
  a ++ [x] `prefix_of` b ++ [y] → a `prefix_of` b.
Proof.
  intros [r Hr]. destruct r as [|z r _] using rev_ind.
  - rewrite app_nil_r in Hr. by apply app_inj_tail in Hr as [-> _].
  - rewrite !app_assoc in Hr. apply app_inj_tail in Hr as [-> _].
    exists ([x] ++ r). by rewrite app_assoc.
Qed.

(** A run that gets through its set-up completes; its last steps are the
    manifest, three lines and the size report. *)
Lemma createOptimizedImages_run (sourceDir outputBaseDir : string) (w : world) :
  BuildImages.convert_version_ok E = true →
  fs w !! resolve sourceDir = Some Dir →
  (∀ preset k c, preset ∈ BuildImages.configs.*1 →
                 k `prefix_of` resolve outputBaseDir ++ [preset] →
                 fs w !! k ≠ Some (File c)) →
  fs w !! (resolve outputBaseDir ++ ["image-manifest.json"]) ≠ Some Dir →
  ∃ imageFiles w1 state w2,
    BuildImages.prepare E sourceDir outputBaseDir w = (Ok imageFiles, w1)
    ∧ imageFiles
      = filter (λ file, is_image file = true) (entries (resolve sourceDir) (fs w1))
    ∧ BuildImages.processImages E sourceDir outputBaseDir imageFiles w1 = (Ok state, w2)
    ∧ state.1 = length imageFiles
    ∧ let t := <[resolve outputBaseDir ++ ["image-manifest.json"]
                 := File (Json.stringify (Json.Obj state.2))]> (fs w2) in
      BuildImages.createOptimizedImages E sourceDir outputBaseDir w
      = (Ok tt,
         {| fs := t;
            console :=
              console w2
              ++ [ Out (Str.nl +:+ "Optimization complete!");
                   Out ("Processed " +:+ pretty (length imageFiles) +:+ " images");
                   Out ("Manifest saved to: "
                        +:+ Path.join outputBaseDir "image-manifest.json") ]
              ++ size_report E
                   (original_total (BuildImages.dir_size E) t (resolve sourceDir))
                   (optimized_total (BuildImages.dir_size E) t (resolve outputBaseDir));
            shell := shell w2 |}).
Proof.
  intros Hok Hsrc Hfree Hmanifest.
  destruct (prepare_run E sourceDir outputBaseDir w Hok Hsrc Hfree)
    as (w1 & Hprepare & Hgrows & Hdirs & Hpresets & _ & _).
  set (imageFiles := filter _ _) in Hprepare.
  destruct (processImages_spec E sourceDir outputBaseDir imageFiles w1 w1 eq_refl)
    as (state & w2 & Hprocess & Hcount & Hext & _).
  exists imageFiles, w1, state, w2.
  split; [done |]. split; [done |]. split; [done |]. split; [done |]. cbv zeta.
  assert (fs w2 !! (resolve outputBaseDir ++ ["image-manifest.json"]) ≠ Some Dir)
    as Hmanifest2.
  { intros Hdir%Hext. apply Hdirs in Hdir as [Hold | (preset & Hpreset & Hprefix)];
      [done |].
    apply prefix_snoc_same in Hprefix as <-. by apply manifest_not_preset. }
  unfold BuildImages.createOptimizedImages.
  rewrite (bind_ok _ _ _ _ _ Hprepare), (bind_ok _ _ _ _ _ Hprocess). cbv zeta.
  unfold bind at 1, writeFileSync. rewrite resolve_manifest.
  set (t := <[_ := _]> (fs w2)).
  assert (∀ k, fs w2 !! k = Some Dir → t !! k = Some Dir) as Hdirs2.
  { intros k Hk. unfold t. rewrite lookup_insert_ne; [done |]. by intros <-. }
  assert (∀ wc, fs wc = t →
            BuildImages.showSizeComparison E sourceDir outputBaseDir wc
            = (Ok tt,
               {| fs := t;
                  console :=
                    console wc
                    ++ size_report E
                         (original_total (BuildImages.dir_size E) t (resolve sourceDir))
                         (optimized_total (BuildImages.dir_size E) t
                            (resolve outputBaseDir));
                  shell := shell wc |})) as Hreport.
  { intros wc Hwc. rewrite showSizeComparison_run; rewrite Hwc; [done | ..].
    - apply Hdirs2, Hext. by apply Hgrows.
    - intros preset c Hin. by rewrite (Hdirs2 _ (proj1 (proj1 (Hext _)) (Hpresets _ Hin))). }
  assert (∀ wb : world,
            fs wb = t → console wb = console w2 → shell wb = shell w2 →
            bind (console_log (Str.nl +:+ "Optimization complete!"))
              (λ _, bind (console_log ("Processed " +:+ pretty state.1 +:+ " images"))
                      (λ _, bind (console_log
                                    ("Manifest saved to: "
                                     +:+ Path.join outputBaseDir "image-manifest.json"))
                              (λ _, BuildImages.showSizeComparison E sourceDir
                                      outputBaseDir))) wb
            = (Ok tt,
               {| fs := t;
                  console :=
                    console w2
                    ++ [ Out (Str.nl +:+ "Optimization complete!");
                         Out ("Processed " +:+ pretty (length imageFiles) +:+ " images");
                         Out ("Manifest saved to: "
                              +:+ Path.join outputBaseDir "image-manifest.json") ]
                    ++ size_report E
                         (original_total (BuildImages.dir_size E) t (resolve sourceDir))
                         (optimized_total (BuildImages.dir_size E) t
                            (resolve outputBaseDir));
                  shell := shell w2 |})) as Htail.
  { intros wb Hfs Hconsole Hshell.
    unfold bind at 1. cbn [console_log]. unfold bind at 1. cbn [console_log].
    unfold bind at 1. cbn [console_log]. rewrite Hreport by done.
    cbn [console shell]. rewrite Hconsole, Hshell, Hcount.
    by rewrite <- !app_assoc. }
  destruct (fs w2 !! (resolve outputBaseDir ++ ["image-manifest.json"])) as [[c|]|];
    [| done |]; by apply Htail.
Qed.

End LocalRuns.

Section EmptyInput.
Import Sys Hoare Inv Layout.

Lemma filter_none {A} (P : A → Prop) `{!∀ x, Decision (P x)} (l : list A) :
  (∀ x, x ∈ l → ¬ P x) → filter P l = [].
Proof.
  intros Hnone. apply elem_of_nil_inv. intros x [HP Hin]%list_elem_of_filter.
  by apply (Hnone x).
Qed.

Lemma no_image_entries (dir : list string) (t : tree) :
  (∀ name, is_image name = true → t !! (dir ++ [name]) = None) →
  filter (λ file, is_image file = true) (entries dir t) = [].
Proof.
  intros Hnone. apply filter_none. intros name [_ [n Hn]]%entries_spec Himage.
  by rewrite (Hnone name Himage) in Hn.
Qed.

End EmptyInput.





(** ** Images that share a stem *)

Section SameStem.
Import Sys Hoare Inv Layout Json.
Context (E : BuildImages.env).

(** A pair that succeeds wrote its two files, in this order. *)
Lemma optimizeImage_ok (outputBaseDir preset inputPath filename : string)
    (cfg : BuildImages.config) (w w' : world) (v : value) :
  (preset, cfg) ∈ BuildImages.configs →
  BuildImages.optimizeImage E inputPath (Path.join outputBaseDir preset) filename cfg w
  = (Ok v, w') →
  v ≠ Null →
  let dir := Path.join outputBaseDir preset in
  let webp_name := Path.parse_name filename +:+ BuildImages.suffix cfg +:+ ".webp" in
  let jpeg_name := Path.parse_name filename +:+ BuildImages.suffix cfg +:+ ".jpg" in
  let webp_key := resolve outputBaseDir ++ [preset; webp_name] in
  let jpeg_key := resolve outputBaseDir ++ [preset; jpeg_name] in
  ∃ webp jpeg,
    BuildImages.convert E (BuildImages.webp_command inputPath dir filename cfg) (fs w)
    = Exec_ok webp
    ∧ BuildImages.convert E (BuildImages.jpeg_command inputPath dir filename cfg)
        (<[webp_key := File webp]> (fs w)) = Exec_ok jpeg
    ∧ fs w' = <[jpeg_key := File jpeg]> (<[webp_key := File webp]> (fs w))
    ∧ v = Obj [("webp", Str (Path.join dir webp_name));
               ("jpeg", Str (Path.join dir jpeg_name))].
Proof.
  intros Hcfg Hrun Hv dir webp_name jpeg_name webp_key jpeg_key.
  rewrite optimizeImage_run in Hrun.
  cbn [cmd_output BuildImages.webp_command BuildImages.jpeg_command] in Hrun.
  destruct (encoded _ _ (fs w)) as [message | t1] eqn:Hwebp; [by injection Hrun as <- _ |].
  destruct (encoded _ _ t1) as [message | t2] eqn:Hjpeg; [by injection Hrun as <- _ |].
  injection Hrun as <- <-.
  apply encoded_inr in Hwebp as (webp & Hwebp & _ & ->).
  apply encoded_inr in Hjpeg as (jpeg & Hjpeg & _ & ->).
  rewrite !(local_output_key _ preset) in * by auto.
  by exists webp, jpeg.
Qed.

End SameStem.

(** X7.  Two images of the source directory that differ in their extension
    only ([a.jpg] and [a.png]) share their output files: for each preset the
    second conversion writes over the files of the first, the disk ends up
    as if the second image alone had been converted, and the manifest gives
    both images the same two paths.  The paths of the commands are plain. *)
Theorem same_stem_overwrites (E : BuildImages.env)
    (outputBaseDir preset input1 input2 file1 file2 : string) (cfg : BuildImages.config)
    (w w1 w2 : Sys.world) (v1 v2 : Json.value) :
  (preset, cfg) ∈ BuildImages.configs →
  Path.parse_name file1 = Path.parse_name file2 →
  Inv.plain_pair input1 (Path.join outputBaseDir preset) file1 cfg = true →
  Inv.plain_pair input2 (Path.join outputBaseDir preset) file2 cfg = true →
  BuildImages.optimizeImage E input1 (Path.join outputBaseDir preset) file1 cfg w
  = (Ok v1, w1) →
  v1 ≠ Json.Null →
  BuildImages.optimizeImage E input2 (Path.join outputBaseDir preset) file2 cfg w1
  = (Ok v2, w2) →
  v2 ≠ Json.Null →
  let dir := Path.join outputBaseDir preset in
  let webp_name := Path.parse_name file2 +:+ BuildImages.suffix cfg +:+ ".webp" in
  let jpeg_name := Path.parse_name file2 +:+ BuildImages.suffix cfg +:+ ".jpg" in
  let webp_key := Sys.resolve outputBaseDir ++ [preset; webp_name] in
  let jpeg_key := Sys.resolve outputBaseDir ++ [preset; jpeg_name] in
  v2 = v1
  ∧ ∃ webp jpeg,
      BuildImages.convert E (BuildImages.webp_command input2 dir file2 cfg) (Sys.fs w1)
      = Exec_ok webp
      ∧ BuildImages.convert E (BuildImages.jpeg_command input2 dir file2 cfg)
          (<[webp_key := File webp]> (Sys.fs w1)) = Exec_ok jpeg
      ∧ Sys.fs w2 = <[jpeg_key := File jpeg]> (<[webp_key := File webp]> (Sys.fs w)).
Proof.
  intros Hcfg Hstem _ _ Hrun1 Hv1 Hrun2 Hv2 dir webp_name jpeg_name webp_key jpeg_key.
  destruct (optimizeImage_ok E _ _ _ _ _ _ _ _ Hcfg Hrun1 Hv1)
    as (webp1 & jpeg1 & _ & _ & Hfs1 & ->).
  destruct (optimizeImage_ok E _ _ _ _ _ _ _ _ Hcfg Hrun2 Hv2)
    as (webp2 & jpeg2 & Hwebp2 & Hjpeg2 & Hfs2 & ->).
  rewrite Hstem in *. fold webp_name jpeg_name webp_key jpeg_key in Hfs1, Hfs2, Hjpeg2 |- *.
  split; [done |]. exists webp2, jpeg2. split; [done |]. split; [done |].
  rewrite Hfs2, Hfs1.
  assert (webp_key ≠ jpeg_key) as Hne.
  { unfold webp_key, jpeg_key, webp_name, jpeg_name. intros Heq%app_inv_head.
    injection Heq as Heq. by do 2 apply append_inv_head in Heq. }
  rewrite (insert_insert_ne _ webp_key jpeg_key) by done.
  by rewrite !insert_insert_eq.
Qed.

Lemma same_stem_overwrites_witness :
  let first :=
    BuildImages.optimizeImage Cases.convert_tags "pages/a.jpg" (Path.join "./out" "mobile")
      "a.jpg" Fixtures.mobile_local (Fixtures.world_of Cases.same_stem) in
  let second :=
    BuildImages.optimizeImage Cases.convert_tags "pages/a.png" (Path.join "./out" "mobile")
      "a.png" Fixtures.mobile_local first.2 in
  let v := Json.Obj [("webp", Json.Str "out/mobile/a-mobile.webp");
                     ("jpeg", Json.Str "out/mobile/a-mobile.jpg")] in
  v = v
  ∧ ∃ webp jpeg,
      BuildImages.convert Cases.convert_tags
        (BuildImages.webp_command "pages/a.png" (Path.join "./out" "mobile") "a.png"
           Fixtures.mobile_local) (Sys.fs first.2) = Exec_ok webp
      ∧ BuildImages.convert Cases.convert_tags
          (BuildImages.jpeg_command "pages/a.png" (Path.join "./out" "mobile") "a.png"
             Fixtures.mobile_local)
          (<[Sys.resolve "./out" ++ ["mobile"; "a" +:+ "-mobile" +:+ ".webp"]
             := File webp]> (Sys.fs first.2)) = Exec_ok jpeg
      ∧ Sys.fs second.2
        = <[Sys.resolve "./out" ++ ["mobile"; "a" +:+ "-mobile" +:+ ".jpg"] := File jpeg]>
            (<[Sys.resolve "./out" ++ ["mobile"; "a" +:+ "-mobile" +:+ ".webp"]
               := File webp]> Cases.same_stem).
Proof.
  intros first second v.
  apply (same_stem_overwrites Cases.convert_tags "./out" "mobile" "pages/a.jpg"
           "pages/a.png" "a.jpg" "a.png" Fixtures.mobile_local
           (Fixtures.world_of Cases.same_stem) first.2 second.2 v v).
  - left.
  - reflexivity.
  - reflexivity.
  - reflexivity.
  - apply run_eq. vm_compute. reflexivity.
  - discriminate.
  - apply run_eq. vm_compute. reflexivity.
  - discriminate.
Defined.

(** ** The packaging pipeline never fails aloud *)

Section NeverExits.
Import Sys Hoare Layout.

Lemma never_exits_ret {A} (a : A) : never_exits (ret a).
Proof. by intros w code. Qed.

Lemma never_exits_throw {A} (message : string) : never_exits (throw (A := A) message).
Proof. by intros w code. Qed.

Lemma never_exits_bind {A B} (m : M A) (k : A → M B) :
  never_exits m → (∀ a, never_exits (k a)) → never_exits (bind m k).
Proof.
  intros Hm Hk w code. unfold bind. specialize (Hm w).
  destruct (m w) as [[a | e | c] w1]; [apply Hk | done | by destruct (Hm c)].
Qed.

Lemma never_exits_try_catch {A} (m : M A) (handler : string → M A) :
  never_exits m → (∀ e, never_exits (handler e)) → never_exits (try_catch m handler).
Proof.
  intros Hm Hh w code. unfold try_catch. specialize (Hm w).
  destruct (m w) as [[a | e | c] w1]; [done | apply Hh | by destruct (Hm c)].
Qed.

Lemma never_exits_foldM {S A} (f : S → A → M S) (l : list A) (s : S) :
  (∀ s x, never_exits (f s x)) → never_exits (foldM f s l).
Proof.
  intros Hf. revert s. induction l as [|x l IH]; intros s; [apply never_exits_ret |].
  simpl. apply never_exits_bind; auto.
Qed.

Lemma never_exits_forEach {A} (f : A → M unit) (l : list A) :
  (∀ x, never_exits (f x)) → never_exits (forEach f l).
Proof. intros Hf. apply never_exits_foldM. auto. Qed.

Lemma never_exits_console_log (text : string) : never_exits (console_log text).
Proof. by intros w code. Qed.

Lemma never_exits_console_error (text : string) : never_exits (console_error text).
Proof. by intros w code. Qed.

Lemma never_exits_existsSync (p : string) : never_exits (existsSync p).
Proof. by intros w code. Qed.

Lemma never_exits_mkdirSync (p : string) : never_exits (mkdirSync p).
Proof. intros w code. unfold mkdirSync. by destruct (mkdir_from _ _ _). Qed.

Lemma never_exits_rmSync (p : string) : never_exits (rmSync p).
Proof. intros w code. unfold rmSync. by destruct (fs w !! _). Qed.

Lemma never_exits_readdirSync (p : string) : never_exits (readdirSync p).
Proof. intros w code. unfold readdirSync. by destruct (fs w !! _) as [[c|]|]. Qed.

Lemma never_exits_readFileSync (p : string) : never_exits (readFileSync p).
Proof. intros w code. unfold readFileSync. by destruct (fs w !! _) as [[c|]|]. Qed.

Lemma never_exits_writeFileSync (p content : string) :
  never_exits (writeFileSync p content).
Proof. intros w code. unfold writeFileSync. by destruct (fs w !! _) as [[c|]|]. Qed.

Lemma never_exits_copyFileSync (src dst : string) : never_exits (copyFileSync src dst).
Proof.
  intros w code. unfold copyFileSync.
  destruct (fs w !! resolve src) as [[c|]|]; [|done..].
  by destruct (fs w !! resolve dst) as [[c'|]|].
Qed.

Lemma never_exits_sharp_toFile (E : BuildCloudflare.env) (webp : bool)
    (input output : string) (cfg : BuildCloudflare.config) :
  never_exits (BuildCloudflare.sharp_toFile E webp input cfg output).
Proof.
  intros w code. unfold BuildCloudflare.sharp_toFile, write_encoded.
  by destruct (encoded _ _ _).
Qed.

End NeverExits.

Ltac never_exits_step :=
  lazymatch goal with
  | |- Layout.never_exits (Sys.bind _ _) => apply never_exits_bind; [|intros ?]
  | |- Layout.never_exits (Sys.foldM _ _ _) => apply never_exits_foldM; intros ? ?
  | |- Layout.never_exits (Sys.forEach _ _) => apply never_exits_forEach; intros ?
  | |- Layout.never_exits (Sys.try_catch _ _) => apply never_exits_try_catch; [|intros ?]
  | |- Layout.never_exits (if ?b then _ else _) => destruct b
  | |- Layout.never_exits (Sys.ret _) => apply never_exits_ret
  | |- Layout.never_exits (Sys.throw _) => apply never_exits_throw
  | |- Layout.never_exits (Sys.console_log _) => apply never_exits_console_log
  | |- Layout.never_exits (Sys.console_error _) => apply never_exits_console_error
  | |- Layout.never_exits (Sys.existsSync _) => apply never_exits_existsSync
  | |- Layout.never_exits (Sys.mkdirSync _) => apply never_exits_mkdirSync
  | |- Layout.never_exits (Sys.rmSync _) => apply never_exits_rmSync
  | |- Layout.never_exits (Sys.readdirSync _) => apply never_exits_readdirSync
  | |- Layout.never_exits (Sys.readFileSync _) => apply never_exits_readFileSync
  | |- Layout.never_exits (Sys.writeFileSync _ _) => apply never_exits_writeFileSync
  | |- Layout.never_exits (Sys.copyFileSync _ _) => apply never_exits_copyFileSync
  | |- Layout.never_exits (BuildCloudflare.sharp_toFile _ _ _ _ _) =>
      apply never_exits_sharp_toFile
  | |- Layout.never_exits (BuildCloudflare.require_sharp _) =>
      unfold BuildCloudflare.require_sharp
  | |- Layout.never_exits (BuildCloudflare.optimizeWithSharp _ _ _ _ _) =>
      unfold BuildCloudflare.optimizeWithSharp
  | |- Layout.never_exits (BuildCloudflare.updateHtmlForOptimizedImages _ _) =>
      unfold BuildCloudflare.updateHtmlForOptimizedImages
  | |- Layout.never_exits (BuildCloudflare.createHeadersFile _) =>
      unfold BuildCloudflare.createHeadersFile
  | |- Layout.never_exits (BuildCloudflare.build _ _ _) =>
      unfold BuildCloudflare.build
  | |- Layout.never_exits (BuildCloudflare.buildForCloudflare _) =>
      unfold BuildCloudflare.buildForCloudflare
  end.

Lemma buildForCloudflare_never_exits (E : BuildCloudflare.env) :
  Layout.never_exits (BuildCloudflare.buildForCloudflare E).
Proof. repeat never_exits_step. Qed.

(** X8.  The packaging script always ends normally: nothing in it calls
    [process.exit], and an error thrown anywhere in [buildForCloudflare] is
    caught at the top and handed to [console.error], which prints what
    [util.inspect] makes of it; so a failed build is reported on the error
    stream only, not by the exit status. *)
Theorem pipeline_never_fails (E : BuildCloudflare.env) (w : Sys.world) :
  (BuildCloudflare.main E w).1 = Ok tt
  ∧ ((BuildCloudflare.buildForCloudflare E w).1 = Ok tt
     ∨ ∃ message w',
         BuildCloudflare.buildForCloudflare E w = (Throw message, w')
         ∧ (BuildCloudflare.main E w).2
           = {| Sys.fs := Sys.fs w';
                Sys.console :=
                  Sys.console w' ++ [Err (BuildCloudflare.inspect E message)];
                Sys.shell := Sys.shell w' |}).
Proof.
  pose proof (buildForCloudflare_never_exits E w) as Hexit.
  unfold BuildCloudflare.main, Sys.try_catch.
  destruct (BuildCloudflare.buildForCloudflare E w) as [[[] | message | code] w'].
  - split; [done | by left].
  - split; [done |]. right. by exists message, w'.
  - by destruct (Hexit code).
Qed.

(** ** A build that cannot read the page *)

Section Cleaning.
Import Sys Hoare Inv Layout.
Context (E : BuildCloudflare.env).

Lemma outside_dist_lookup (t : tree) (k : list string) :
  outside_dist t !! k = if decide (below ["dist"] k) then None else t !! k.
Proof.
  unfold outside_dist. destruct (decide (below ["dist"] k)) as [Hk | Hk].
  - apply map_lookup_filter_None. right. intros x _ Hn. by apply Hn.
  - destruct (t !! k) as [x|] eqn:Hx.
    + by apply map_lookup_filter_Some.
    + apply map_lookup_filter_None. by left.
Qed.

(** [buildForCloudflare] removes [dist], then builds. *)
Lemma buildForCloudflare_cleans (w : world) :
  dist_parented (fs w) →
  ∃ w0, fs w0 = outside_dist (fs w)
        ∧ BuildCloudflare.buildForCloudflare E w
          = BuildCloudflare.build E "./dist" "./flipbook-v2" w0.
Proof.
  intros Hparented. unfold BuildCloudflare.buildForCloudflare. cbv zeta.
  unfold bind at 1. cbn [console_log]. unfold bind at 1. cbn [existsSync fs].
  change (resolve "./dist") with ["dist"].
  destruct (decide (is_Some (fs w !! ["dist"]))) as [Hdist | Hdist].
  - rewrite bool_decide_eq_true_2 by done. unfold bind at 1, rmSync.
    change (resolve "./dist") with ["dist"]. cbn [fs].
    destruct Hdist as [v ->]. eexists. split; [|reflexivity]. reflexivity.
  - rewrite bool_decide_eq_false_2 by done. unfold bind at 1. cbn [ret].
    eexists. split; [|reflexivity]. cbn [fs]. symmetry. apply outside_dist_fixed.
    intros k Hk. apply eq_None_not_Some. intros Hsome. by apply Hdist, (Hparented k).
Qed.

End Cleaning.

(** X9.  When [flipbook-v2/index.html] is not a regular file, the build
    fails at its first copy, after the previous [dist] has been removed and
    an empty one created: the script prints what [util.inspect] makes of the
    error, ends normally and leaves an empty [dist]; the earlier build is
    lost.  The file system is one where nothing lies below a missing
    [dist]. *)
Theorem missing_page_empties_dist (E : BuildCloudflare.env) (w : Sys.world) :
  Inv.dist_parented (Sys.fs w) →
  (∀ c, Sys.fs w !! ["flipbook-v2"; "index.html"] ≠ Some (File c)) →
  ∃ message w',
    BuildCloudflare.buildForCloudflare E w = (Throw message, w')
    ∧ BuildCloudflare.main E w
      = (Ok tt, {| Sys.fs := Sys.fs w';
                   Sys.console :=
                     Sys.console w' ++ [Err (BuildCloudflare.inspect E message)];
                   Sys.shell := Sys.shell w' |})
    ∧ Sys.fs w' = <[["dist"] := Dir]> (Inv.outside_dist (Sys.fs w)).
Proof.
  intros Hparented Hpage.
  destruct (buildForCloudflare_cleans E w Hparented) as (w0 & Hw0 & Hrun).
  assert (∃ message,
            BuildCloudflare.build E "./dist" "./flipbook-v2" w0
            = (Throw message,
               {| Sys.fs := <[["dist"] := Dir]> (Sys.fs w0);
                  Sys.console := Sys.console w0 ++ [Out "Copying static files..."];
                  Sys.shell := Sys.shell w0 |})) as [message Hbuild].
  { unfold BuildCloudflare.build. cbv zeta.
    unfold Sys.bind at 1, Sys.mkdirSync. change (Sys.resolve "./dist") with ["dist"].
    cbn [Sys.mkdir_from app]. rewrite Hw0, outside_dist_lookup_dist. cbn [Sys.set_fs].
    unfold Sys.bind at 1. cbn [Sys.console_log Sys.fs Sys.console Sys.shell Sys.set_fs].
    unfold Sys.bind at 1, Sys.copyFileSync. cbn [Sys.fs].
    change (Sys.resolve (Path.join "./flipbook-v2" "index.html"))
      with ["flipbook-v2"; "index.html"].
    rewrite lookup_insert_ne by done. rewrite outside_dist_lookup.
    rewrite decide_False by (intros H; by apply prefix_cons_inv_1 in H).
    destruct (Sys.fs w !! ["flipbook-v2"; "index.html"]) as [[c|]|] eqn:Hk.
    - by destruct (Hpage c).
    - by eexists.
    - by eexists. }
  exists message. eexists. rewrite Hrun. split; [exact Hbuild |].
  split; [|by rewrite Hw0].
  unfold BuildCloudflare.main, Sys.try_catch. by rewrite Hrun, Hbuild.
Qed.

Lemma missing_page_empties_dist_witness :
  ∃ message w',
    BuildCloudflare.buildForCloudflare Fixtures.sharp_works
      (Fixtures.world_of Cases.pageless_site) = (Throw message, w')
    ∧ BuildCloudflare.main Fixtures.sharp_works (Fixtures.world_of Cases.pageless_site)
      = (Ok tt, {| Sys.fs := Sys.fs w';
                   Sys.console :=
                     Sys.console w'
                     ++ [Err (BuildCloudflare.inspect Fixtures.sharp_works message)];
                   Sys.shell := Sys.shell w' |})
    ∧ Sys.fs w'
      = <[["dist"] := Dir]>
          (Inv.outside_dist (Sys.fs (Fixtures.world_of Cases.pageless_site))).
Proof.
  apply (missing_page_empties_dist Fixtures.sharp_works
           (Fixtures.world_of Cases.pageless_site)).
  - intros k _ _. exists Dir. reflexivity.
  - intros c. vm_compute. discriminate.
Defined.

(** ** The stages of a build *)

Section PipelineStages.
Import Sys Hoare Inv Layout Stages.
Context (E : BuildCloudflare.env).

Lemma copyFileSync_ok (src dst c : string) (w : world) :
  fs w !! resolve src = Some (File c) →
  fs w !! resolve dst ≠ Some Dir →
  copyFileSync src dst w = (Ok tt, set_fs (<[resolve dst := File c]> (fs w)) w).
Proof.
  intros Hsrc Hdst. unfold copyFileSync. rewrite Hsrc.
  by destruct (fs w !! resolve dst) as [[c'|]|].
Qed.

Lemma writeFileSync_ok (p content : string) (w : world) :
  fs w !! resolve p ≠ Some Dir →
  writeFileSync p content w = (Ok tt, set_fs (<[resolve p := File content]> (fs w)) w).
Proof. intros Hp. unfold writeFileSync. by destruct (fs w !! resolve p) as [[c'|]|]. Qed.

Lemma use_sharp_run (w : world) :
  try_catch
    (bind (BuildCloudflare.require_sharp E)
       (λ _, bind (console_log "Using Sharp for image optimization...")
               (λ _, ret true)))
    (λ _, bind (console_log "Sharp not available, copying original images...")
            (λ _, ret false)) w
  = (Ok (BuildCloudflare.sharp_available E),
     {| fs := fs w;
        console :=
          console w
          ++ [Out (if BuildCloudflare.sharp_available E
                   then "Using Sharp for image optimization..."
                   else "Sharp not available, copying original images...")];
        shell := shell w |}).
Proof.
  unfold try_catch, bind, BuildCloudflare.require_sharp.
  by destruct (BuildCloudflare.sharp_available E).
Qed.

Lemma staged_lookup_outside (html : string) (t : tree) (k : list string) :
  ¬ below ["dist"] k → staged html t !! k = t !! k.
Proof.
  intros Hk. unfold staged.
  rewrite !lookup_insert_ne; [done | intros <-; apply Hk; by eexists..].
Qed.

(** A build over a clean state, up to the loop over the images. *)
Lemma build_staged (w0 : world) (html : string) :
  (∀ k, below ["dist"] k → fs w0 !! k = None) →
  fs w0 !! ["flipbook-v2"; "index.html"] = Some (File html) →
  fs w0 !! ["flipbook-v2"; "pages"] = Some Dir →
  ∃ w4,
    fs w4 = staged html (fs w0)
    ∧ console w0 `prefix_of` console w4
    ∧ BuildCloudflare.build E "./dist" "./flipbook-v2" w0
      = bind (optimizeOrCopy E (BuildCloudflare.sharp_available E)
                (filter (λ file, is_image file = true)
                   (entries ["flipbook-v2"; "pages"] (staged html (fs w0)))))
          (λ _, finish (BuildCloudflare.sharp_available E)) w4.
Proof.
  intros Hclean Hpage Hpages. unfold BuildCloudflare.build. cbv zeta.
  unfold bind at 1, mkdirSync. change (resolve "./dist") with ["dist"].
  cbn [mkdir_from app]. rewrite (Hclean ["dist"]) by done.
  unfold bind at 1. cbn [console_log fs console shell set_fs].
  unfold bind at 1. erewrite copyFileSync_ok; cycle 1.
  { cbn [fs]. change (resolve (Path.join "./flipbook-v2" "index.html"))
      with ["flipbook-v2"; "index.html"].
    by rewrite lookup_insert_ne. }
  { cbn [fs]. change (resolve (Path.join "./dist" "index.html"))
      with ["dist"; "index.html"].
    rewrite lookup_insert_ne by done. rewrite Hclean; [done | by eexists]. }
  change (resolve (Path.join "./dist" "index.html")) with ["dist"; "index.html"].
  cbn [fs console shell set_fs].
  unfold bind at 1, mkdirSync.
  change (resolve (Path.join "./dist" "pages")) with ["dist"; "pages"].
  cbn [mkdir_from app fs set_fs console shell].
  rewrite lookup_insert_ne by done. rewrite lookup_insert_eq.
  rewrite (insert_id _ ["dist"] Dir)
    by (rewrite lookup_insert_ne by done; by rewrite lookup_insert_eq).
  rewrite !lookup_insert_ne by done. rewrite (Hclean ["dist"; "pages"]) by by eexists.
  cbn [set_fs fs console shell].
  unfold bind at 1. rewrite use_sharp_run. cbn [fs console shell set_fs].
  unfold bind at 1, readdirSync. cbn [fs set_fs].
  change (resolve (Path.join "./flipbook-v2" "pages")) with ["flipbook-v2"; "pages"].
  fold (staged html (fs w0)).
  rewrite staged_lookup_outside by (intros H; by apply prefix_cons_inv_1 in H).
  rewrite Hpages. unfold bind at 1. cbn [console_log fs console shell set_fs].
  eexists. split; [|split; [|reflexivity]]; cbn [fs console].
  - reflexivity.
  - rewrite <- !app_assoc. by apply prefix_app_r.
Qed.

Lemma finish_run (useSharp : bool) (html : string) (w : world) :
  fs w !! ["dist"; "index.html"] = Some (File html) →
  Utf8.well_formed html = true →
  fs w !! ["dist"; "_headers"] ≠ Some Dir →
  ∃ w',
    finish useSharp w = (Ok tt, w')
    ∧ fs w'
      = <[["dist"; "_headers"] := File BuildCloudflare.headersContent]>
          (<[["dist"; "index.html"] :=
               File (if useSharp
                     then Js.replace BuildCloudflare.slide_regex
                            BuildCloudflare.picture_template html
                     else html)]> (fs w))
    ∧ console w `prefix_of` console w'.
Proof.
  intros Hpage Htext Hheaders. unfold finish.
  unfold bind at 1. rewrite (updateHtml_run _ _ _ Hpage), (scrub_well_formed _ Htext).
  unfold bind at 1, BuildCloudflare.createHeadersFile.
  rewrite writeFileSync_ok; cycle 1.
  { change (resolve (Path.join "./dist" "_headers")) with ["dist"; "_headers"].
    cbn [fs set_fs]. by rewrite lookup_insert_ne. }
  change (resolve (Path.join "./dist" "_headers")) with ["dist"; "_headers"].
  cbn [console_log fs console shell set_fs].
  eexists. split; [reflexivity |]. split; [done |]. by apply prefix_app_r.
Qed.

End PipelineStages.

(** ** Builds that copy the images *)

Section CopyLoops.
Import Sys Hoare Inv Layout Stages.
Context (E : BuildCloudflare.env).

Lemma resolve_source_page (file : string) :
  Path.valid_name file = true →
  resolve (Path.join (Path.join "./flipbook-v2" "pages") file)
  = ["flipbook-v2"; "pages"; file].
Proof. intros Hvalid. by rewrite resolve_join. Qed.

Lemma resolve_dist_page (file : string) :
  Path.valid_name file = true →
  resolve (Path.join (Path.join "./dist" "pages") file) = ["dist"; "pages"; file].
Proof. intros Hvalid. by rewrite resolve_join. Qed.

Lemma copies_of_nil (t3 : tree) : copies_of [] t3 t3.
Proof. split; [done |]. by intros file Hin%elem_of_nil. Qed.

Lemma copies_of_ext (seen seen' : list string) (t3 t : tree) :
  (∀ file, file ∈ seen ↔ file ∈ seen') → copies_of seen t3 t → copies_of seen' t3 t.
Proof.
  intros Hsame [Hrest Hcopies]. split.
  - intros k Hk. apply Hrest. intros file Hin. by apply Hk, Hsame.
  - intros file Hin. by apply Hcopies, Hsame.
Qed.

Lemma copies_of_step (seen : list string) (file c : string) (t3 t : tree) :
  copies_of seen t3 t →
  t3 !! ["flipbook-v2"; "pages"; file] = Some (File c) →
  copies_of (seen ++ [file]) t3 (<[["dist"; "pages"; file] := File c]> t).
Proof.
  intros [Hrest Hcopies] Hsrc. split.
  - intros k Hk. rewrite lookup_insert_ne.
    + apply Hrest. intros file' Hin. apply Hk, elem_of_app. by left.
    + intros <-. apply (Hk file); [|done]. apply elem_of_app. right. by left.
  - intros file' Hin. destruct (decide (file' = file)) as [-> | Hne].
    + by rewrite lookup_insert_eq.
    + rewrite lookup_insert_ne by congruence.
      apply Hcopies. apply elem_of_app in Hin as [Hin | Hin%list_elem_of_singleton]; done.
Qed.

(** One copy of an image into a [dist/pages] that holds copies only. *)
Lemma copy_one (seen : list string) (file c : string) (t3 : tree) (w : world) :
  Path.valid_name file = true →
  t3 !! ["flipbook-v2"; "pages"; file] = Some (File c) →
  (∀ name, t3 !! ["dist"; "pages"; name] = None) →
  copies_of seen t3 (fs w) →
  copyFileSync (Path.join (Path.join "./flipbook-v2" "pages") file)
    (Path.join (Path.join "./dist" "pages") file) w
  = (Ok tt, set_fs (<[["dist"; "pages"; file] := File c]> (fs w)) w)
  ∧ copies_of (seen ++ [file]) t3 (<[["dist"; "pages"; file] := File c]> (fs w)).
Proof.
  intros Hvalid Hsrc Hempty Hcopies. split; [|by apply copies_of_step].
  destruct Hcopies as [Hrest Hcopies].
  rewrite (copyFileSync_ok _ _ c).
  - by rewrite resolve_dist_page.
  - rewrite resolve_source_page by done. by rewrite Hrest.
  - rewrite resolve_dist_page by done.
    destruct (decide (file ∈ seen)) as [Hin | Hin].
    + by rewrite (Hcopies _ Hin), Hsrc.
    + rewrite Hrest, Hempty; [done |]. intros file' Hin' [= ->]. done.
Qed.

(** The loop without Sharp: every image is copied. *)
Lemma copy_loop (files : list string) (t3 : tree) (w : world) :
  (∀ file, file ∈ files →
           Path.valid_name file = true
           ∧ ∃ c, t3 !! ["flipbook-v2"; "pages"; file] = Some (File c)) →
  (∀ name, t3 !! ["dist"; "pages"; name] = None) →
  fs w = t3 →
  ∃ w', optimizeOrCopy E false files w = (Ok tt, w')
        ∧ copies_of files t3 (fs w')
        ∧ console w' = console w.
Proof.
  intros Hfiles Hempty Hfs. unfold optimizeOrCopy. cbv zeta.
  pose (I := λ (seen : list string) (_ : unit) (w' : world),
          copies_of seen t3 (fs w') ∧ console w' = console w).
  destruct (hoare_foldM
              (λ _ filename,
                 copyFileSync (Path.join (Path.join "./flipbook-v2" "pages") filename)
                   (Path.join (Path.join "./dist" "pages") filename))
              I files tt) with (w := w) as ([] & w' & Hrun & Hcopies & Hconsole).
  - intros seen file post [] Hsplit w1 [Hcopies Hconsole].
    destruct (Hfiles file) as (Hvalid & c & Hsrc).
    { rewrite Hsplit. apply elem_of_app. right. by left. }
    destruct (copy_one seen file c t3 w1 Hvalid Hsrc Hempty Hcopies) as [Hrun Hcopies'].
    eexists tt, _. split; [exact Hrun |]. by split.
  - split; [|done]. rewrite Hfs. apply copies_of_nil.
  - by exists w'.
Qed.

(** The loop with a Sharp that fails on every WebP output: each of the
    three attempts per image ends in the same copy. *)
Lemma fallback_loop (files : list string) (t3 : tree) (w : world) :
  BuildCloudflare.sharp_available E = true →
  (∀ input width quality t,
     ∃ message, BuildCloudflare.sharp E true input width quality t = Exec_fail message) →
  (∀ file, file ∈ files →
           Path.valid_name file = true
           ∧ ∃ c, t3 !! ["flipbook-v2"; "pages"; file] = Some (File c)) →
  (∀ name, t3 !! ["dist"; "pages"; name] = None) →
  fs w = t3 →
  ∃ w', optimizeOrCopy E true files w = (Ok tt, w')
        ∧ copies_of files t3 (fs w')
        ∧ console w `prefix_of` console w'
        ∧ ∀ file, file ∈ files →
            ∃ message,
              Err ("Error processing " +:+ file +:+ " with Sharp: " +:+ message)
              ∈ console w'.
Proof.
  intros Havailable Hfails Hfiles Hempty Hfs. unfold optimizeOrCopy. cbv zeta.
  pose (logged := λ (file : string) (w' : world),
          ∃ message,
            Err ("Error processing " +:+ file +:+ " with Sharp: " +:+ message)
            ∈ console w').
  pose (I := λ (seen : list string) (_ : unit) (w' : world),
          copies_of seen t3 (fs w') ∧ console w `prefix_of` console w'
          ∧ ∀ file, file ∈ seen → logged file w').
  assert (∀ seen file w1,
            file ∈ files → I seen tt w1 →
            ∃ w2,
              bind (console_log ("Optimizing " +:+ file +:+ "..."))
                (λ _, forEach
                        (λ entry : string * BuildCloudflare.config,
                           bind (BuildCloudflare.optimizeWithSharp E
                                   (Path.join (Path.join "./flipbook-v2" "pages") file)
                                   (Path.join "./dist" "pages") file entry.2)
                             (λ _, ret tt))
                        BuildCloudflare.configs) w1
              = (Ok tt, w2)
              ∧ I (seen ++ [file]) tt w2) as Hstep.
  { intros seen file w1 Hin (Hcopies & Hconsole & Hlogged).
    destruct (Hfiles file Hin) as (Hvalid & c & Hsrc).
    unfold bind at 1. cbn [console_log].
    set (w1' := {| fs := fs w1;
                   console := console w1 ++ [Out ("Optimizing " +:+ file +:+ "...")];
                   shell := shell w1 |}).
    pose (J := λ (presets : list (string * BuildCloudflare.config)) (_ : unit)
                 (w' : world),
            copies_of (seen ++ map (λ _, file) presets) t3 (fs w')
            ∧ console w1' `prefix_of` console w'
            ∧ (presets ≠ [] → logged file w')).
    destruct (hoare_foldM
                (λ _ (entry : string * BuildCloudflare.config),
                   bind (BuildCloudflare.optimizeWithSharp E
                           (Path.join (Path.join "./flipbook-v2" "pages") file)
                           (Path.join "./dist" "pages") file entry.2)
                     (λ _, ret tt))
                J BuildCloudflare.configs tt) with (w := w1')
      as ([] & w2 & Hrun & Hcopies2 & Hconsole2 & Hlogged2).
    - intros presets entry post [] _ wa (Hcopiesa & Hconsolea & Hloggeda).
      unfold bind at 1. rewrite optimizeWithSharp_run, Havailable. cbv zeta.
      destruct (Hfails (Path.join (Path.join "./flipbook-v2" "pages") file)
                  (BuildCloudflare.width entry.2) (BuildCloudflare.quality entry.2)
                  (fs wa)) as [message ->].
      cbn [encoded]. unfold bind at 1. cbn [console_error].
      unfold bind at 1.
      match goal with
      | |- context [copyFileSync _ _ ?wb] =>
          destruct (copy_one (seen ++ map (λ _, file) presets) file c t3 wb Hvalid Hsrc
                      Hempty Hcopiesa) as [Hrun Hcopies']
      end.
      rewrite Hrun. cbn [ret fs console shell set_fs].
      eexists tt, _. split; [reflexivity |]. cbn [fs console].
      split; [by rewrite map_app, app_assoc |].
      split; [etrans; [exact Hconsolea | by apply prefix_app_r] |].
      intros _. exists message. apply elem_of_app. right. by left.
    - split; [by rewrite app_nil_r |]. by split.
    - exists w2. split; [exact Hrun |].
      split.
      { eapply copies_of_ext; [|exact Hcopies2]. intros file'.
        unfold BuildCloudflare.configs. cbn [map].
        rewrite !elem_of_app, !elem_of_cons, elem_of_nil. tauto. }
      assert (console w1 `prefix_of` console w2) as Hgrow.
      { etrans; [|exact Hconsole2]. by apply prefix_app_r. }
      split; [by etrans |].
      intros file' [Hin' | ->%list_elem_of_singleton]%elem_of_app.
      + destruct (Hlogged file' Hin') as [message Hmessage]. exists message.
        destruct Hgrow as [more ->]. apply elem_of_app. by left.
      + by apply Hlogged2. }
  destruct (hoare_foldM
              (λ _ filename,
                 bind (console_log ("Optimizing " +:+ filename +:+ "..."))
                   (λ _, forEach
                           (λ entry : string * BuildCloudflare.config,
                              bind (BuildCloudflare.optimizeWithSharp E
                                      (Path.join (Path.join "./flipbook-v2" "pages")
                                         filename)
                                      (Path.join "./dist" "pages") filename entry.2)
                                (λ _, ret tt))
                           BuildCloudflare.configs))
              I files tt) with (w := w) as ([] & w' & Hrun & Hcopies & Hconsole & Hlogged).
  - intros seen file post [] Hsplit w1 HI.
    destruct (Hstep seen file w1) as (w2 & Hrun & HI'); [|done |].
    { rewrite Hsplit. apply elem_of_app. right. by left. }
    by exists tt, w2.
  - split; [rewrite Hfs; apply copies_of_nil |]. split; [done |].
    by intros file Hin%elem_of_nil.
  - by exists w'.
Qed.

End CopyLoops.

Section CopyingBuilds.
Import Sys Hoare Inv Layout Stages.
Context (E : BuildCloudflare.env).

Lemma staged_lookup_page (html : string) (t : tree) (name : string) :
  (∀ k, below ["dist"] k → t !! k = None) →
  staged html t !! ["dist"; "pages"; name] = None.
Proof.
  intros Hclean. unfold staged. rewrite !lookup_insert_ne by done.
  apply Hclean. by eexists.
Qed.

Lemma staged_lookup_inside (html : string) (t : tree) (k : list string) :
  (∀ k, below ["dist"] k → t !! k = None) →
  below ["dist"] k → is_Some (staged html t !! k) →
  k ∈ [["dist"]; ["dist"; "pages"]; ["dist"; "index.html"]; ["dist"; "_headers"]].
Proof.
  intros Hclean Hk. unfold staged.
  destruct (decide (k = ["dist"; "pages"])) as [-> | H1];
    [intros _; apply elem_of_cons; right; by left |].
  destruct (decide (k = ["dist"; "index.html"])) as [-> | H2];
    [intros _; do 2 (apply elem_of_cons; right); by left |].
  destruct (decide (k = ["dist"])) as [-> | H3]; [intros _; by left |].
  rewrite !lookup_insert_ne by done. rewrite (Hclean k Hk). by intros [? ?].
Qed.

(** The images the loop is given are the images of the site. *)
Lemma staged_images (html : string) (t : tree) (file : string) :
  (∀ k, below ["dist"] k → outside_dist t !! k = None) →
  file ∈ filter (λ file, is_image file = true)
           (entries ["flipbook-v2"; "pages"] (staged html (outside_dist t)))
  ↔ site_image t file.
Proof.
  intros _. rewrite list_elem_of_filter, entries_spec. cbn [app].
  rewrite staged_lookup_outside by (intros H; by apply prefix_cons_inv_1 in H).
  rewrite outside_dist_lookup.
  rewrite decide_False by (intros H; by apply prefix_cons_inv_1 in H).
  unfold site_image. tauto.
Qed.

(** A build whose loop copies the images, from the cleaning to the end. *)
Lemma copying_build (w : world) (html : string) (Φ : world → Prop) :
  dist_parented (fs w) →
  fs w !! ["flipbook-v2"; "index.html"] = Some (File html) →
  Utf8.well_formed html = true →
  fs w !! ["flipbook-v2"; "pages"] = Some Dir →
  (∀ name, is_image name = true → fs w !! ["flipbook-v2"; "pages"; name] ≠ Some Dir) →
  (∀ files t3 w4,
     (∀ file, file ∈ files ↔ site_image (fs w) file) →
     (∀ file, file ∈ files →
              Path.valid_name file = true
              ∧ ∃ c, t3 !! ["flipbook-v2"; "pages"; file] = Some (File c)) →
     (∀ name, t3 !! ["dist"; "pages"; name] = None) →
     fs w4 = t3 →
     ∃ w5, optimizeOrCopy E (BuildCloudflare.sharp_available E) files w4 = (Ok tt, w5)
           ∧ copies_of files t3 (fs w5) ∧ Φ w5) →
  ∃ w5 w',
    BuildCloudflare.buildForCloudflare E w = (Ok tt, w')
    ∧ copied_build
        (if BuildCloudflare.sharp_available E
         then Js.replace BuildCloudflare.slide_regex BuildCloudflare.picture_template html
         else html) (fs w) (fs w')
    ∧ Φ w5 ∧ console w5 `prefix_of` console w'.
Proof.
  intros Hparented Hpage Htext Hpages Hfiles Hloop.
  destruct (buildForCloudflare_cleans E w Hparented) as (w0 & Hw0 & ->).
  assert (∀ k, below ["dist"] k → fs w0 !! k = None) as Hclean.
  { intros k Hk. by rewrite Hw0, outside_dist_lookup, decide_True. }
  assert (∀ k, ¬ below ["dist"] k → fs w0 !! k = fs w !! k) as Houtside.
  { intros k Hk. by rewrite Hw0, outside_dist_lookup, decide_False. }
  assert (∀ rest, ¬ below ["dist"] ("flipbook-v2" :: rest)) as Hsite.
  { intros rest H. by apply prefix_cons_inv_1 in H. }
  destruct (build_staged E w0 html Hclean) as (w4 & Hw4 & _ & ->);
    [by rewrite Houtside | by rewrite Houtside |].
  set (t3 := staged html (fs w0)) in *.
  set (files := filter _ _).
  assert (∀ file, file ∈ files ↔ site_image (fs w) file) as Himages.
  { intros file. unfold files, t3. rewrite Hw0. apply staged_images.
    intros k Hk. by rewrite <- Hw0, Hclean. }
  destruct (Hloop files t3 w4) as (w5 & Hrun & [Hrest Hcopies] & HΦ); [done | | |done |].
  { intros file (Himage & Hvalid & Hsome)%Himages. split; [done |].
    unfold t3. rewrite staged_lookup_outside, Houtside by done.
    destruct (fs w !! ["flipbook-v2"; "pages"; file]) as [[c|]|] eqn:Hk.
    - by exists c.
    - by destruct (Hfiles file).
    - by destruct Hsome. }
  { intros name. by apply staged_lookup_page. }
  rewrite (bind_ok _ _ _ _ _ Hrun).
  assert (∀ k, (∀ file, k ≠ ["dist"; "pages"; file]) → fs w5 !! k = t3 !! k) as Hrest'.
  { intros k Hk. apply Hrest. intros file _. apply Hk. }
  destruct (finish_run (BuildCloudflare.sharp_available E) html w5)
    as (w' & Hfinish & Hfs & Hconsole); [| exact Htext | |].
  { rewrite Hrest' by done. unfold t3, staged.
    rewrite lookup_insert_ne by done. by rewrite lookup_insert_eq. }
  { rewrite Hrest' by done. unfold t3, staged. rewrite !lookup_insert_ne by done.
    rewrite Hclean; [done | by eexists]. }
  exists w5, w'. split; [done |]. split; [|by split].
  rewrite Hfs. split; [|split; [|split; [|split; [|split; [|split]]]]].
  - rewrite !lookup_insert_ne by done. rewrite Hrest' by done. unfold t3, staged.
    rewrite !lookup_insert_ne by done. by rewrite lookup_insert_eq.
  - rewrite !lookup_insert_ne by done. rewrite Hrest' by done. unfold t3, staged.
    by rewrite lookup_insert_eq.
  - rewrite lookup_insert_ne by done. by rewrite lookup_insert_eq.
  - by rewrite lookup_insert_eq.
  - intros file Hfile. rewrite !lookup_insert_ne by done.
    rewrite Hcopies by by apply Himages. unfold t3.
    by rewrite staged_lookup_outside, Houtside.
  - intros k Hk.
    destruct (decide (k = ["dist"; "_headers"])) as [-> | H1];
      [intros _; left; do 3 (apply elem_of_cons; right); by left |].
    destruct (decide (k = ["dist"; "index.html"])) as [-> | H2];
      [intros _; left; do 2 (apply elem_of_cons; right); by left |].
    rewrite !lookup_insert_ne by done.
    destruct (decide (Exists (λ file, k = ["dist"; "pages"; file]) files))
      as [(file & Hin & ->)%Exists_exists | Hnone].
    + intros _. right. exists file. split; [by apply Himages | done].
    + rewrite Hrest.
      * intros Hsome. left. by apply (staged_lookup_inside html (fs w0)).
      * intros file Hin ->. apply Hnone, Exists_exists. by exists file.
  - intros k Hk. rewrite !lookup_insert_ne by (intros <-; apply Hk; by eexists).
    rewrite Hrest.
    + unfold t3. by rewrite staged_lookup_outside, Houtside.
    + intros file _ ->. apply Hk. by eexists.
Qed.

End CopyingBuilds.



(** ** Builds that Sharp optimizes *)

Section OptimizeLoop.
Import Sys Hoare Inv Layout Stages.
Context (E : BuildCloudflare.env).

Lemma encoded_ok (output bytes : string) (t : tree) :
  t !! resolve output ≠ Some Dir →
  encoded output (Exec_ok bytes) t = inr (<[resolve output := File bytes]> t).
Proof. intros Hk. unfold encoded. by destruct (t !! resolve output) as [[c|]|]. Qed.

Lemma page_form_dec (k : list string) :
  (∃ name, k = ["dist"; "pages"; name]) ∨ (∀ name, k ≠ ["dist"; "pages"; name]).
Proof.
  destruct k as [|a [|b [|c [|d rest]]]]; try (right; intros name [=]; fail).
  destruct (decide (a = "dist")) as [-> | Ha]; [|right; intros name [=]; done].
  destruct (decide (b = "pages")) as [-> | Hb]; [|right; intros name [=]; done].
  left. by exists c.
Qed.

Lemma variants_of_start (t3 : tree) :
  (∀ name, t3 !! ["dist"; "pages"; name] = None) →
  variants_of (λ _ _, False) t3 t3.
Proof.
  intros Hempty. split; [done |]. split; [by intros ? ? ? [] |].
  intros name [n Hn]. by rewrite Hempty in Hn.
Qed.

Lemma variants_of_ext (finished finished' : string → BuildCloudflare.config → Prop)
    (t3 t : tree) :
  (∀ file cfg, finished file cfg ↔ finished' file cfg) →
  variants_of finished t3 t → variants_of finished' t3 t.
Proof.
  intros Hsame (Hrest & Hdone & Honly). split; [done |]. split.
  - intros file cfg ext Hfin. by apply Hdone, Hsame.
  - intros name Hname. destruct (Honly name Hname) as (Hfile & file & cfg & ext & Hfin & ?).
    split; [done |]. exists file, cfg, ext. split; [by apply Hsame | done].
Qed.

Lemma variants_of_step (finished : string → BuildCloudflare.config → Prop)
    (file webp jpeg : string) (cfg : BuildCloudflare.config) (t3 t : tree) :
  variants_of finished t3 t →
  variants_of (λ file' cfg', finished file' cfg' ∨ (file' = file ∧ cfg' = cfg)) t3
    (<[["dist"; "pages"; variant_name file cfg ".jpg"] := File jpeg]>
       (<[["dist"; "pages"; variant_name file cfg ".webp"] := File webp]> t)).
Proof.
  intros (Hrest & Hdone & Honly). split; [|split].
  - intros k Hk. rewrite !lookup_insert_ne by (intros <-; by eapply Hk). by apply Hrest.
  - intros file' cfg' ext Hfin Hext.
    destruct (decide (variant_name file' cfg' ext = variant_name file cfg ".jpg"))
      as [-> | Hjpeg]; [rewrite lookup_insert_eq; eauto |].
    rewrite lookup_insert_ne by congruence.
    destruct (decide (variant_name file' cfg' ext = variant_name file cfg ".webp"))
      as [-> | Hwebp]; [rewrite lookup_insert_eq; eauto |].
    rewrite lookup_insert_ne by congruence.
    destruct Hfin as [Hfin | [-> ->]]; [by apply Hdone |].
    by destruct Hext as [-> | ->].
  - intros name.
    destruct (decide (name = variant_name file cfg ".jpg")) as [-> | Hjpeg].
    { intros _. rewrite lookup_insert_eq. split; [eauto |].
      exists file, cfg, ".jpg". split; [by right |]. split; [by right | done]. }
    rewrite lookup_insert_ne by congruence.
    destruct (decide (name = variant_name file cfg ".webp")) as [-> | Hwebp].
    { intros _. rewrite lookup_insert_eq. split; [eauto |].
      exists file, cfg, ".webp". split; [by right |]. split; [by left | done]. }
    rewrite lookup_insert_ne by congruence.
    intros Hname. destruct (Honly name Hname) as (Hfile & file' & cfg' & ext & Hfin & ?).
    split; [done |]. exists file', cfg', ext. split; [by left | done].
Qed.

(** One pair with a Sharp that succeeds: both variants are written. *)
Lemma optimize_one (finished : string → BuildCloudflare.config → Prop)
    (file preset : string) (cfg : BuildCloudflare.config) (t3 : tree) (w : world) :
  BuildCloudflare.sharp_available E = true →
  (∀ webp input width quality t,
     ∃ bytes, BuildCloudflare.sharp E webp input width quality t = Exec_ok bytes) →
  (preset, cfg) ∈ BuildCloudflare.configs →
  variants_of finished t3 (fs w) →
  ∃ v w',
    BuildCloudflare.optimizeWithSharp E
      (Path.join (Path.join "./flipbook-v2" "pages") file) (Path.join "./dist" "pages")
      file cfg w = (Ok v, w')
    ∧ variants_of (λ file' cfg', finished file' cfg' ∨ (file' = file ∧ cfg' = cfg)) t3
        (fs w').
Proof.
  intros Havailable Hok Hcfg Hvariants.
  assert (∀ name, fs w !! ["dist"; "pages"; name] ≠ Some Dir) as Hfiles.
  { intros name Hdir. destruct Hvariants as (_ & _ & Honly).
    destruct (Honly name) as [[bytes Hbytes] _]; [by rewrite Hdir |]. congruence. }
  rewrite optimizeWithSharp_run, Havailable. cbv zeta.
  destruct (Hok true (Path.join (Path.join "./flipbook-v2" "pages") file)
              (BuildCloudflare.width cfg) (BuildCloudflare.quality cfg) (fs w))
    as [webp ->].
  rewrite encoded_ok by (rewrite (pipeline_output_key preset) by auto; apply Hfiles).
  match goal with
  | |- context [BuildCloudflare.sharp E false ?input ?width ?quality ?t] =>
      destruct (Hok false input width quality t) as [jpeg ->]
  end.
  rewrite encoded_ok.
  - eexists _, _. split; [reflexivity |]. cbn [fs set_fs].
    rewrite !(pipeline_output_key preset) by auto. by apply variants_of_step.
  - rewrite !(pipeline_output_key preset) by auto.
    rewrite lookup_insert. case_decide; [done | apply Hfiles].
Qed.

(** The loop with a Sharp that succeeds: two variants per image and
    preset. *)
Lemma optimize_loop (files : list string) (t3 : tree) (w : world) :
  BuildCloudflare.sharp_available E = true →
  (∀ webp input width quality t,
     ∃ bytes, BuildCloudflare.sharp E webp input width quality t = Exec_ok bytes) →
  (∀ name, t3 !! ["dist"; "pages"; name] = None) →
  fs w = t3 →
  ∃ w', optimizeOrCopy E true files w = (Ok tt, w')
        ∧ variants_of (λ file cfg,
                         file ∈ files ∧ ∃ preset, (preset, cfg) ∈ BuildCloudflare.configs)
            t3 (fs w').
Proof.
  intros Havailable Hok Hempty Hfs. unfold optimizeOrCopy. cbv zeta.
  pose (I := λ (seen : list string) (_ : unit) (w' : world),
          variants_of (λ file cfg,
                         file ∈ seen ∧ ∃ preset, (preset, cfg) ∈ BuildCloudflare.configs)
            t3 (fs w')).
  assert (∀ seen file w1,
            I seen tt w1 →
            ∃ w2,
              bind (console_log ("Optimizing " +:+ file +:+ "..."))
                (λ _, forEach
                        (λ entry : string * BuildCloudflare.config,
                           bind (BuildCloudflare.optimizeWithSharp E
                                   (Path.join (Path.join "./flipbook-v2" "pages") file)
                                   (Path.join "./dist" "pages") file entry.2)
                             (λ _, ret tt))
                        BuildCloudflare.configs) w1
              = (Ok tt, w2)
              ∧ I (seen ++ [file]) tt w2) as Hstep.
  { intros seen file w1 Hvariants.
    unfold bind at 1. cbn [console_log].
    set (w1' := {| fs := fs w1;
                   console := console w1 ++ [Out ("Optimizing " +:+ file +:+ "...")];
                   shell := shell w1 |}).
    pose (J := λ (presets : list (string * BuildCloudflare.config)) (_ : unit)
                 (w' : world),
            variants_of
              (λ file' cfg,
                 (file' ∈ seen ∧ ∃ preset, (preset, cfg) ∈ BuildCloudflare.configs)
                 ∨ (file' = file ∧ ∃ preset, (preset, cfg) ∈ presets))
              t3 (fs w')).
    destruct (hoare_foldM
                (λ _ (entry : string * BuildCloudflare.config),
                   bind (BuildCloudflare.optimizeWithSharp E
                           (Path.join (Path.join "./flipbook-v2" "pages") file)
                           (Path.join "./dist" "pages") file entry.2)
                     (λ _, ret tt))
                J BuildCloudflare.configs tt) with (w := w1')
      as ([] & w2 & Hrun & Hvariants2).
    - intros presets [preset cfg] post [] Hsplit wa Hvariantsa.
      assert ((preset, cfg) ∈ BuildCloudflare.configs) as Hcfg.
      { rewrite Hsplit. apply elem_of_app. right. by left. }
      destruct (optimize_one _ file preset cfg t3 wa Havailable Hok Hcfg Hvariantsa)
        as (v & wb & Hrun & Hvariantsb).
      unfold bind at 1. cbn [snd]. rewrite Hrun. cbn [ret].
      exists tt, wb. split; [done |].
      eapply variants_of_ext; [|exact Hvariantsb]. intros file' cfg'. cbv beta.
      split.
      + intros [[Hseen | [-> (preset' & Hin)]] | [-> ->]];
          [by left | right; split; [done |]; exists preset'; apply elem_of_app; by left |].
        right. split; [done |]. exists preset. apply elem_of_app. right. by left.
      + intros [Hseen | [-> (preset' & [Hin | Hin%list_elem_of_singleton]%elem_of_app)]];
          [left; by left | left; right; eauto |].
        injection Hin as -> ->. by right.
    - eapply variants_of_ext; [|exact Hvariants]. intros file' cfg'.
      cbv beta. split; [by left |]. intros [? | [_ (preset & Hin%elem_of_nil)]]; done.
    - exists w2. split; [exact Hrun |].
      eapply variants_of_ext; [|exact Hvariants2]. intros file' cfg'. cbv beta.
      rewrite elem_of_app, list_elem_of_singleton. tauto. }
  destruct (hoare_foldM
              (λ _ filename,
                 bind (console_log ("Optimizing " +:+ filename +:+ "..."))
                   (λ _, forEach
                           (λ entry : string * BuildCloudflare.config,
                              bind (BuildCloudflare.optimizeWithSharp E
                                      (Path.join (Path.join "./flipbook-v2" "pages")
                                         filename)
                                      (Path.join "./dist" "pages") filename entry.2)
                                (λ _, ret tt))
                           BuildCloudflare.configs))
              I files tt) with (w := w) as ([] & w' & Hrun & Hvariants).
  - intros seen file post [] Hsplit w1 HI.
    destruct (Hstep seen file w1 HI) as (w2 & Hrun & HI'). by exists tt, w2.
  - unfold I. rewrite Hfs. eapply variants_of_ext; [|by apply variants_of_start].
    intros file cfg. cbv beta. split; [done |]. by intros [Hin%elem_of_nil _].
  - by exists w'.
Qed.

End OptimizeLoop.

Section OptimizedBuilds.
Import Sys Hoare Inv Layout Stages.
Context (E : BuildCloudflare.env).

(** X11.  With a Sharp that succeeds on every call, the build of a site with
    its page, a text in well-formed UTF-8, and its [pages] directory
    completes, and [dist] then holds the rewritten page, the headers file
    and, for every image of the site and each of the three presets, a WebP
    and a JPEG file named [<stem><suffix>.webp] and [<stem><suffix>.jpg]
    directly in [dist/pages], and nothing else: the originals are not
    copied.  Nothing outside [dist] is changed. *)
Theorem build_with_sharp_optimizes (w : world) (html : string) :
  BuildCloudflare.sharp_available E = true →
  (∀ webp input width quality t,
     ∃ bytes, BuildCloudflare.sharp E webp input width quality t = Exec_ok bytes) →
  dist_parented (fs w) →
  fs w !! ["flipbook-v2"; "index.html"] = Some (File html) →
  Utf8.well_formed html = true →
  fs w !! ["flipbook-v2"; "pages"] = Some Dir →
  ∃ w',
    BuildCloudflare.buildForCloudflare E w = (Ok tt, w')
    ∧ optimized_build
        (Js.replace BuildCloudflare.slide_regex BuildCloudflare.picture_template html)
        (fs w) (fs w').
Proof.
  intros Havailable Hok Hparented Hpage Htext Hpages.
  destruct (buildForCloudflare_cleans E w Hparented) as (w0 & Hw0 & ->).
  assert (∀ k, below ["dist"] k → fs w0 !! k = None) as Hclean.
  { intros k Hk. by rewrite Hw0, outside_dist_lookup, decide_True. }
  assert (∀ k, ¬ below ["dist"] k → fs w0 !! k = fs w !! k) as Houtside.
  { intros k Hk. by rewrite Hw0, outside_dist_lookup, decide_False. }
  assert (∀ rest, ¬ below ["dist"] ("flipbook-v2" :: rest)) as Hsite.
  { intros rest H. by apply prefix_cons_inv_1 in H. }
  destruct (build_staged E w0 html Hclean) as (w4 & Hw4 & _ & ->);
    [by rewrite Houtside | by rewrite Houtside |].
  rewrite Havailable.
  set (t3 := staged html (fs w0)) in *.
  set (files := filter _ _).
  assert (∀ file, file ∈ files ↔ site_image (fs w) file) as Himages.
  { intros file. unfold files, t3. rewrite Hw0. apply staged_images.
    intros k Hk. by rewrite <- Hw0, Hclean. }
  destruct (optimize_loop E files t3 w4 Havailable Hok)
    as (w5 & Hrun & Hrest & Hdone & Honly); [|done |].
  { intros name. by apply staged_lookup_page. }
  rewrite (bind_ok _ _ _ _ _ Hrun).
  destruct (finish_run true html w5) as (w' & Hfinish & Hfs & _); [| exact Htext | |].
  { rewrite Hrest by done. unfold t3, staged.
    rewrite lookup_insert_ne by done. by rewrite lookup_insert_eq. }
  { rewrite Hrest by done. unfold t3, staged. rewrite !lookup_insert_ne by done.
    rewrite Hclean; [done | by eexists]. }
  exists w'. split; [done |].
  rewrite Hfs. split; [|split; [|split; [|split; [|split; [|split]]]]].
  - rewrite !lookup_insert_ne by done. rewrite Hrest by done. unfold t3, staged.
    rewrite !lookup_insert_ne by done. by rewrite lookup_insert_eq.
  - rewrite !lookup_insert_ne by done. rewrite Hrest by done. unfold t3, staged.
    by rewrite lookup_insert_eq.
  - rewrite lookup_insert_ne by done. by rewrite lookup_insert_eq.
  - by rewrite lookup_insert_eq.
  - intros file preset cfg ext Hfile Hcfg Hext. rewrite !lookup_insert_ne by done.
    apply Hdone; [|done]. split; [by apply Himages | by exists preset].
  - intros k Hk.
    destruct (decide (k = ["dist"; "_headers"])) as [-> | H1];
      [intros _; left; do 3 (apply elem_of_cons; right); by left |].
    destruct (decide (k = ["dist"; "index.html"])) as [-> | H2];
      [intros _; left; do 2 (apply elem_of_cons; right); by left |].
    rewrite !lookup_insert_ne by done.
    destruct (page_form_dec k) as [[name ->] | Hform].
    + intros Hsome. right.
      destruct (Honly name Hsome)
        as (_ & file & cfg & ext & [Hin [preset Hcfg]] & Hext & ->).
      exists file, preset, cfg, ext. split; [by apply Himages | done].
    + rewrite Hrest by done. intros Hsome. left.
      by apply (staged_lookup_inside html (fs w0)).
  - intros k Hk. rewrite !lookup_insert_ne by (intros <-; apply Hk; by eexists).
    rewrite Hrest.
    + unfold t3. by rewrite staged_lookup_outside, Houtside.
    + intros name ->. apply Hk. by eexists.
Qed.

End OptimizedBuilds.

Lemma stale_site_images_are_files (name : string) :
  Fixtures.stale_site !! ["flipbook-v2"; "pages"; name] ≠ Some Dir.
Proof.
  unfold Fixtures.stale_site. rewrite !lookup_insert_ne by done.
  intros Hdir. apply elem_of_list_to_map_2 in Hdir.
  repeat (apply elem_of_cons in Hdir as [[=] | Hdir]). by apply elem_of_nil in Hdir.
Qed.


Lemma build_with_sharp_optimizes_witness :
  ∃ w',
    BuildCloudflare.buildForCloudflare Fixtures.sharp_works
      (Fixtures.world_of Fixtures.stale_site) = (Ok tt, w')
    ∧ Layout.optimized_build
        (Js.replace BuildCloudflare.slide_regex BuildCloudflare.picture_template
           Fixtures.page_once)
        Fixtures.stale_site (Sys.fs w').
Proof.
  apply (build_with_sharp_optimizes Fixtures.sharp_works
           (Fixtures.world_of Fixtures.stale_site) Fixtures.page_once).
  - reflexivity.
  - intros webp input width quality t. by eexists.
  - intros k _ _. exists Dir. reflexivity.
  - reflexivity.
  - reflexivity.
  - reflexivity.
Defined.


(** X13.  In the packaging pipeline a pair is not undone when it fails half
    way: if Sharp writes the WebP variant and then fails on the JPEG one, the
    error is printed, the original is copied to [dist/pages] under its own
    name, [{original}] is returned, and the WebP variant stays in
    [dist/pages] beside it.  The name of the image has no percent sign,
    which [console.error] would take for a format. *)
Theorem sharp_partial_failure (E : BuildCloudflare.env) (file preset : string)
    (cfg : BuildCloudflare.config) (w : Sys.world) (webp message c : string) :
  let input := Path.join (Path.join "./flipbook-v2" "pages") file in
  let webp_key := ["dist"; "pages"; Layout.variant_name file cfg ".webp"] in
  BuildCloudflare.sharp_available E = true →
  (preset, cfg) ∈ BuildCloudflare.configs →
  Path.valid_name file = true →
  Str.contains_char "%" file = false →
  BuildCloudflare.sharp E true input (BuildCloudflare.width cfg)
    (BuildCloudflare.quality cfg) (Sys.fs w) = Exec_ok webp →
  BuildCloudflare.sharp E false input (BuildCloudflare.width cfg)
    (BuildCloudflare.quality cfg) (<[webp_key := File webp]> (Sys.fs w))
  = Exec_fail message →
  Sys.fs w !! webp_key ≠ Some Dir →
  Sys.fs w !! ["flipbook-v2"; "pages"; file] = Some (File c) →
  Sys.fs w !! ["dist"; "pages"; file] ≠ Some Dir →
  BuildCloudflare.optimizeWithSharp E input (Path.join "./dist" "pages") file cfg w
  = (Ok (Json.Obj [("original",
                    Json.Str (Path.join (Path.join "./dist" "pages") file))]),
     {| Sys.fs := <[["dist"; "pages"; file] := File c]>
                    (<[webp_key := File webp]> (Sys.fs w));
        Sys.console :=
          Sys.console w
          ++ [Err ("Error processing " +:+ file +:+ " with Sharp: " +:+ message)];
        Sys.shell := Sys.shell w |}).
Proof.
  intros input webp_key Havailable Hcfg Hvalid _ Hwebp Hjpeg Hfree Hsrc Hdst.
  rewrite optimizeWithSharp_run, Havailable. cbv zeta. fold input.
  rewrite Hwebp, encoded_ok; rewrite (pipeline_output_key preset) by auto; [|done].
  fold (Layout.variant_name file cfg ".webp"). fold webp_key.
  rewrite Hjpeg. cbn [Sys.encoded].
  unfold Sys.bind at 1. cbn [Sys.console_error]. unfold Sys.bind at 1.
  rewrite (copyFileSync_ok _ _ c).
  - by rewrite resolve_dist_page.
  - unfold input. rewrite resolve_source_page by done. cbn [Sys.fs Sys.set_fs].
    by rewrite lookup_insert_ne.
  - rewrite resolve_dist_page by done. cbn [Sys.fs Sys.set_fs].
    rewrite lookup_insert. by case_decide.
Qed.

Lemma sharp_partial_failure_witness :
  BuildCloudflare.optimizeWithSharp Cases.sharp_webp_only
    (Path.join (Path.join "./flipbook-v2" "pages") "page1.jpg") (Path.join "./dist" "pages")
    "page1.jpg" Fixtures.mobile_pipeline (Fixtures.world_of Fixtures.site)
  = (Ok (Json.Obj [("original",
                    Json.Str (Path.join (Path.join "./dist" "pages") "page1.jpg"))]),
     {| Sys.fs :=
          <[["dist"; "pages"; "page1.jpg"] := File "JPEG-1"]>
            (<[["dist"; "pages";
                Layout.variant_name "page1.jpg" Fixtures.mobile_pipeline ".webp"]
               := File "WEBP"]> (Sys.fs (Fixtures.world_of Fixtures.site)));
        Sys.console :=
          Sys.console (Fixtures.world_of Fixtures.site)
          ++ [Err ("Error processing " +:+ "page1.jpg" +:+ " with Sharp: "
                   +:+ "jpeg: unsupported")];
        Sys.shell := Sys.shell (Fixtures.world_of Fixtures.site) |}).
Proof.
  apply (sharp_partial_failure Cases.sharp_webp_only "page1.jpg" "mobile"
           Fixtures.mobile_pipeline (Fixtures.world_of Fixtures.site) "WEBP"
           "jpeg: unsupported" "JPEG-1").
  - reflexivity.
  - left.
  - reflexivity.
  - reflexivity.
  - reflexivity.
  - reflexivity.
  - vm_compute. discriminate.
  - reflexivity.
  - vm_compute. discriminate.
Defined.

(** ** A run of the local optimizer in which nothing fails *)

Section FullRuns.
Import Sys Hoare Inv Layout Json.
Context (E : BuildImages.env).

Lemma set_prop_fresh (k : string) (v : value) (props : list (string * value)) :
  k ∉ keys props → set_prop k v props = props ++ [(k, v)].
Proof.
  unfold keys. induction props as [|[k' v'] props IH]; intros Hk; [done |].
  cbn in Hk |- *. apply not_elem_of_cons in Hk as [Hne Hk].
  apply String.eqb_neq in Hne as ->. by rewrite IH.
Qed.

Lemma set_prop_last (k : string) (v v0 : value) (pre : list (string * value)) :
  k ∉ keys pre → set_prop k v (pre ++ [(k, v0)]) = pre ++ [(k, v)].
Proof.
  unfold keys. induction pre as [|[k' v'] pre IH]; intros Hk.
  - cbn. by rewrite String.eqb_refl.
  - cbn in Hk |- *. apply not_elem_of_cons in Hk as [Hne Hk].
    apply String.eqb_neq in Hne as ->. by rewrite IH.
Qed.

Lemma get_prop_last (k : string) (v : value) (pre : list (string * value)) :
  k ∉ keys pre → get_prop k (pre ++ [(k, v)]) = Some v.
Proof.
  unfold keys. induction pre as [|[k' v'] pre IH]; intros Hk.
  - cbn. by rewrite String.eqb_refl.
  - cbn in Hk |- *. apply not_elem_of_cons in Hk as [Hne Hk].
    apply String.eqb_neq in Hne as ->. by apply IH.
Qed.

Lemma extends_file (t t' : tree) (k : list string) (c : string) :
  extends t t' → t !! k = Some (File c) → ∃ c', t' !! k = Some (File c').
Proof.
  intros Hext Hk. destruct (Hext k) as [Hdir Hsome].
  destruct (Hsome (mk_is_Some _ _ Hk)) as [[c'|] Hk']; [by exists c' |].
  apply Hdir in Hk'. congruence.
Qed.

Lemma extends_flat (out : list string) (t t' : tree) :
  extends t t' → flat out t → flat out t'.
Proof. intros Hext Hflat preset name Hdir. apply (Hflat preset name). by apply Hext. Qed.

(** A pair, when ImageMagick succeeds and no directory is in the way. *)
Lemma optimizeImage_succeeds (outputBaseDir inputPath file preset : string)
    (cfg : BuildImages.config) (w : world) :
  (∀ cmd t, ∃ bytes, BuildImages.convert E cmd t = Exec_ok bytes) →
  (preset, cfg) ∈ BuildImages.configs →
  flat (resolve outputBaseDir) (fs w) →
  ∃ w',
    BuildImages.optimizeImage E inputPath (Path.join outputBaseDir preset) file cfg w
    = (Ok (pair_paths outputBaseDir file (preset, cfg)), w')
    ∧ extends (fs w) (fs w')
    ∧ ∀ ext, ext = ".webp" ∨ ext = ".jpg" →
        ∃ bytes,
          fs w' !! (resolve outputBaseDir
                    ++ [preset; Path.parse_name file +:+ BuildImages.suffix cfg +:+ ext])
          = Some (File bytes).
Proof.
  intros Hok Hcfg Hflat. rewrite optimizeImage_run. cbv zeta.
  cbn [cmd_output BuildImages.webp_command BuildImages.jpeg_command].
  match goal with
  | |- context [BuildImages.convert E ?cmd (fs w)] =>
      destruct (Hok cmd (fs w)) as [webp ->]
  end.
  rewrite encoded_ok by (rewrite (local_output_key _ preset) by auto; apply Hflat).
  match goal with
  | |- context [BuildImages.convert E ?cmd ?t] => destruct (Hok cmd t) as [jpeg ->]
  end.
  rewrite encoded_ok.
  - eexists. split; [reflexivity |]. cbn [fs].
    rewrite !(local_output_key _ preset) by auto. split.
    + eapply extends_trans; apply extends_insert_file.
      * apply Hflat.
      * rewrite lookup_insert. by case_decide.
    + intros ext [-> | ->].
      * rewrite lookup_insert. case_decide; [eauto |]. rewrite lookup_insert_eq. eauto.
      * rewrite lookup_insert_eq. eauto.
  - rewrite !(local_output_key _ preset) by auto.
    rewrite lookup_insert. case_decide; [done | apply Hflat].
Qed.

Lemma config_names_NoDup : NoDup BuildImages.configs.*1.
Proof. apply (bool_decide_unpack _). by vm_compute. Qed.

(** All the presets of one file. *)
Lemma optimizeFile_succeeds (sourceDir outputBaseDir file : string) (total count : nat)
    (results : list (string * value)) (w : world) :
  (∀ cmd t, ∃ bytes, BuildImages.convert E cmd t = Exec_ok bytes) →
  file ∉ keys results →
  flat (resolve outputBaseDir) (fs w) →
  ∃ w',
    BuildImages.optimizeFile E sourceDir outputBaseDir total (count, results) file w
    = (Ok (S count, results ++ [(file, Obj (full_entry outputBaseDir file))]), w')
    ∧ extends (fs w) (fs w')
    ∧ ∀ preset cfg ext,
        (preset, cfg) ∈ BuildImages.configs → ext = ".webp" ∨ ext = ".jpg" →
        ∃ bytes,
          fs w' !! (resolve outputBaseDir
                    ++ [preset; Path.parse_name file +:+ BuildImages.suffix cfg +:+ ext])
          = Some (File bytes).
Proof.
  intros Hok Hfresh Hflat. unfold BuildImages.optimizeFile. cbv zeta. cbn [fst snd].
  unfold bind at 1. cbn [console_log].
  set (w1 := {| fs := fs w; console := _; shell := shell w |}).
  rewrite (set_prop_fresh _ _ _ Hfresh).
  pose (I := λ (seen : list (string * BuildImages.config))
               (results' : list (string * value)) (w' : world),
          results'
          = results ++ [(file, Obj (map (λ entry : string * BuildImages.config,
                                           (entry.1, pair_paths outputBaseDir file entry))
                                      seen))]
          ∧ extends (fs w) (fs w')
          ∧ ∀ preset cfg ext,
              (preset, cfg) ∈ seen → ext = ".webp" ∨ ext = ".jpg" →
              ∃ bytes,
                fs w' !! (resolve outputBaseDir
                          ++ [preset;
                              Path.parse_name file +:+ BuildImages.suffix cfg +:+ ext])
                = Some (File bytes)).
  destruct (hoare_foldM
              (BuildImages.optimizePreset E outputBaseDir (Path.join sourceDir file) file)
              I BuildImages.configs (results ++ [(file, Obj [])])) with (w := w1)
    as (results' & w2 & Hrun & -> & Hext & Hfiles).
  - intros seen [preset cfg] post results' Hsplit wa (-> & Hexta & Hfilesa).
    assert ((preset, cfg) ∈ BuildImages.configs) as Hcfg.
    { rewrite Hsplit. apply elem_of_app. right. by left. }
    destruct (optimizeImage_succeeds outputBaseDir (Path.join sourceDir file) file
                preset cfg wa Hok Hcfg) as (wb & Hrun & Hextb & Hfilesb).
    { by eapply extends_flat. }
    unfold BuildImages.optimizePreset. cbv zeta. cbn [fst snd].
    unfold bind at 1. rewrite Hrun. cbn [truthy pair_paths ret].
    eexists _, wb. split; [reflexivity |]. split; [|split].
    + unfold BuildImages.set_result. rewrite get_prop_last by done.
      rewrite set_prop_last by done. rewrite set_prop_fresh.
      * by rewrite map_app.
      * unfold keys. rewrite <- list_fmap_compose.
        pose proof config_names_NoDup as Hnodup. rewrite Hsplit, fmap_app in Hnodup.
        apply NoDup_app in Hnodup as (_ & Hnotin & _). intros Hin.
        apply (Hnotin preset); [done | by left].
    + by eapply extends_trans.
    + intros preset' cfg' ext [Hin | [= -> ->]%list_elem_of_singleton]%elem_of_app Hext.
      * destruct (Hfilesa preset' cfg' ext Hin Hext) as [bytes Hbytes].
        by eapply extends_file.
      * by apply Hfilesb.
  - split; [done |]. split; [apply extends_refl |].
    by intros preset cfg ext Hin%elem_of_nil.
  - rewrite (bind_ok _ _ _ _ _ Hrun). unfold bind at 1. cbn [console_log ret].
    eexists. split; [reflexivity |]. by split.
Qed.

Lemma keys_full_manifest (outputBaseDir : string) (files : list string) :
  keys (full_manifest outputBaseDir files) = files.
Proof.
  induction files as [|file files IH]; [done |].
  unfold keys, full_manifest in *. cbn [map fmap list_fmap fst]. f_equal. exact IH.
Qed.

(** All the files. *)
Lemma processImages_succeeds (sourceDir outputBaseDir : string) (files : list string)
    (w : world) :
  (∀ cmd t, ∃ bytes, BuildImages.convert E cmd t = Exec_ok bytes) →
  NoDup files →
  flat (resolve outputBaseDir) (fs w) →
  ∃ w',
    BuildImages.processImages E sourceDir outputBaseDir files w
    = (Ok (length files, full_manifest outputBaseDir files), w')
    ∧ extends (fs w) (fs w')
    ∧ ∀ file preset cfg ext,
        file ∈ files → (preset, cfg) ∈ BuildImages.configs →
        ext = ".webp" ∨ ext = ".jpg" →
        ∃ bytes,
          fs w' !! (resolve outputBaseDir
                    ++ [preset; Path.parse_name file +:+ BuildImages.suffix cfg +:+ ext])
          = Some (File bytes).
Proof.
  intros Hok Hnodup Hflat. unfold BuildImages.processImages.
  pose (I := λ (seen : list string) (state : nat * list (string * value)) (w' : world),
          state = (length seen, full_manifest outputBaseDir seen)
          ∧ extends (fs w) (fs w')
          ∧ ∀ file preset cfg ext,
              file ∈ seen → (preset, cfg) ∈ BuildImages.configs →
              ext = ".webp" ∨ ext = ".jpg" →
              ∃ bytes,
                fs w' !! (resolve outputBaseDir
                          ++ [preset;
                              Path.parse_name file +:+ BuildImages.suffix cfg +:+ ext])
                = Some (File bytes)).
  destruct (hoare_foldM
              (BuildImages.optimizeFile E sourceDir outputBaseDir (length files))
              I files (0, [])) with (w := w) as (state & w' & Hrun & -> & Hext & Hfiles).
  - intros seen file post state Hsplit wa (-> & Hexta & Hfilesa).
    destruct (optimizeFile_succeeds sourceDir outputBaseDir file (length files)
                (length seen) (full_manifest outputBaseDir seen) wa Hok)
      as (wb & Hrun & Hextb & Hfilesb).
    { rewrite keys_full_manifest.
      rewrite Hsplit in Hnodup. apply NoDup_app in Hnodup as (_ & Hnotin & _).
      intros Hin. apply (Hnotin file Hin). by left. }
    { by eapply extends_flat. }
    eexists _, wb. split; [exact Hrun |]. split; [|split].
    + unfold full_manifest. rewrite map_app, length_app. cbn [map length].
      by rewrite Nat.add_1_r.
    + by eapply extends_trans.
    + intros file' preset cfg ext [Hin | ->%list_elem_of_singleton]%elem_of_app Hcfg Hext.
      * destruct (Hfilesa file' preset cfg ext Hin Hcfg Hext) as [bytes Hbytes].
        by eapply extends_file.
      * by apply Hfilesb.
  - split; [done |]. split; [apply extends_refl |].
    by intros file preset cfg ext Hin%elem_of_nil.
  - by exists w'.
Qed.

End FullRuns.



(** ** The headers file marks a completed build *)

Section HeadersLast.
Import Sys Hoare Inv Layout.

#[export] Instance same_at_preorder (k : list string) : PreOrder (same_at k).
Proof.
  split; [by intros t |]. intros t1 t2 t3 H12 H23. unfold same_at in *. congruence.
Qed.

Lemma on_throw_preserves {A : Type} (R : tree → tree → Prop) (m : M A) :
  preserves R m → on_throw R m.
Proof. intros Hm w message w' Hrun. specialize (Hm w). by rewrite Hrun in Hm. Qed.

Lemma on_throw_bind {A B : Type} (R : tree → tree → Prop) `{!PreOrder R}
    (m : M A) (k : A → M B) :
  preserves R m → (∀ a, on_throw R (k a)) → on_throw R (bind m k).
Proof.
  intros Hm Hk w message w' Hrun. unfold bind in Hrun. specialize (Hm w).
  destruct (m w) as [[a | e | c] w1]; cbn [snd] in Hm.
  - etrans; [exact Hm | by eapply Hk].
  - by injection Hrun as _ <-.
  - done.
Qed.

Lemma on_return_bind {A B : Type} (Q : tree → Prop) (m : M A) (k : A → M B) :
  (∀ a, on_return Q (k a)) → on_return Q (bind m k).
Proof.
  intros Hk w b w' Hrun. unfold bind in Hrun.
  destruct (m w) as [[a | e | c] w1]; [by eapply Hk | done..].
Qed.

Lemma same_at_insert (k k' : list string) (v : node) (t : tree) :
  k' ≠ k → same_at k t (<[k' := v]> t).
Proof. intros Hne. unfold same_at. by rewrite lookup_insert_ne. Qed.

Lemma same_at_mkdir_from (k above rest : list string) (t t' : tree) :
  ¬ k `prefix_of` above ++ rest →
  mkdir_from above rest t = Some t' → same_at k t t'.
Proof.
  revert above t. induction rest as [|seg rest IH]; intros above t Hk Hmk.
  - by injection Hmk as <-.
  - cbn [mkdir_from] in Hmk.
    assert (above ++ seg :: rest = (above ++ [seg]) ++ rest) as Heq
      by by rewrite <- app_assoc.
    assert (same_at k (<[above ++ [seg] := Dir]> t) t') as Hrest.
    { destruct (t !! (above ++ [seg])) as [[c|]|]; [done | ..];
        (apply (IH (above ++ [seg])); [by rewrite <- Heq | done]). }
    etrans; [|exact Hrest]. apply same_at_insert. intros <-. apply Hk.
    rewrite Heq. by apply prefix_app_r.
Qed.

Lemma same_at_mkdirSync (k : list string) (p : string) :
  ¬ k `prefix_of` resolve p → preserves (same_at k) (mkdirSync p).
Proof.
  intros Hk w. unfold mkdirSync.
  destruct (mkdir_from [] (resolve p) (fs w)) as [t'|] eqn:Hmk; [|reflexivity].
  by apply (same_at_mkdir_from k [] (resolve p)).
Qed.

Lemma same_at_writeFileSync (k : list string) (p content : string) :
  resolve p ≠ k → preserves (same_at k) (writeFileSync p content).
Proof.
  intros Hp w. unfold writeFileSync.
  destruct (fs w !! resolve p) as [[c|]|]; cbn [snd fs set_fs];
    [| reflexivity |]; by apply same_at_insert.
Qed.

Lemma same_at_copyFileSync (k : list string) (src dst : string) :
  resolve dst ≠ k → preserves (same_at k) (copyFileSync src dst).
Proof.
  intros Hp w. unfold copyFileSync.
  destruct (fs w !! resolve src) as [[c|]|]; [|reflexivity..].
  destruct (fs w !! resolve dst) as [[c'|]|]; cbn [snd fs set_fs];
    [| reflexivity |]; by apply same_at_insert.
Qed.

Lemma same_at_sharp_toFile (k : list string) (E : BuildCloudflare.env) (webp : bool)
    (input output : string) (cfg : BuildCloudflare.config) :
  resolve output ≠ k →
  preserves (same_at k) (BuildCloudflare.sharp_toFile E webp input cfg output).
Proof.
  intros Hp w. unfold BuildCloudflare.sharp_toFile, write_encoded, encoded.
  destruct (BuildCloudflare.sharp E webp input _ _ (fs w)) as [bytes | message];
    [|reflexivity].
  destruct (fs w !! resolve output) as [[c|]|]; cbn [snd fs set_fs];
    [| reflexivity |]; by apply same_at_insert.
Qed.

Lemma headers_optimizeWithSharp (E : BuildCloudflare.env)
    (inputPath filename preset : string) (cfg : BuildCloudflare.config) :
  Path.valid_name filename = true → (preset, cfg) ∈ BuildCloudflare.configs →
  preserves (same_at ["dist"; "_headers"])
    (BuildCloudflare.optimizeWithSharp E inputPath (Path.join "./dist" "pages") filename cfg).
Proof.
  intros Hvalid Hcfg. unfold BuildCloudflare.optimizeWithSharp. cbv zeta.
  apply preserves_try_catch; [exact _ | |intros message].
  - unfold BuildCloudflare.require_sharp.
    preserves_step; [by repeat preserves_step |].
    preserves_step;
      [apply same_at_sharp_toFile; by rewrite (pipeline_output_key preset) by auto |].
    preserves_step;
      [apply same_at_sharp_toFile; by rewrite (pipeline_output_key preset) by auto |].
    preserves_step.
  - preserves_step; [preserves_step |].
    preserves_step; [|preserves_step].
    apply same_at_copyFileSync. by rewrite resolve_join by done.
Qed.

End HeadersLast.

Section HeadersMark.
Import Sys Hoare Inv Layout.
Context (E : BuildCloudflare.env).

Lemma on_throw_readdirSync_bind {B : Type} (R : gmap (list string) node → gmap (list string) node → Prop)
    `{!PreOrder R} (p : string) (k : list string → M B) :
  (∀ files, (∀ file, file ∈ files → Path.valid_name file = true) → on_throw R (k files)) →
  on_throw R (bind (readdirSync p) k).
Proof.
  intros Hk w message w' Hrun. unfold bind, readdirSync in Hrun.
  destruct (fs w !! resolve p) as [[c|]|]; [by injection Hrun as _ <- | |
                                             by injection Hrun as _ <-].
  eapply Hk; [|exact Hrun]. intros file Hfile. by apply entries_spec in Hfile as [Hvalid _].
Qed.

Lemma build_headers_on_throw :
  on_throw (same_at ["dist"; "_headers"])
    (BuildCloudflare.build E "./dist" "./flipbook-v2").
Proof.
  unfold BuildCloudflare.build. cbv zeta.
  apply on_throw_bind; [exact _ | |intros _].
  { apply same_at_mkdirSync. intros H. change (resolve "./dist") with ["dist"] in H.
    apply prefix_length in H. cbn in H. lia. }
  apply on_throw_bind; [exact _ | preserves_step |intros _].
  apply on_throw_bind; [exact _ | apply same_at_copyFileSync; by vm_compute |intros _].
  apply on_throw_bind; [exact _ | |intros _].
  { apply same_at_mkdirSync. intros H.
    change (resolve (Path.join "./dist" "pages")) with ["dist"; "pages"] in H.
    apply prefix_cons_inv_2 in H. by apply prefix_cons_inv_1 in H. }
  apply on_throw_bind; [exact _ | |intros useSharp].
  { unfold BuildCloudflare.require_sharp. repeat preserves_step. }
  apply on_throw_readdirSync_bind; [exact _ |]. intros files Hfiles.
  apply on_throw_bind; [exact _ | preserves_step |intros _].
  apply on_throw_bind; [exact _ | |intros _].
  { destruct useSharp.
    - apply preserves_forEach; [exact _ |].
      intros filename [_ Hfile]%list_elem_of_filter.
      preserves_step; [preserves_step |].
      apply preserves_forEach; [exact _ |]. intros [preset cfg] Hcfg.
      preserves_step; [|preserves_step].
      apply (headers_optimizeWithSharp E _ _ preset); [by apply Hfiles | done].
    - apply preserves_forEach; [exact _ |].
      intros filename [_ Hfile]%list_elem_of_filter.
      apply same_at_copyFileSync. by rewrite resolve_join by by apply Hfiles. }
  apply on_throw_bind; [exact _ | |intros _].
  { unfold BuildCloudflare.updateHtmlForOptimizedImages. cbv zeta.
    preserves_step; [preserves_step |]. apply same_at_writeFileSync. by vm_compute. }
  intros w message w' Hrun.
  unfold bind, BuildCloudflare.createHeadersFile, writeFileSync in Hrun.
  destruct (fs w !! _) as [[c|]|]; [done | by injection Hrun as _ <- | done].
Qed.

Lemma build_headers_on_return :
  on_return (λ t, t !! ["dist"; "_headers"] = Some (File BuildCloudflare.headersContent))
    (BuildCloudflare.build E "./dist" "./flipbook-v2").
Proof.
  unfold BuildCloudflare.build. cbv zeta.
  do 9 (apply on_return_bind; intros ?).
  intros w [] w' Hrun.
  unfold bind, BuildCloudflare.createHeadersFile, writeFileSync in Hrun.
  change (resolve (Path.join "./dist" "_headers")) with ["dist"; "_headers"] in Hrun.
  destruct (fs w !! _) as [[c|]|]; [| done |]; injection Hrun as <-;
    cbn [fs set_fs]; by rewrite lookup_insert_eq.
Qed.

End HeadersMark.

(** X16.  The headers file is written last: over a file system where
    nothing lies below a missing [dist], [dist/_headers] holds the fixed
    headers after a build that completed, and does not exist after a build
    that failed, at whatever step.  (The script ends normally in both
    cases.) *)
Theorem headers_mark_completion (E : BuildCloudflare.env) (w : Sys.world) :
  Inv.dist_parented (Sys.fs w) →
  match (BuildCloudflare.buildForCloudflare E w).1 with
  | Ok _ =>
      Sys.fs (BuildCloudflare.main E w).2 !! ["dist"; "_headers"]
      = Some (File BuildCloudflare.headersContent)
  | _ => Sys.fs (BuildCloudflare.main E w).2 !! ["dist"; "_headers"] = None
  end.
Proof.
  intros Hparented.
  destruct (buildForCloudflare_cleans E w Hparented) as (w0 & Hw0 & Hrun).
  pose proof (buildForCloudflare_never_exits E w) as Hexit.
  unfold BuildCloudflare.main, Sys.try_catch. rewrite Hrun in Hexit |- *.
  destruct (BuildCloudflare.build E "./dist" "./flipbook-v2" w0)
    as [[[] | message | code] w'] eqn:Hbuild; cbn [fst snd].
  - by apply (build_headers_on_return E _ _ _ Hbuild).
  - cbn [Sys.console_error Sys.fs snd].
    rewrite (build_headers_on_throw E _ _ _ Hbuild), Hw0.
    rewrite outside_dist_lookup, decide_True; [done | by eexists].
  - by destruct (Hexit code).
Qed.

Lemma headers_mark_completion_witness :
  match (BuildCloudflare.buildForCloudflare Fixtures.sharp_works
           (Fixtures.world_of Cases.pageless_site)).1 with
  | Ok _ =>
      Sys.fs (BuildCloudflare.main Fixtures.sharp_works
                (Fixtures.world_of Cases.pageless_site)).2 !! ["dist"; "_headers"]
      = Some (File BuildCloudflare.headersContent)
  | _ =>
      Sys.fs (BuildCloudflare.main Fixtures.sharp_works
                (Fixtures.world_of Cases.pageless_site)).2 !! ["dist"; "_headers"]
      = None
  end.
Proof.
  apply (headers_mark_completion Fixtures.sharp_works
           (Fixtures.world_of Cases.pageless_site)).
  intros k _ _. exists Dir. reflexivity.
Defined.

(** * Whole runs of the local optimizer *)

(** ** The disk at the listing *)

Section Listing.
Import Sys Hoare Inv.
Context (E : BuildImages.env).

(** The loop that makes the preset directories, when it goes through. *)
Lemma preset_dirs_disk (outputBaseDir : string) (names : list string) (w w' : world) :
  (∀ preset, preset ∈ names → Path.valid_name preset = true) →
  forEach (λ configName,
             bind (existsSync (Path.join outputBaseDir configName))
               (λ present, if present then ret tt
                           else mkdirSync (Path.join outputBaseDir configName)))
    names w = (Ok tt, w') →
  fs w' = foldl (λ t preset, make_dir t (resolve outputBaseDir ++ [preset])) (fs w) names.
Proof.
  revert w. induction names as [|preset names IH]; intros w Hvalid Hrun.
  - by injection Hrun as <-.
  - unfold forEach in Hrun. cbn [foldM] in Hrun.
    unbind Hrun as u w1 Hstep. destruct u.
    assert (fs w1 = make_dir (fs w) (resolve outputBaseDir ++ [preset])) as Hw1.
    { unfold bind, existsSync in Hstep.
      rewrite (resolve_join _ _ (Hvalid preset ltac:(left))) in Hstep.
      unfold make_dir.
      destruct (fs w !! (resolve outputBaseDir ++ [preset])) as [n|] eqn:Hk.
      - rewrite bool_decide_eq_true_2 in Hstep by eauto. by injection Hstep as <-.
      - rewrite bool_decide_eq_false_2 in Hstep by by intros [? ?].
        unfold mkdirSync in Hstep.
        rewrite (resolve_join _ _ (Hvalid preset ltac:(left))) in Hstep.
        destruct (mkdir_from [] _ (fs w)) as [t'|]; [|done]. by injection Hstep as <-. }
    cbn [foldl]. rewrite <- Hw1. apply IH; [|exact Hrun].
    intros preset' Hin. apply Hvalid. by right.
Qed.

(** The listing is taken on the disk with the preset directories. *)
Lemma prepare_disk (sourceDir outputBaseDir : string) (w w1 : world)
    (imageFiles : list string) :
  BuildImages.prepare E sourceDir outputBaseDir w = (Ok imageFiles, w1) →
  fs w1 = with_preset_dirs (resolve outputBaseDir) (fs w)
  ∧ imageFiles = listed_images (resolve sourceDir) (fs w1).
Proof.
  unfold BuildImages.prepare. intros H.
  unbind H as available wa Hcheck.
  unbind H as ? wb Hexit.
  unbind H as ? wc Hlog.
  unbind H as u wd Hloop. destruct u.
  unbind H as files we Hread.
  unbind H as ? wf Hfound. injection H as <- <-.
  assert (fs wc = fs w) as Hwc.
  { unfold console_log in Hlog. injection Hlog as _ <-. cbn [fs].
    assert (fs wb = fs wa) as -> by (destruct available; by injection Hexit as _ <-).
    unfold BuildImages.checkImageMagick, try_catch, bind, BuildImages.execSync in Hcheck.
    unfold bind in Hcheck. cbn [fs] in Hcheck.
    destruct (BuildImages.convert_version_ok E); by injection Hcheck as _ <-. }
  apply preset_dirs_disk in Hloop; [|apply preset_name_valid].
  rewrite Hwc in Hloop.
  unfold readdirSync in Hread.
  destruct (fs wd !! resolve sourceDir) as [[c|]|]; try done.
  injection Hread as <- <-.
  unfold console_log in Hfound. injection Hfound as _ <-. cbn [fs]. by split.
Qed.

End Listing.

(** ** A run, pair by pair *)

Section Traces.
Import Sys Hoare Inv Layout Json.
Context (E : BuildImages.env) (sourceDir outputBaseDir : string).

Local Abbreviation attempts := (Trace.attempts E sourceDir outputBaseDir).
Local Abbreviation replay := (Trace.replay E sourceDir outputBaseDir).
Local Abbreviation commands_of := (Trace.commands_of sourceDir outputBaseDir).
Local Abbreviation entry_of := (Trace.entry_of outputBaseDir).

Lemma world_eta (w : world) :
  {| fs := fs w; console := console w ++ []; shell := shell w ++ [] |} = w.
Proof. destruct w. cbn. by rewrite !app_nil_r. Qed.

(** One pair does what [Trace.attempt] says. *)
Lemma optimizePreset_trace (file : string) (entry : string * BuildImages.config)
    (results : list (string * value)) (w : world) :
  BuildImages.optimizePreset E outputBaseDir (Path.join sourceDir file) file results entry w
  = let r := Trace.attempt E sourceDir outputBaseDir file entry (fs w) in
    (Ok (if Trace.converted r
         then BuildImages.set_result file entry.1 (pair_paths outputBaseDir file entry)
                results
         else results),
     {| fs := Trace.disk_after (fs w) r;
        console := console w ++ Trace.errors_of file (entry, r);
        shell := shell w ++ commands_of file (entry, r) |}).
Proof.
  unfold BuildImages.optimizePreset, bind. rewrite optimizeImage_run.
  unfold Trace.attempt, Trace.webp_of, Trace.jpeg_of, Trace.commands_of, Trace.errors_of.
  cbv zeta.
  destruct (encoded _ _ (fs w)) as [message | t1]; [done |].
  destruct (encoded _ _ t1) as [message | t2]; cbn; by rewrite <- !app_assoc, ?app_nil_r.
Qed.

(** The presets of one file. *)
Lemma presets_trace (file : string) (presets : list (string * BuildImages.config))
    (results : list (string * value)) (w : world) :
  foldM (BuildImages.optimizePreset E outputBaseDir (Path.join sourceDir file) file)
    results presets w
  = let pairs := attempts file presets (fs w) in
    (Ok (foldl (λ results (pair : (string * BuildImages.config) * Trace.result),
                  if Trace.converted pair.2
                  then BuildImages.set_result file pair.1.1
                         (pair_paths outputBaseDir file pair.1) results
                  else results) results pairs.1),
     {| fs := pairs.2;
        console := console w ++ flat_map (Trace.errors_of file) pairs.1;
        shell := shell w ++ flat_map (commands_of file) pairs.1 |}).
Proof.
  revert results w. induction presets as [|entry presets IH]; intros results w.
  - cbn. by rewrite world_eta.
  - cbn [foldM]. unfold bind at 1. rewrite optimizePreset_trace. cbv beta iota zeta.
    rewrite IH. cbn [fs console shell Trace.attempts fst snd foldl flat_map].
    by rewrite <- !app_assoc.
Qed.

(** The entry of a file grows by its converted pairs, in order. *)
Lemma entry_fold (file : string) (pre : list (string * value))
    (pairs : list ((string * BuildImages.config) * Trace.result))
    (acc : list (string * value)) :
  file ∉ keys pre →
  NoDup (keys acc ++ pairs.*1.*1) →
  foldl (λ results (pair : (string * BuildImages.config) * Trace.result),
           if Trace.converted pair.2
           then BuildImages.set_result file pair.1.1
                  (pair_paths outputBaseDir file pair.1) results
           else results) (pre ++ [(file, Obj acc)]) pairs
  = pre ++ [(file, Obj (acc ++ entry_of file pairs))].
Proof.
  intros Hfresh. revert acc. induction pairs as [|[entry r] pairs IH]; intros acc Hnodup.
  - cbn. by rewrite app_nil_r.
  - cbn [foldl fst snd]. cbn [fmap list_fmap fst] in Hnodup.
    destruct (Trace.converted r) eqn:Hr.
    + unfold BuildImages.set_result. rewrite (get_prop_last _ _ _ Hfresh).
      rewrite (set_prop_last _ _ _ _ Hfresh), set_prop_fresh.
      * rewrite IH.
        -- unfold Trace.entry_of. cbn [omap list_omap fst snd]. rewrite Hr.
           by rewrite <- app_assoc.
        -- unfold keys in *. rewrite fmap_app. cbn. rewrite <- app_assoc. exact Hnodup.
      * intros Hin. apply NoDup_app in Hnodup as (_ & Hdisjoint & _).
        apply (Hdisjoint _ Hin). by left.
    + unfold Trace.entry_of. cbn [omap list_omap fst snd]. rewrite Hr.
      apply IH. apply NoDup_app in Hnodup as (Hacc & Hdisjoint & Hrest).
      apply NoDup_app. split; [done |]. split.
      * intros x Hx Hin. apply (Hdisjoint x Hx). by right.
      * by apply NoDup_cons in Hrest as [_ ?].
Qed.

Lemma attempts_presets (file : string) (presets : list (string * BuildImages.config))
    (t : tree) :
  (attempts file presets t).1.*1 = presets.
Proof.
  revert t. induction presets as [|entry presets IH]; intros t; [done |]. cbn.
  by rewrite IH.
Qed.

(** One file. *)
Lemma optimizeFile_trace (total : nat) (state : nat * list (string * value))
    (file : string) (w : world) :
  file ∉ keys state.2 →
  BuildImages.optimizeFile E sourceDir outputBaseDir total state file w
  = let pairs := attempts file BuildImages.configs (fs w) in
    (Ok (S state.1, state.2 ++ [(file, Obj (entry_of file pairs.1))]),
     {| fs := pairs.2;
        console :=
          console w
          ++ [Out ("Processing " +:+ file +:+ "...")]
          ++ flat_map (Trace.errors_of file) pairs.1
          ++ [Out ("Processed " +:+ pretty (S state.1) +:+ "/" +:+ pretty total
                   +:+ ": " +:+ file)];
        shell := shell w ++ flat_map (commands_of file) pairs.1 |}).
Proof.
  intros Hfresh. unfold BuildImages.optimizeFile.
  unfold bind at 1. cbn [console_log]. unfold bind at 1.
  rewrite presets_trace. cbv beta iota zeta. cbn [fs console shell].
  rewrite (set_prop_fresh _ _ _ Hfresh), entry_fold; [|done |].
  - unfold bind, console_log, ret. cbn [fs console shell app].
    by rewrite <- !app_assoc.
  - cbn [keys fmap list_fmap app]. rewrite attempts_presets. apply config_names_NoDup.
Qed.

Lemma error_lines_app (a b : list line) :
  Trace.error_lines (a ++ b) = Trace.error_lines a ++ Trace.error_lines b.
Proof. apply filter_app. Qed.

Lemma error_lines_errors_of (file : string)
    (pairs : list ((string * BuildImages.config) * Trace.result)) :
  Trace.error_lines (flat_map (Trace.errors_of file) pairs)
  = flat_map (Trace.errors_of file) pairs.
Proof.
  induction pairs as [|[entry r] pairs IH]; [done |].
  cbn [flat_map]. rewrite error_lines_app, IH. by destruct r.
Qed.

(** All the files. *)
Lemma files_trace (total : nat) (files : list string)
    (state : nat * list (string * value)) (w : world) :
  NoDup (keys state.2 ++ files) →
  ∃ w',
    foldM (BuildImages.optimizeFile E sourceDir outputBaseDir total) state files w
    = (Ok (state.1 + length files,
           state.2 ++ Trace.manifest_of outputBaseDir (replay files (fs w)).1), w')
    ∧ fs w' = (replay files (fs w)).2
    ∧ shell w'
      = shell w ++ Trace.commands sourceDir outputBaseDir (replay files (fs w)).1
    ∧ Trace.error_lines (console w')
      = Trace.error_lines (console w) ++ Trace.errors (replay files (fs w)).1.
Proof.
  revert state w. induction files as [|file files IH]; intros state w Hnodup.
  - exists w. cbn. rewrite Nat.add_0_r, !app_nil_r. by destruct state.
  - assert (file ∉ keys state.2) as Hfresh.
    { apply NoDup_app in Hnodup as (_ & Hdisjoint & _). intros Hin.
      apply (Hdisjoint _ Hin). by left. }
    cbn [foldM]. unfold bind at 1. rewrite (optimizeFile_trace _ _ _ _ Hfresh).
    cbv beta iota zeta.
    set (pairs := attempts file BuildImages.configs (fs w)).
    edestruct (IH (S state.1, state.2 ++ [(file, Obj (entry_of file pairs.1))]))
      as (w' & -> & Hfs & Hshell & Hconsole).
    { cbn [snd]. unfold keys in *. rewrite fmap_app. cbn. rewrite <- app_assoc. exact Hnodup. }
    exists w'. cbn [fs console shell fst snd] in *. fold pairs.
    split; [|split; [|split]].
    + cbn [Trace.replay Trace.manifest_of map fst snd length]. fold pairs.
      rewrite <- app_assoc. cbn [app]. do 3 f_equal. lia.
    + exact Hfs.
    + rewrite Hshell. cbn [Trace.replay Trace.commands flat_map fst snd]. fold pairs.
      by rewrite <- app_assoc.
    + rewrite Hconsole. cbn [Trace.replay Trace.errors flat_map fst snd]. fold pairs.
      rewrite !error_lines_app, error_lines_errors_of. cbn. by rewrite <- !app_assoc, ?app_nil_r.
Qed.

End Traces.

Section Runs.
Import Sys Hoare Inv Layout Json.
Context (E : BuildImages.env) (sourceDir outputBaseDir : string).

Local Abbreviation replay := (Trace.replay E sourceDir outputBaseDir).
Local Abbreviation entry_of := (Trace.entry_of outputBaseDir).

Lemma replay_files (files : list string) (t : tree) : (replay files t).1.*1 = files.
Proof.
  revert t. induction files as [|file files IH]; intros t; [done |]. cbn. by rewrite IH.
Qed.

Lemma replay_presets (files : list string) (t : tree) (file : string)
    (pairs : list ((string * BuildImages.config) * Trace.result)) :
  (file, pairs) ∈ (replay files t).1 → pairs.*1 = BuildImages.configs.
Proof.
  revert t. induction files as [|file' files IH]; intros t Hin.
  - by apply elem_of_nil in Hin.
  - cbn [Trace.replay fst snd] in Hin.
    apply elem_of_cons in Hin as [Heq | Hin]; [|by eapply IH].
    injection Heq as _ Heq. by rewrite Heq.
Qed.

Lemma keys_manifest_of
    (run : list (string * list ((string * BuildImages.config) * Trace.result))) :
  keys (Trace.manifest_of outputBaseDir run) = run.*1.
Proof. unfold keys, Trace.manifest_of. by rewrite <- list_fmap_compose. Qed.

Lemma get_prop_manifest_of
    (run : list (string * list ((string * BuildImages.config) * Trace.result)))
    (file : string) (pairs : list ((string * BuildImages.config) * Trace.result)) :
  NoDup run.*1 → (file, pairs) ∈ run →
  get_prop file (Trace.manifest_of outputBaseDir run) = Some (Obj (entry_of file pairs)).
Proof.
  induction run as [|[file' pairs'] run IH]; intros Hnodup Hin.
  - by apply elem_of_nil in Hin.
  - cbn in Hnodup. apply NoDup_cons in Hnodup as [Hfresh Hnodup]. cbn.
    apply elem_of_cons in Hin as [[= -> ->] | Hin].
    + by rewrite String.eqb_refl.
    + destruct (String.eqb_spec file file') as [-> | _]; [|by apply IH].
      destruct Hfresh. apply list_elem_of_fmap. by exists (file', pairs).
Qed.

(** A pair has an entry exactly when it was converted. *)
Lemma get_prop_entry_of (file : string)
    (pairs : list ((string * BuildImages.config) * Trace.result))
    (entry : string * BuildImages.config) (r : Trace.result) :
  NoDup pairs.*1.*1 → (entry, r) ∈ pairs →
  get_prop entry.1 (entry_of file pairs)
  = if Trace.converted r then Some (pair_paths outputBaseDir file entry) else None.
Proof.
  induction pairs as [|[entry' r'] pairs IH]; intros Hnodup Hin.
  - by apply elem_of_nil in Hin.
  - cbn in Hnodup. apply NoDup_cons in Hnodup as [Hfresh Hnodup].
    assert (∀ r0, (entry, r0) ∈ pairs → entry.1 ≠ entry'.1) as Hne.
    { intros r0 Hr0 Heq. apply Hfresh. rewrite <- Heq.
      apply list_elem_of_fmap. exists entry. split; [done |].
      apply list_elem_of_fmap. by exists (entry, r0). }
    unfold Trace.entry_of. cbn [omap list_omap fst snd].
    apply elem_of_cons in Hin as [[= -> ->] | Hin].
    + destruct (Trace.converted r') eqn:Hr.
      * cbn. by rewrite String.eqb_refl.
      * apply get_prop_None. intros Hkey. apply Hfresh.
        apply list_elem_of_fmap in Hkey as ([k v] & -> & Hkv). cbn.
        apply list_elem_of_omap in Hkv as ([e0 r0] & Hin0 & Hsome). cbn in Hsome.
        destruct (Trace.converted r0); [|done]. injection Hsome as <- _.
        apply list_elem_of_fmap. exists e0. split; [done |].
        apply list_elem_of_fmap. by exists (e0, r0).
    + destruct (Trace.converted r').
      * cbn. destruct (String.eqb_spec entry.1 entry'.1) as [Heq | _];
          [by destruct (Hne r Hin) | by apply IH].
      * by apply IH.
Qed.

(** The entry of a file is empty exactly when none of its pairs was
    converted. *)
Lemma entry_of_nil (file : string)
    (pairs : list ((string * BuildImages.config) * Trace.result)) :
  entry_of file pairs = []
  ↔ ∀ entry r, (entry, r) ∈ pairs → Trace.converted r = false.
Proof.
  induction pairs as [|[entry' r'] pairs IH].
  - split; [|done]. by intros _ entry r Hin%elem_of_nil.
  - unfold Trace.entry_of. cbn [omap list_omap fst snd]. split.
    + destruct (Trace.converted r') eqn:Hr; [done |]. intros Hnil entry r Hin.
      apply elem_of_cons in Hin as [[= -> ->] | Hin]; [done |].
      by apply (proj1 IH Hnil entry).
    + intros Hnone. rewrite (Hnone entry' r') by left.
      apply IH. intros entry r Hin. apply (Hnone entry). by right.
Qed.

Lemma error_lines_outs (l : list line) :
  Forall (λ l, Trace.is_error l = false) l → Trace.error_lines l = [].
Proof.
  induction 1 as [|x l Hx _ IH]; [done |]. unfold Trace.error_lines in *.
  rewrite filter_cons_False; [done |]. by rewrite Hx.
Qed.

(** A run that gets through its set-up does what [Trace.replay] says, from
    the disk with the preset directories. *)
Lemma createOptimizedImages_trace (w : world) :
  BuildImages.convert_version_ok E = true →
  fs w !! resolve sourceDir = Some Dir →
  (∀ preset k c, preset ∈ BuildImages.configs.*1 →
                 k `prefix_of` resolve outputBaseDir ++ [preset] →
                 fs w !! k ≠ Some (File c)) →
  fs w !! (resolve outputBaseDir ++ ["image-manifest.json"]) ≠ Some Dir →
  let t1 := with_preset_dirs (resolve outputBaseDir) (fs w) in
  let files := listed_images (resolve sourceDir) t1 in
  let run := replay files t1 in
  NoDup files
  ∧ ∃ w',
      BuildImages.createOptimizedImages E sourceDir outputBaseDir w = (Ok tt, w')
      ∧ fs w' = <[resolve outputBaseDir ++ ["image-manifest.json"]
                  := File (stringify (Obj (Trace.manifest_of outputBaseDir run.1)))]> run.2
      ∧ shell w'
        = shell w ++ Convert_version :: Trace.commands sourceDir outputBaseDir run.1
      ∧ Trace.error_lines (console w')
        = Trace.error_lines (console w) ++ Trace.errors run.1.
Proof.
  intros Hok Hsrc Hfree Hmanifest t1 files run.
  destruct (createOptimizedImages_run E sourceDir outputBaseDir w Hok Hsrc Hfree Hmanifest)
    as (imageFiles & w1 & state & w2 & Hprepare & _ & Hprocess & _ & Hrun).
  destruct (prepare_disk E _ _ _ _ _ Hprepare) as [Hw1 Hfiles].
  destruct (prepare_run E sourceDir outputBaseDir w Hok Hsrc Hfree)
    as (w1' & Hprepare' & _ & _ & _ & Hshell1 & Hconsole1).
  rewrite Hprepare in Hprepare'. injection Hprepare' as _ <-.
  rewrite Hw1 in Hfiles. fold t1 files in Hfiles. subst imageFiles.
  assert (NoDup files) as Hnodup by apply NoDup_filter, entries_NoDup.
  split; [done |].
  destruct (files_trace E sourceDir outputBaseDir (length files) files (0, []) w1)
    as (w2' & Hprocess' & Hfs2 & Hshell2 & Hconsole2); [done |].
  unfold BuildImages.processImages in Hprocess. rewrite Hprocess in Hprocess'.
  injection Hprocess' as -> <-. rewrite Hw1 in Hfs2, Hshell2, Hconsole2.
  fold t1 run in Hfs2, Hshell2, Hconsole2.
  cbv zeta in Hrun. cbn [snd] in Hrun.
  eexists. split; [exact Hrun |]. cbn [fs shell console]. rewrite Hw1. fold t1 run.
  split; [by rewrite Hfs2 |].
  split; [by rewrite Hshell2, Hshell1, <- app_assoc |].
  rewrite !error_lines_app, Hconsole2, Hconsole1, !error_lines_app.
  rewrite (error_lines_outs [_; _]) by (repeat constructor).
  rewrite (error_lines_outs [_; _; _]) by (repeat constructor).
  unfold size_report.
  rewrite (error_lines_outs [_; _; _; _]) by (repeat constructor).
  by rewrite !app_nil_r.
Qed.

End Runs.

Section Logged.
Import Sys Inv.

Lemma error_lines_subseteq (l : list line) (x : line) : x ∈ Trace.error_lines l → x ∈ l.
Proof. by intros [_ ?]%list_elem_of_filter. Qed.

(** A pair that was not converted has its line among the errors of the
    run. *)
Lemma failure_in_errors
    (run : list (string * list ((string * BuildImages.config) * Trace.result)))
    (file : string) (pairs : list ((string * BuildImages.config) * Trace.result))
    (entry : string * BuildImages.config) (r : Trace.result) :
  (file, pairs) ∈ run → (entry, r) ∈ pairs → Trace.converted r = false →
  ∃ message, failure_line file message ∈ Trace.errors run.
Proof.
  intros Hfile Hpair Hr.
  assert (∃ message, failure_line file message ∈ Trace.errors_of file (entry, r))
    as [message Hmessage].
  { destruct r as [message | t1 message | t2]; [| |done]; exists message; by left. }
  exists message. unfold Trace.errors.
  apply list_elem_of_In, in_flat_map. exists (file, pairs).
  split; [by apply list_elem_of_In |].
  apply in_flat_map. exists (entry, r). by split; apply list_elem_of_In.
Qed.

End Logged.



Lemma pages_free (out preset : string) (k : list string) (c : string) :
  k `prefix_of` Sys.resolve out ++ [preset] →
  Sys.resolve out ≠ [] → hd "" (Sys.resolve out) ≠ "pages" →
  Fixtures.pages !! k ≠ Some (File c).
Proof.
  intros Hprefix Hout Hhead Hfile.
  apply elem_of_list_to_map_2 in Hfile.
  apply elem_of_cons in Hfile as [[=] | Hfile].
  apply elem_of_cons in Hfile as [[= -> _] | Hfile]; [|by apply elem_of_nil in Hfile].
  destruct (Sys.resolve out) as [|first rest]; [done |].
  by apply prefix_cons_inv_1 in Hprefix as <-.
Qed.



(** ** A pair that fails half way *)

(** C9.  A failed pair is not undone.  When the WebP file of a pair is not
    on disk, ImageMagick writes it and then fails on the JPEG command, the
    pair leaves the results as they were, prints its error, and the WebP
    file is on disk after it.  In the run of the script over one image with
    an ImageMagick that writes WebP but no JPEG, the WebP file of the mobile
    preset, which was not there before, is on disk at the end, and the
    manifest, which maps the image to the empty object, does not mention
    it. *)
Theorem webp_left_behind :
  (∀ (E : BuildImages.env) (sourceDir outputBaseDir file : string)
     (entry : string * BuildImages.config) (results : list (string * Json.value))
     (w : Sys.world) (webp message : string),
     let webp_command := Trace.webp_of sourceDir outputBaseDir file entry in
     let jpeg_command := Trace.jpeg_of sourceDir outputBaseDir file entry in
     let webp_key := Sys.resolve (Sys.cmd_output webp_command) in
     Inv.plain_command webp_command = true →
     Inv.plain_command jpeg_command = true →
     Sys.fs w !! webp_key = None →
     BuildImages.convert E webp_command (Sys.fs w) = Exec_ok webp →
     BuildImages.convert E jpeg_command (<[webp_key := File webp]> (Sys.fs w))
     = Exec_fail message →
     BuildImages.optimizePreset E outputBaseDir (Path.join sourceDir file) file results
       entry w
     = (Ok results,
        {| Sys.fs := <[webp_key := File webp]> (Sys.fs w);
           Sys.console := Sys.console w ++ [Inv.failure_line file message];
           Sys.shell := Sys.shell w ++ [Convert webp_command; Convert jpeg_command] |}))
  ∧ (let w := Fixtures.world_of Fixtures.pages in
     let run := BuildImages.main Fixtures.convert_webp_only None None w in
     let webp_key := ["optimized-images"; "mobile"; "a-mobile.webp"] in
     let manifest := Json.stringify (Json.Obj [("a.jpg", Json.Obj [])]) in
     Sys.fs w !! webp_key = None
     ∧ run.1 = Ok tt
     ∧ Sys.fs run.2 !! webp_key = Some (File "WEBP")
     ∧ Sys.fs run.2 !! ["optimized-images"; "image-manifest.json"] = Some (File manifest)
     ∧ Js.search "a-mobile.webp" manifest = None).
Proof.
  split.
  - intros E sourceDir outputBaseDir file entry results w webp message
      webp_command jpeg_command webp_key _ _ Habsent Hwebp Hjpeg.
    assert (Trace.attempt E sourceDir outputBaseDir file entry (Sys.fs w)
            = Trace.Jpeg_failed (<[webp_key := File webp]> (Sys.fs w)) message) as Hpair.
    { unfold Trace.attempt. fold webp_command jpeg_command. rewrite Hwebp.
      cbn [Sys.encoded]. change (Sys.resolve (Sys.cmd_output webp_command)) with webp_key.
      rewrite Habsent, Hjpeg. reflexivity. }
    rewrite optimizePreset_trace. cbv zeta. by rewrite Hpair.
  - cbv zeta. split; [reflexivity |]. split; [by vm_compute |].
    split; [by vm_compute |]. split; by vm_compute.
Qed.

Lemma webp_left_behind_witness :
  BuildImages.optimizePreset Fixtures.convert_webp_only "./optimized-images"
    (Path.join "./pages" "a.jpg") "a.jpg" [("a.jpg", Json.Obj [])]
    ("mobile", Fixtures.mobile_local) (Fixtures.world_of Fixtures.pages)
  = (Ok [("a.jpg", Json.Obj [])],
     {| Sys.fs := <[["optimized-images"; "mobile"; "a-mobile.webp"] := File "WEBP"]>
                    Fixtures.pages;
        Sys.console := [] ++ [Inv.failure_line "a.jpg" "convert: no encode delegate"];
        Sys.shell :=
          [] ++ [ Convert (Trace.webp_of "./pages" "./optimized-images" "a.jpg"
                             ("mobile", Fixtures.mobile_local));
                  Convert (Trace.jpeg_of "./pages" "./optimized-images" "a.jpg"
                             ("mobile", Fixtures.mobile_local)) ] |}).
Proof.
  apply (proj1 webp_left_behind Fixtures.convert_webp_only "./pages" "./optimized-images"
           "a.jpg" ("mobile", Fixtures.mobile_local) [("a.jpg", Json.Obj [])]
           (Fixtures.world_of Fixtures.pages) "WEBP" "convert: no encode delegate");
    reflexivity.
Defined.

(** ** The packaging pipeline writes no manifest *)

Section NoManifest.
Import Sys Hoare Inv Layout.
Context (E : BuildCloudflare.env).

(** No variant is named like the manifest. *)
Lemma variant_not_manifest (stem ext : string) :
  ext = ".webp" ∨ ext = ".jpg" → stem +:+ ext ≠ "image-manifest.json".
Proof.
  intros [-> | ->] H;
    repeat (destruct stem as [|? stem]; cbn in H; [discriminate H | injection H as _ H]);
    by destruct stem.
Qed.

Lemma manifest_key_ne (k : list string) (dir : list string) (name : string) :
  last k = Some "image-manifest.json" → name ≠ "image-manifest.json" → dir ++ [name] ≠ k.
Proof. intros Hlast Hname <-. rewrite last_snoc in Hlast. by injection Hlast. Qed.

Lemma manifest_key_not_prefix (k dir : list string) :
  last k = Some "image-manifest.json" →
  "image-manifest.json" ∉ dir → ¬ k `prefix_of` dir.
Proof.
  intros Hlast Hdir [rest ->]. apply Hdir, elem_of_app. left.
  destruct k as [|x k' _] using rev_ind; [done |].
  rewrite last_snoc in Hlast. injection Hlast as ->. apply elem_of_app. right. by left.
Qed.

Lemma manifest_optimizeWithSharp (k : list string) (inputPath filename preset : string)
    (cfg : BuildCloudflare.config) :
  last k = Some "image-manifest.json" →
  Path.valid_name filename = true → is_image filename = true →
  (preset, cfg) ∈ BuildCloudflare.configs →
  preserves (same_at k)
    (BuildCloudflare.optimizeWithSharp E inputPath (Path.join "./dist" "pages") filename cfg).
Proof.
  intros Hlast Hvalid Himage Hcfg. unfold BuildCloudflare.optimizeWithSharp. cbv zeta.
  assert (∀ ext, ext = ".webp" ∨ ext = ".jpg" →
            resolve (Path.join (Path.join "./dist" "pages")
                       (Path.parse_name filename +:+ BuildCloudflare.suffix cfg +:+ ext))
            ≠ k) as Hout.
  { intros ext Hext. rewrite (pipeline_output_key preset) by done.
    apply (manifest_key_ne k ["dist"; "pages"]); [done |].
    rewrite <- append_assoc. by apply variant_not_manifest. }
  apply preserves_try_catch; [exact _ | |intros message].
  - unfold BuildCloudflare.require_sharp.
    preserves_step; [by repeat preserves_step |].
    preserves_step; [apply same_at_sharp_toFile, Hout; by left |].
    preserves_step; [apply same_at_sharp_toFile, Hout; by right |].
    preserves_step.
  - preserves_step; [preserves_step |].
    preserves_step; [|preserves_step].
    apply same_at_copyFileSync. rewrite resolve_join by done.
    apply (manifest_key_ne k ["dist"; "pages"]); [done |]. by intros ->.
Qed.

Lemma manifest_build (k : list string) :
  last k = Some "image-manifest.json" →
  preserves (same_at k) (BuildCloudflare.build E "./dist" "./flipbook-v2").
Proof.
  intros Hlast. unfold BuildCloudflare.build. cbv zeta.
  assert (∀ dir, "image-manifest.json" ∉ dir → ¬ k `prefix_of` dir) as Hdir
    by (intros dir; by apply manifest_key_not_prefix).
  assert (∀ dir name, name ≠ "image-manifest.json" → dir ++ [name] ≠ k) as Hname
    by (intros dir name; by apply manifest_key_ne).
  preserves_step.
  { apply same_at_mkdirSync, Hdir. change (resolve "./dist") with ["dist"].
    by intros [[=] | []%elem_of_nil]%elem_of_cons. }
  preserves_step; [preserves_step |].
  preserves_step; [apply same_at_copyFileSync, (Hname ["dist"]); by vm_compute |].
  preserves_step.
  { apply same_at_mkdirSync, Hdir.
    change (resolve (Path.join "./dist" "pages")) with ["dist"; "pages"].
    intros Hin. repeat (apply elem_of_cons in Hin as [[=] | Hin]). by apply elem_of_nil in Hin. }
  apply preserves_bind; [exact _ | |intros useSharp].
  { unfold BuildCloudflare.require_sharp. repeat preserves_step. }
  apply preserves_readdirSync_bind; [exact _ |]. intros files Hfiles.
  preserves_step; [preserves_step |].
  preserves_step.
  - destruct useSharp.
    + apply preserves_forEach; [exact _ |].
      intros filename [Himage Hfile]%list_elem_of_filter.
      preserves_step; [preserves_step |].
      apply preserves_forEach; [exact _ |]. intros [preset cfg] Hcfg.
      preserves_step; [|preserves_step].
      apply (manifest_optimizeWithSharp k _ _ preset); [done | by apply Hfiles | done..].
    + apply preserves_forEach; [exact _ |].
      intros filename [Himage Hfile]%list_elem_of_filter.
      apply same_at_copyFileSync. rewrite resolve_join by by apply Hfiles.
      apply (Hname ["dist"; "pages"]). by intros ->.
  - preserves_step.
    + unfold BuildCloudflare.updateHtmlForOptimizedImages. cbv zeta.
      preserves_step; [preserves_step |].
      apply same_at_writeFileSync, (Hname ["dist"]). by vm_compute.
    + preserves_step; [|preserves_step].
      unfold BuildCloudflare.createHeadersFile.
      apply same_at_writeFileSync, (Hname ["dist"]). by vm_compute.
Qed.

(** However the script ends, no manifest lies in [dist] after it, and a
    file of that name elsewhere is as it was. *)
Lemma pipeline_writes_no_manifest (w : world) (k : list string) :
  dist_parented (fs w) →
  last k = Some "image-manifest.json" →
  fs (BuildCloudflare.main E w).2 !! k
  = if decide (below ["dist"] k) then None else fs w !! k.
Proof.
  intros Hparented Hlast.
  destruct (buildForCloudflare_cleans E w Hparented) as (w0 & Hw0 & Hrun).
  pose proof (manifest_build k Hlast w0) as Hsame. unfold same_at in Hsame.
  rewrite Hw0, outside_dist_lookup in Hsame. rewrite <- Hsame.
  unfold BuildCloudflare.main, try_catch. rewrite Hrun.
  by destruct (BuildCloudflare.build E "./dist" "./flipbook-v2" w0) as [[[] | message | code] w'].
Qed.

End NoManifest.

(** No run of either script writes a per-file fallback to a manifest.  The
    local optimizer has no [{original: path}] among the results it
    serializes; the packaging pipeline, where the fallback is, leaves no
    manifest in [dist] however it ends; and in its run over the sample site
    with a Sharp that fails, the fallback is taken for [page1.jpg], which is
    copied and reported, and no file of the disk is named
    [image-manifest.json] afterwards. *)
Lemma no_original_entry_in_manifest :
  (¬ ∃ (E : BuildImages.env) (sourceDir outputBaseDir : string) (files : list string)
       (w w' : Sys.world) (state : nat * list (string * Json.value))
       (file preset path : string) (entry : list (string * Json.value)),
       BuildImages.processImages E sourceDir outputBaseDir files w = (Ok state, w')
       ∧ (file, Json.Obj entry) ∈ state.2
       ∧ (preset, Json.Obj [("original", Json.Str path)]) ∈ entry)
  ∧ (∀ (E : BuildCloudflare.env) (w : Sys.world) (k : list string),
       Inv.dist_parented (Sys.fs w) →
       last k = Some "image-manifest.json" → Sys.below ["dist"] k →
       Sys.fs (BuildCloudflare.main E w).2 !! k = None)
  ∧ (let run := BuildCloudflare.main Fixtures.sharp_fails (Fixtures.world_of Fixtures.site) in
     run.1 = Ok tt
     ∧ Err ("Error processing page1.jpg with Sharp: "
            +:+ "Input file contains unsupported image format") ∈ Sys.console run.2
     ∧ Sys.fs run.2 !! ["dist"; "pages"; "page1.jpg"] = Some (File "JPEG-1")
     ∧ filter (λ kv, last kv.1 = Some "image-manifest.json") (map_to_list (Sys.fs run.2))
       = []).
Proof.
  split; [|split].
  - intros (E & sourceDir & outputBaseDir & files & w & w' & state & file & preset & path
            & entry & Hprocess & Hfile & Hpreset).
    destruct (hoare_run _ _ _ _ _ _
                (processImages_spec E sourceDir outputBaseDir files w) eq_refl Hprocess)
      as (state' & [= <-] & _ & _ & _ & Hshape).
    destruct (Hshape _ _ Hfile) as (entry' & [= <-] & Hentry).
    by destruct (Hentry _ _ Hpreset) as (p & q & [=]).
  - intros E w k Hparented Hlast Hbelow.
    by rewrite pipeline_writes_no_manifest, decide_True.
  - cbv zeta. split; [by vm_compute |]. split; [|split; by vm_compute].
    apply list_elem_of_In. vm_compute. tauto.
Qed.

(** C4, as the scripts have it.  Every value of the manifest the local
    optimizer writes maps preset names to objects of the form
    [{webp: path, jpeg: path}]: no [{original: path}] is ever written to
    it.  The per-file fallback belongs to the packaging pipeline, which
    writes no manifest: however a run of it ends, no file named
    [image-manifest.json] lies in [dist], and one that lies elsewhere is as
    it was. *)
Theorem manifest_values_are_variants (E : BuildImages.env)
    (sourceDir outputBaseDir : string) (w w' : Sys.world)
    (E2 : BuildCloudflare.env) (w2 : Sys.world) (k : list string) :
  BuildImages.createOptimizedImages E sourceDir outputBaseDir w = (Ok tt, w') →
  Inv.dist_parented (Sys.fs w2) →
  last k = Some "image-manifest.json" →
  (∃ results,
     Sys.fs w' !! Sys.resolve (Path.join outputBaseDir "image-manifest.json")
     = Some (File (Json.stringify (Json.Obj results)))
     ∧ ∀ file v, (file, v) ∈ results →
         ∃ entry, v = Json.Obj entry
                  ∧ ∀ preset r, (preset, r) ∈ entry →
                      ∃ p q, r = Json.Obj [("webp", Json.Str p); ("jpeg", Json.Str q)])
  ∧ Sys.fs (BuildCloudflare.main E2 w2).2 !! k
    = (if decide (Sys.below ["dist"] k) then None else Sys.fs w2 !! k).
Proof.
  intros (imageFiles & w1 & state & w3 & Hprepare & Hprocess & Hfs)%createOptimizedImages_inv
    Hparented Hlast.
  split; [|by apply pipeline_writes_no_manifest].
  destruct (hoare_run _ _ _ _ _ _
              (processImages_spec E sourceDir outputBaseDir imageFiles w1) eq_refl Hprocess)
    as (state' & [= <-] & _ & _ & _ & Hshape).
  exists state.2. split; [by rewrite Hfs, lookup_insert_eq | exact Hshape].
Qed.

Lemma manifest_values_are_variants_witness :
  (∃ results,
     Sys.fs (BuildImages.createOptimizedImages Fixtures.convert_works "./pages"
               "./optimized-images" (Fixtures.world_of Fixtures.pages)).2
       !! Sys.resolve (Path.join "./optimized-images" "image-manifest.json")
     = Some (File (Json.stringify (Json.Obj results)))
     ∧ ∀ file v, (file, v) ∈ results →
         ∃ entry, v = Json.Obj entry
                  ∧ ∀ preset r, (preset, r) ∈ entry →
                      ∃ p q, r = Json.Obj [("webp", Json.Str p); ("jpeg", Json.Str q)])
  ∧ Sys.fs (BuildCloudflare.main Fixtures.sharp_fails
              (Fixtures.world_of Fixtures.stale_site)).2
      !! ["dist"; "pages"; "image-manifest.json"]
    = (if decide (Sys.below ["dist"] ["dist"; "pages"; "image-manifest.json"])
       then None
       else Sys.fs (Fixtures.world_of Fixtures.stale_site)
              !! ["dist"; "pages"; "image-manifest.json"]).
Proof.
  apply (manifest_values_are_variants Fixtures.convert_works "./pages"
           "./optimized-images" (Fixtures.world_of Fixtures.pages) _
           Fixtures.sharp_fails (Fixtures.world_of Fixtures.stale_site)
           ["dist"; "pages"; "image-manifest.json"]).
  - apply run_eq. vm_compute. reflexivity.
  - intros k _ _. exists Dir. reflexivity.
  - reflexivity.
Defined.

(** ** The percentage of the size report *)



